(** * Body3Dmetric: anthropometric measurement engine and silhouette profile

    A shallow embedding of the measurement code of [App.tsx] (both the
    simple and the age-aware variant) and of its event handlers, of the
    oracle boundary of [services/bodyAnalysis.ts], and of the silhouette
    profile, the scene and the OBJ export of [components/ModelViewer.tsx]
    (both variants).

    JavaScript numbers are IEEE-754 binary64 values.  They are modelled by
    Rocq's primitive floats, whose operations are the same correctly
    rounded binary64 operations, so every definition below evaluates to the
    very bits the browser computes.  The arithmetic core is written once
    over an interface of number operations.  The properties are proved of
    its binary64 instance; those that hold for every width rest on an
    error analysis, through the real number each binary64 value stands
    for.  The instance over the exact reals is read for the circle
    only. *)

From Stdlib Require Import ZArith List Bool Lia Floats Reals Lra Psatz String Ascii.
Import ListNotations.

Set Warnings "-inexact-float".

(* ================================================================== *)
(** * 1. JavaScript numbers *)
(* ================================================================== *)

(** ** 1.1 The operations the sources use *)

Class JSNumber (num : Type) : Type := {
  js_add   : num -> num -> num;
  js_sub   : num -> num -> num;
  js_mul   : num -> num -> num;
  js_div   : num -> num -> num;
  js_lt    : num -> num -> bool;      (* [a < b]  *)
  js_le    : num -> num -> bool;      (* [a <= b] *)
  js_lit   : Z -> Z -> num;           (* the literal [n / 10^k], as parsed *)
  Math_PI    : num;
  Math_sqrt  : num -> num;
  Math_round : num -> num;
  Math_max   : num -> num -> num;
  isNaN      : num -> bool
}.

Declare Scope js_scope.
Delimit Scope js_scope with js.
Infix "+" := js_add : js_scope.
Infix "-" := js_sub : js_scope.
Infix "*" := js_mul : js_scope.
Infix "/" := js_div : js_scope.
Notation "a <? b"  := (js_lt a b) : js_scope.
Notation "a <=? b" := (js_le a b) : js_scope.
Notation "a >? b"  := (js_lt b a) (at level 70) : js_scope.
Notation "a >=? b" := (js_le b a) (at level 70) : js_scope.

(** [Math.pow(x, 2)]: the only exponent the sources use.  Every engine's
    [pow] returns the correctly rounded square for the exponent 2 (the
    [y == 2] case of fdlibm's [e_pow.c]). *)
Definition Math_pow2 {num} `{JSNumber num} (x : num) : num := (x * x)%js.

(** ** 1.2 binary64 *)

Module F64.

Open Scope float_scope.

(** An integer as a number (exact below 2^53 in magnitude). *)
Definition of_Z (n : Z) : float :=
  match n with
  | Z0 => 0
  | Zpos _ => SF2Prim (binary_normalize prec emax n 0 false)
  | Zneg _ => SF2Prim (binary_normalize prec emax n 0 true)
  end.

(** The correctly rounded quotient of two positive integers: what the
    parser of decimal text yields for [n / 10^k]. *)
Definition of_ratio (n d : positive) : float :=
  SF2Prim (SFdiv prec emax (S754_finite false n 0) (S754_finite false d 0)).

(** A decimal literal [n / 10^k] of the source text. *)
Definition lit (n k : Z) : float :=
  match n with
  | Z0 => 0
  | Zpos p => of_ratio p (Z.to_pos (10 ^ k))
  | Zneg p => - of_ratio p (Z.to_pos (10 ^ k))
  end.

(** [Math.PI], the binary64 value nearest to pi. *)
Definition PI : float := 0x1.921fb54442d18p+1.

(** [Math.round]: the nearest integer, ties towards +infinity; an
    integral, infinite or NaN argument is returned as it is, and a result
    of zero keeps the sign of a negative argument. *)
Definition round (x : float) : float :=
  match Prim2SF x with
  | S754_finite s m e =>
      if (0 <=? e)%Z then x
      else
        let v := if s then Z.neg m else Z.pos m in
        let n := ((2 * v + 2 ^ (- e)) / 2 ^ (1 - e))%Z in
        if (n =? 0)%Z then (if s then neg_zero else 0) else of_Z n
  | _ => x
  end.

(** [Math.max] of two arguments: NaN if either is NaN, and +0 above -0. *)
Definition max (x y : float) : float :=
  if is_nan x || is_nan y then nan
  else if x <? y then y
  else if y <? x then x
  else if get_sign x then y else x.

(** [x.toFixed(f)] yields text; the sources feed it straight back to
    [Number(...)].  The text is kept structured: the sign, the integer
    [n] nearest to [|x| * 10^f] (the larger one on a tie), and [f]. *)
Inductive NumberText : Type :=
| TextNaN
| TextInfinity (neg : bool)
| TextFixed (neg : bool) (n : Z) (f : Z)
| TextToString (x : float).       (* |x| >= 1e21: the shortest round-trip text *)

Definition toFixed (x : float) (f : Z) : NumberText :=
  match Prim2SF x with
  | S754_nan => TextNaN
  | S754_infinity s => TextInfinity s
  | S754_zero _ => TextFixed false 0 f
  | S754_finite s m e =>
      if 1e21 <=? abs x then TextToString x
      else
        let n := if (0 <=? e)%Z then (Z.pos m * 2 ^ e * 10 ^ f)%Z
                 else ((2 * Z.pos m * 10 ^ f + 2 ^ (- e)) / 2 ^ (1 - e))%Z in
        TextFixed s n f
  end.

(** [Number(text)] on the texts [toFixed] produces. *)
Definition Number (t : NumberText) : float :=
  match t with
  | TextNaN => nan
  | TextInfinity s => if s then neg_infinity else infinity
  | TextToString x => x
  | TextFixed s n f =>
      match n with
      | Zpos p =>
          let v := of_ratio p (Z.to_pos (10 ^ f)) in
          if s then - v else v
      | _ => if s then neg_zero else 0
      end
  end.

#[global] Instance ops : JSNumber float := {|
  js_add := PrimFloat.add;
  js_sub := PrimFloat.sub;
  js_mul := PrimFloat.mul;
  js_div := PrimFloat.div;
  js_lt  := PrimFloat.ltb;
  js_le  := PrimFloat.leb;
  js_lit := lit;
  Math_PI := PI;
  Math_sqrt := PrimFloat.sqrt;
  Math_round := round;
  Math_max := max;
  isNaN := is_nan
|}.

End F64.

(** ** 1.3 Exact reals

    The same interface over the real numbers: no rounding and no NaN.  The
    formulas of the measurement engine are approximations of these. *)

Module Exact.

Open Scope R_scope.

Definition ltb (a b : R) : bool := if Rlt_dec a b then true else false.
Definition leb (a b : R) : bool := if Rle_dec a b then true else false.

(** The nearest integer, ties towards +infinity. *)
Definition round (x : R) : R := IZR (Int_part (x + / 2)).

#[global] Instance ops : JSNumber R := {|
  js_add := Rplus;
  js_sub := Rminus;
  js_mul := Rmult;
  js_div := Rdiv;
  js_lt  := ltb;
  js_le  := leb;
  js_lit := fun n k => IZR n / IZR (10 ^ k);
  Math_PI := Rtrigo1.PI;
  Math_sqrt := sqrt;
  Math_round := round;
  Math_max := Rmax;
  isNaN := fun _ => false
|}.

End Exact.

(* ================================================================== *)
(** * 2. Data model ([types.ts]) *)
(* ================================================================== *)

(** [BodyMeasurements].  The age-aware [App.tsx] also stores [age] in the
    object it builds; the simple variant stores none. *)
Record BodyMeasurements : Type := {
  height : float;                 (* in cm *)
  weight : float;                 (* in kg *)
  age : option float;
  waistWidth : float;
  hipWidth : float;
  shoulderWidth : float;
  chestWidth : float;
  waistCircumference : float;     (* in cm *)
  hipCircumference : float;       (* in cm *)
  bmi : float;
  whr : float;
  whtr : float
}.

(** A field the code reads as a number, when it is a number as the
    response schema declares it, [null], or absent.  A field of another
    JSON kind (a string, a boolean, an array, an object) is not a
    [JSValue]: section 4 has it as an [Operand]. *)
Inductive JSValue : Type :=
| JSUndefined                      (* the field is absent *)
| JSNull
| JSNum (x : float).

(** The conversion the operator [*] applies to such an operand; on these
    three shapes it does not throw. *)
Definition ToNumber (v : JSValue) : float :=
  match v with
  | JSUndefined => nan
  | JSNull => 0%float
  | JSNum x => x
  end.

Record Ratios : Type := {
  waistRatio : JSValue;
  hipRatio : JSValue;
  shoulderRatio : JSValue;
  chestRatio : JSValue;
  torsoHeightRatio : JSValue
}.

(** [AnalysisResponse] as it arrives: the cast [data as AnalysisResponse]
    checks nothing, so [measurements] itself may be absent.  The fields
    are of the kinds of [JSValue]; [Parsed], in section 4, has the answers
    of every other shape. *)
Record AnalysisResponse : Type := {
  measurements : option Ratios;
  confidence : JSValue
}.

(* ================================================================== *)
(** * 3. The oracle boundary ([services/bodyAnalysis.ts]) *)
(* ================================================================== *)

(** What the awaited request to the image-understanding service gives. *)
Inductive OracleReply : Type :=
| RequestRejected (message : string)     (* the request itself failed *)
| ReplyNotJSON                           (* [JSON.parse] throws *)
| ReplyJSON (data : AnalysisResponse).

(** A thrown [Error] value; the caller only reads its [message]. *)
Inductive Result (A : Type) : Type :=
| Returns (a : A)
| Throws (message : string).
Arguments Returns {A} a.
Arguments Throws {A} message.

Definition analyzeBodyImage (reply : OracleReply) : Result AnalysisResponse :=
  match reply with
  | RequestRejected msg => Throws msg
  | ReplyNotJSON => Throws "Could not analyze body proportions."
  | ReplyJSON data => Returns data
  end.

(* ================================================================== *)
(** * 4. The measurement engine ([App.tsx], [processImage]) *)
(* ================================================================== *)

Section Engine.

Context {num : Type} `{JSNumber num}.
Open Scope js_scope.

(** [const depthFactor = age > 50 ? 0.78 : 0.75;] *)
Definition depthFactor (age : num) : num :=
  if age >? js_lit 50 0 then js_lit 78 2 else js_lit 75 2.

(** [calcCircumference], closed over [depthFactor] in the source. *)
Definition calcCircumference (depthFactor width : num) : num :=
  let a := width / js_lit 2 0 in
  let b := (width * depthFactor) / js_lit 2 0 in
  let h_approx := Math_pow2 (a - b) / Math_pow2 (a + b) in
  Math_round (Math_PI * (a + b) *
    (js_lit 1 0 + (js_lit 3 0 * h_approx) /
       (js_lit 10 0 + Math_sqrt (js_lit 4 0 - js_lit 3 0 * h_approx)))).

(** Its local [h_approx]. *)
Definition h_approx (depthFactor width : num) : num :=
  let a := width / js_lit 2 0 in
  let b := (width * depthFactor) / js_lit 2 0 in
  Math_pow2 (a - b) / Math_pow2 (a + b).

(** The perimeter before [Math.round]. *)
Definition perimeter (depthFactor width : num) : num :=
  let a := width / js_lit 2 0 in
  let b := (width * depthFactor) / js_lit 2 0 in
  let h_approx := Math_pow2 (a - b) / Math_pow2 (a + b) in
  Math_PI * (a + b) *
    (js_lit 1 0 + (js_lit 3 0 * h_approx) /
       (js_lit 10 0 + Math_sqrt (js_lit 4 0 - js_lit 3 0 * h_approx))).

End Engine.

(** The view the application is in. *)
Inductive Step : Type := welcome | input | camera | processing | result.

(** The component state [processImage] reads and writes. *)
Record AppState : Type := {
  st_step : Step;
  st_height : float;
  st_weight : float;
  st_age : float;
  st_measurements : option BodyMeasurements;
  st_error : option string
}.

(** [ratios.waistRatio] when [ratios] is [undefined]. *)
Definition TypeError_message : string :=
  "Cannot read properties of undefined (reading 'waistRatio')".

Section Measure.

Open Scope float_scope.

(** The body of the [try] block after the oracle has answered, in the
    age-aware variant. *)
Definition measure (height weight age : float) (analysis : AnalysisResponse)
  : Result BodyMeasurements :=
  match measurements analysis with
  | None => Throws TypeError_message
  | Some ratios =>
      let scale := height in
      let wWidth := ToNumber (waistRatio ratios) * scale in
      let hWidth := ToNumber (hipRatio ratios) * scale in
      let depthFactor := depthFactor age in
      let waistCircum := calcCircumference depthFactor wWidth in
      let hipCircum := calcCircumference depthFactor hWidth in
      let bmi := F64.Number (F64.toFixed (weight / Math_pow2 (height / 100)) 1) in
      let whr := F64.Number (F64.toFixed (waistCircum / hipCircum) 2) in
      let whtr := F64.Number (F64.toFixed (waistCircum / height) 2) in
      Returns {|
        height := height;
        weight := weight;
        age := Some age;
        waistWidth := ToNumber (waistRatio ratios) * scale / 100;
        hipWidth := ToNumber (hipRatio ratios) * scale / 100;
        shoulderWidth := ToNumber (shoulderRatio ratios) * scale / 100;
        chestWidth := ToNumber (chestRatio ratios) * scale / 100;
        waistCircumference := waistCircum;
        hipCircumference := hipCircum;
        bmi := bmi;
        whr := whr;
        whtr := whtr
      |}
  end.

(** The same block in the simple variant: no age, depth factor 0.7. *)
Definition measure_simple (height weight : float) (analysis : AnalysisResponse)
  : Result BodyMeasurements :=
  match measurements analysis with
  | None => Throws TypeError_message
  | Some ratios =>
      let scale := height in
      let wWidth := ToNumber (waistRatio ratios) * scale in
      let hWidth := ToNumber (hipRatio ratios) * scale in
      let sWidth := ToNumber (shoulderRatio ratios) * scale in
      let cWidth := ToNumber (chestRatio ratios) * scale in
      let waistCircum := calcCircumference 0.7 wWidth in
      let hipCircum := calcCircumference 0.7 hWidth in
      let bmi := F64.Number (F64.toFixed (weight / Math_pow2 (height / 100)) 1) in
      let whr := F64.Number (F64.toFixed (waistCircum / hipCircum) 2) in
      let whtr := F64.Number (F64.toFixed (waistCircum / height) 2) in
      Returns {|
        height := height;
        weight := weight;
        age := None;
        waistWidth := ToNumber (waistRatio ratios) * scale / 100;
        hipWidth := ToNumber (hipRatio ratios) * scale / 100;
        shoulderWidth := ToNumber (shoulderRatio ratios) * scale / 100;
        chestWidth := ToNumber (chestRatio ratios) * scale / 100;
        waistCircumference := waistCircum;
        hipCircumference := hipCircum;
        bmi := bmi;
        whr := whr;
        whtr := whtr
      |}
  end.

(** [try { ... } catch (err) { ... } finally { ... }]: the state after
    [processImage] has run to its end. *)
Definition settle (st : AppState) (r : Result BodyMeasurements) : AppState :=
  match r with
  | Returns m =>
      {| st_step := result; st_height := st_height st; st_weight := st_weight st;
         st_age := st_age st; st_measurements := Some m; st_error := None |}
  | Throws msg =>
      {| st_step := camera; st_height := st_height st; st_weight := st_weight st;
         st_age := st_age st; st_measurements := st_measurements st;
         st_error := Some msg |}
  end.

Definition bind {A B} (r : Result A) (k : A -> Result B) : Result B :=
  match r with
  | Returns a => k a
  | Throws msg => Throws msg
  end.

Definition processImage (st : AppState) (reply : OracleReply) : AppState :=
  settle st (bind (analyzeBodyImage reply)
                  (measure (st_height st) (st_weight st) (st_age st))).

Definition processImage_simple (st : AppState) (reply : OracleReply) : AppState :=
  settle st (bind (analyzeBodyImage reply)
                  (measure_simple (st_height st) (st_weight st))).

End Measure.

(** ** Answers of any shape

    [JSON.parse] returns whatever JSON value the reply text denotes, and
    [processImage] reads it unchecked.  Each ratio is an operand of [*],
    which converts it to a number first: a field that is absent, [null] or
    a number as [ToNumber] does; a field of another kind -- a string, a
    boolean, an array, an object -- through its primitive value, which
    gives some number or, for an object whose [valueOf] and [toString] are
    not callable, throws a TypeError.  Which number the engine makes of a
    string or an array is not modelled: the [x] of [Coerced x] is any
    number, and what is proved of it holds whatever the conversion
    gives. *)
Inductive Operand : Type :=
| Plain (v : JSValue)
| Coerced (x : float)              (* another kind, which converts to [x] *)
| Unconvertible.                   (* another kind, whose conversion throws *)

(** The message of that TypeError. *)
Definition TypeError_primitive : string :=
  "Cannot convert object to primitive value".

Definition convert (v : Operand) : Result float :=
  match v with
  | Plain v => Returns (ToNumber v)
  | Coerced x => Returns x
  | Unconvertible => Throws TypeError_primitive
  end.

(** The parsed answer, by what [processImage] reads of it: the member
    [measurements] and, of that, the four ratios it multiplies
    ([torsoHeightRatio] and [confidence] are never read).  An answer that
    is itself a number, a string, a boolean or an array has no member
    [measurements]; a [measurements] of one of these kinds has none of the
    four members, each of them is absent. *)
Inductive Parsed : Type :=
| ParsedNull                       (* the reply text is [null] *)
| MeasurementsAbsent
| MeasurementsNull
| Measured (waistRatio hipRatio shoulderRatio chestRatio : Operand).

(** [const { measurements: ratios } = analysis] when [analysis] is
    [null], and [ratios.waistRatio] when [ratios] is. *)
Definition TypeError_destructure : string :=
  "Cannot destructure property 'measurements' of 'analysis' as it is null.".

Definition TypeError_null : string :=
  "Cannot read properties of null (reading 'waistRatio')".

Section MeasureAny.

Open Scope float_scope.

(** The body of the [try] block of the age-aware variant on such an
    answer.  The ratios are converted where they are first multiplied:
    waist and hip for the two widths, shoulder and chest in the object
    literal. *)
Definition measure_any (height weight age : float) (analysis : Parsed)
  : Result BodyMeasurements :=
  match analysis with
  | ParsedNull => Throws TypeError_destructure
  | MeasurementsAbsent => Throws TypeError_message
  | MeasurementsNull => Throws TypeError_null
  | Measured waistRatio hipRatio shoulderRatio chestRatio =>
      let scale := height in
      bind (convert waistRatio) (fun waist =>
      let wWidth := waist * scale in
      bind (convert hipRatio) (fun hip =>
      let hWidth := hip * scale in
      let depthFactor := depthFactor age in
      let waistCircum := calcCircumference depthFactor wWidth in
      let hipCircum := calcCircumference depthFactor hWidth in
      let bmi := F64.Number (F64.toFixed (weight / Math_pow2 (height / 100)) 1) in
      let whr := F64.Number (F64.toFixed (waistCircum / hipCircum) 2) in
      let whtr := F64.Number (F64.toFixed (waistCircum / height) 2) in
      bind (convert shoulderRatio) (fun shoulder =>
      bind (convert chestRatio) (fun chest =>
      Returns {|
        height := height;
        weight := weight;
        age := Some age;
        waistWidth := waist * scale / 100;
        hipWidth := hip * scale / 100;
        shoulderWidth := shoulder * scale / 100;
        chestWidth := chest * scale / 100;
        waistCircumference := waistCircum;
        hipCircumference := hipCircum;
        bmi := bmi;
        whr := whr;
        whtr := whtr
      |}))))
  end.

(** The same in the simple variant, which multiplies the four ratios
    before anything else. *)
Definition measure_simple_any (height weight : float) (analysis : Parsed)
  : Result BodyMeasurements :=
  match analysis with
  | ParsedNull => Throws TypeError_destructure
  | MeasurementsAbsent => Throws TypeError_message
  | MeasurementsNull => Throws TypeError_null
  | Measured waistRatio hipRatio shoulderRatio chestRatio =>
      let scale := height in
      bind (convert waistRatio) (fun waist =>
      let wWidth := waist * scale in
      bind (convert hipRatio) (fun hip =>
      let hWidth := hip * scale in
      bind (convert shoulderRatio) (fun shoulder =>
      bind (convert chestRatio) (fun chest =>
      let waistCircum := calcCircumference 0.7 wWidth in
      let hipCircum := calcCircumference 0.7 hWidth in
      let bmi := F64.Number (F64.toFixed (weight / Math_pow2 (height / 100)) 1) in
      let whr := F64.Number (F64.toFixed (waistCircum / hipCircum) 2) in
      let whtr := F64.Number (F64.toFixed (waistCircum / height) 2) in
      Returns {|
        height := height;
        weight := weight;
        age := None;
        waistWidth := waist * scale / 100;
        hipWidth := hip * scale / 100;
        shoulderWidth := shoulder * scale / 100;
        chestWidth := chest * scale / 100;
        waistCircumference := waistCircum;
        hipCircumference := hipCircum;
        bmi := bmi;
        whr := whr;
        whtr := whtr
      |}))))
  end.

(** [processImage] once the request has gone through and [JSON.parse] has
    returned [analysis]. *)
Definition processImage_parsed (st : AppState) (analysis : Parsed) : AppState :=
  settle st (measure_any (st_height st) (st_weight st) (st_age st) analysis).

Definition processImage_simple_parsed (st : AppState) (analysis : Parsed) : AppState :=
  settle st (measure_simple_any (st_height st) (st_weight st) analysis).

(** An [AnalysisResponse] among the answers of any shape. *)
Definition parsed_of (analysis : AnalysisResponse) : Parsed :=
  match measurements analysis with
  | None => MeasurementsAbsent
  | Some ratios =>
      Measured (Plain (waistRatio ratios)) (Plain (hipRatio ratios))
               (Plain (shoulderRatio ratios)) (Plain (chestRatio ratios))
  end.

End MeasureAny.

(** ** Classification ([getBMIStatus], [getWHRStatus], [getWHtRStatus]) *)

Definition getBMIStatus (val : float) : string :=
  if (val <? 18.5)%float then "BAJO PESO"
  else if (val <? 25)%float then "NORMAL"
  else if (val <? 30)%float then "SOBREPESO"
  else "OBESIDAD".

Definition getWHRStatus (val : float) : string :=
  if (val <=? 0.85)%float then "BAJO RIESGO"
  else if (val <=? 0.95)%float then "RIESGO MEDIO"
  else "RIESGO ALTO".

Definition getWHtRStatus (val : float) : string :=
  if (val <=? 0.5)%float then "SALUDABLE"
  else "RIESGO ELEVADO".

(** ** The handlers of the application ([App.tsx])

    [processImage] is an [async] function: it runs up to its [await], and
    goes on when the oracle has answered.  In between the user may act.
    The component state is therefore kept together with the work that is
    in flight, and every handler is one event. *)

(** [s.split(',')]: the fields of [s] between its commas. *)
Fixpoint split_comma (s : string) : list string :=
  match s with
  | EmptyString => [EmptyString]
  | String c rest =>
      if Ascii.eqb c ","%char then EmptyString :: split_comma rest
      else match split_comma rest with
           | field :: fields => String c field :: fields
           | [] => [String c EmptyString]
           end
  end.

(** [const imageData = base64.split(',')[1];] -- [undefined] when the text
    has no comma. *)
Definition imageData (base64 : string) : option string :=
  nth_error (split_comma base64) 1.

(** What a [processImage] closure reads: the [height], [weight] and [age]
    of the render whose upload handler started it. *)
Record Closure : Type := {
  c_height : float;
  c_weight : float;
  c_age : float
}.

(** A call of [analyzeBodyImage] that has not settled. *)
Record Request : Type := {
  req_closure : Closure;
  req_image : option string
}.

(** The component state together with the work in flight. *)
Record Runtime : Type := {
  view : AppState;
  photo : option string;
  isProcessing : bool;
  readers : list Closure;        (* [FileReader]s that have not ended *)
  requests : list Request        (* analyses awaiting the oracle *)
}.

Inductive Event : Type :=
| Click_Comenzar                                  (* [handleStart] *)
| Change_height (value : float)                   (* [setHeight(Number(e.target.value))] *)
| Change_weight (value : float)
| Change_age (value : float)
| Submit_form                                     (* [handleInputSubmit] *)
| Change_file (file : bool)                       (* [handleFileUpload]; [false]: no file *)
| Reader_loadend (k : nat) (text : option string) (* [reader.onloadend] *)
| Oracle_settles (k : nat) (reply : OracleReply)  (* the awaited call settles *)
| Click_Reiniciar                                 (* [reset] *)
| Click_Nuevo_Escaneo.                            (* [setStep('input')] *)

Definition Step_eqb (a b : Step) : bool :=
  match a, b with
  | welcome, welcome | input, input | camera, camera
  | processing, processing | result, result => true
  | _, _ => false
  end.

Definition setStep (s : Step) (v : AppState) : AppState :=
  {| st_step := s; st_height := st_height v; st_weight := st_weight v;
     st_age := st_age v; st_measurements := st_measurements v;
     st_error := st_error v |}.

Definition setError (e : option string) (v : AppState) : AppState :=
  {| st_step := st_step v; st_height := st_height v; st_weight := st_weight v;
     st_age := st_age v; st_measurements := st_measurements v;
     st_error := e |}.

Definition setMeasurements (m : option BodyMeasurements) (v : AppState) : AppState :=
  {| st_step := st_step v; st_height := st_height v; st_weight := st_weight v;
     st_age := st_age v; st_measurements := m;
     st_error := st_error v |}.

Definition setHeight (x : float) (v : AppState) : AppState :=
  {| st_step := st_step v; st_height := x; st_weight := st_weight v;
     st_age := st_age v; st_measurements := st_measurements v;
     st_error := st_error v |}.

Definition setWeight (x : float) (v : AppState) : AppState :=
  {| st_step := st_step v; st_height := st_height v; st_weight := x;
     st_age := st_age v; st_measurements := st_measurements v;
     st_error := st_error v |}.

Definition setAge (x : float) (v : AppState) : AppState :=
  {| st_step := st_step v; st_height := st_height v; st_weight := st_weight v;
     st_age := x; st_measurements := st_measurements v;
     st_error := st_error v |}.

(** [null.split(',')]: the reader ended without a result. *)
Definition TypeError_split : string :=
  "Cannot read properties of null (reading 'split')".

(** The list without its [k]-th element. *)
Fixpoint remove_nth {A : Type} (k : nat) (l : list A) : list A :=
  match k, l with
  | _, [] => []
  | O, _ :: tl => tl
  | S k', x :: tl => x :: remove_nth k' tl
  end.

Section Handlers.

(** The measurement block of the variant at hand. *)
Variable engine : Closure -> AnalysisResponse -> Result BodyMeasurements.

(** [processImage] up to its [await]: the three setters, then the [try]
    block as far as the call of [analyzeBodyImage]. *)
Definition processImage_begins (c : Closure) (base64 : option string) (rt : Runtime)
  : Runtime :=
  match base64 with
  | None =>
      {| view := setStep camera (setError (Some TypeError_split) (view rt));
         photo := photo rt; isProcessing := false;
         readers := readers rt; requests := requests rt |}
  | Some text =>
      {| view := setError None (setStep processing (view rt));
         photo := photo rt; isProcessing := true;
         readers := readers rt;
         requests := requests rt
                     ++ [ {| req_closure := c; req_image := imageData text |} ] |}
  end.

(** [processImage] from its [await] on. *)
Definition processImage_ends (c : Closure) (reply : OracleReply) (rt : Runtime)
  : Runtime :=
  match bind (analyzeBodyImage reply) (engine c) with
  | Returns finalMeasurements =>
      {| view := setStep result (setMeasurements (Some finalMeasurements) (view rt));
         photo := photo rt; isProcessing := false;
         readers := readers rt; requests := requests rt |}
  | Throws message =>
      {| view := setStep camera (setError (Some message) (view rt));
         photo := photo rt; isProcessing := false;
         readers := readers rt; requests := requests rt |}
  end.

(** One event; [None] when the element it comes from is not on screen, or
    the work it ends is not in flight.  The button "Reiniciar" is rendered
    when [step !== 'welcome'], "Comenzar Escaneo" in the welcome view, the
    form in the input view, the file input in the camera view, and "Nuevo
    Escaneo" when [step === 'result' && measurements]. *)
Definition handle (rt : Runtime) (ev : Event) : option Runtime :=
  let v := view rt in
  let with_view v' :=
    Some {| view := v'; photo := photo rt; isProcessing := isProcessing rt;
            readers := readers rt; requests := requests rt |} in
  match ev with
  | Click_Comenzar =>
      if Step_eqb (st_step v) welcome then with_view (setStep input v) else None
  | Change_height x =>
      if Step_eqb (st_step v) input then with_view (setHeight x v) else None
  | Change_weight x =>
      if Step_eqb (st_step v) input then with_view (setWeight x v) else None
  | Change_age x =>
      if Step_eqb (st_step v) input then with_view (setAge x v) else None
  | Submit_form =>
      if Step_eqb (st_step v) input then with_view (setStep camera v) else None
  | Change_file file =>
      if Step_eqb (st_step v) camera then
        if file then
          Some {| view := v; photo := photo rt; isProcessing := isProcessing rt;
                  readers := readers rt ++ [ {| c_height := st_height v;
                                                c_weight := st_weight v;
                                                c_age := st_age v |} ];
                  requests := requests rt |}
        else Some rt
      else None
  | Reader_loadend k base64 =>
      match nth_error (readers rt) k with
      | None => None
      | Some c =>
          Some (processImage_begins c base64
                  {| view := v; photo := base64; isProcessing := isProcessing rt;
                     readers := remove_nth k (readers rt);
                     requests := requests rt |})
      end
  | Oracle_settles k reply =>
      match nth_error (requests rt) k with
      | None => None
      | Some rq =>
          Some (processImage_ends (req_closure rq) reply
                  {| view := v; photo := photo rt; isProcessing := isProcessing rt;
                     readers := readers rt;
                     requests := remove_nth k (requests rt) |})
      end
  | Click_Reiniciar =>
      if Step_eqb (st_step v) welcome then None
      else
        Some {| view := setStep welcome (setError None (setMeasurements None v));
                photo := None; isProcessing := isProcessing rt;
                readers := readers rt; requests := requests rt |}
  | Click_Nuevo_Escaneo =>
      match st_step v, st_measurements v with
      | result, Some _ => with_view (setStep input v)
      | _, _ => None
      end
  end.

(** A sequence of events, one after the other. *)
Fixpoint run (rt : Runtime) (events : list Event) : option Runtime :=
  match events with
  | [] => Some rt
  | ev :: rest =>
      match handle rt ev with
      | Some rt' => run rt' rest
      | None => None
      end
  end.

End Handlers.

(** The application as mounted: the [useState] defaults, nothing in
    flight. *)
Definition mounted : Runtime :=
  {| view := {| st_step := welcome; st_height := 170; st_weight := 70;
                st_age := 30; st_measurements := None; st_error := None |};
     photo := None; isProcessing := false; readers := []; requests := [] |}.

(** The two variants: the age-aware one reads [height], [weight] and
    [age]; the simple one has no [age] and never reads it. *)
Definition engine_age (c : Closure) : AnalysisResponse -> Result BodyMeasurements :=
  measure (c_height c) (c_weight c) (c_age c).

Definition engine_simple (c : Closure) : AnalysisResponse -> Result BodyMeasurements :=
  measure_simple (c_height c) (c_weight c).

(* ================================================================== *)
(** * 5. The silhouette profile ([components/ModelViewer.tsx]) *)
(* ================================================================== *)

(** [THREE.Vector2]: a profile point, radius [x] at height [y]. *)
Record Vector2 (num : Type) : Type := { vx : num; vy : num }.
Arguments Build_Vector2 {num} vx vy.
Arguments vx {num} v.
Arguments vy {num} v.

Section Profile.

Context {num : Type} `{JSNumber num}.
Open Scope js_scope.

(** The integer loop counter as a number. *)
Definition of_nat (i : nat) : num := js_lit (Z.of_nat i) 0.

(** [THREE.MathUtils.lerp(x, y, t)] is [(1 - t) * x + t * y]. *)
Definition lerp (x y t : num) : num := (js_lit 1 0 - t) * x + t * y.

(** ** 5.1 The simple variant: 20 segments, six height bands *)

(** The head band: [Math.sqrt(1 - Math.pow((headT - 0.5) * 2, 2)) * 0.1 * scaleFactor]. *)
Definition head_radius_v1 (headT scaleFactor : num) : num :=
  Math_sqrt (js_lit 1 0 - Math_pow2 ((headT - js_lit 5 1) * js_lit 2 0))
    * js_lit 1 1 * scaleFactor.

Definition radius_v1 (scaleFactor shoulderWidth chestWidth waistWidth hipWidth t : num) : num :=
  if t <? js_lit 1 1 then js_lit 8 2 * scaleFactor
  else if t <? js_lit 45 2 then
    let legT := (t - js_lit 1 1) / js_lit 35 2 in
    lerp (js_lit 8 2) (hipWidth / js_lit 2 0) legT
  else if t <? js_lit 55 2 then
    let waistT := (t - js_lit 45 2) / js_lit 1 1 in
    lerp (hipWidth / js_lit 2 0) (waistWidth / js_lit 2 0) waistT
  else if t <? js_lit 75 2 then
    let chestT := (t - js_lit 55 2) / js_lit 2 1 in
    lerp (waistWidth / js_lit 2 0) (chestWidth / js_lit 2 0) chestT
  else if t <? js_lit 9 1 then
    let shoulderT := (t - js_lit 75 2) / js_lit 15 2 in
    lerp (shoulderWidth / js_lit 2 0) (js_lit 6 2 * scaleFactor) shoulderT
  else
    let headT := (t - js_lit 9 1) / js_lit 1 1 in
    head_radius_v1 headT scaleFactor.

Definition segments_v1 : nat := 20.

(** The loop [for (let i = 0; i <= segments; i++)]. *)
Definition profile_v1 (userHeight shoulderWidth chestWidth waistWidth hipWidth : num)
  : list (Vector2 num) :=
  let scaleFactor := userHeight / js_lit 100 0 in
  map (fun i =>
         let t := of_nat i / of_nat segments_v1 in
         let y := t * scaleFactor in
         let x := radius_v1 scaleFactor shoulderWidth chestWidth waistWidth hipWidth t in
         Build_Vector2 x y)
      (seq 0 (S segments_v1)).

(** ** 5.2 The refined variant: landmarks, density 40 *)

Record Landmark : Type := { lm_t : num; lm_r : num }.

Definition landmarks (scaleFactor shoulderWidth chestWidth waistWidth hipWidth : num)
  : list Landmark :=
  [ {| lm_t := js_lit 0 2;  lm_r := js_lit 0 2 |};
    {| lm_t := js_lit 10 2; lm_r := hipWidth * js_lit 4 1 |};
    {| lm_t := js_lit 35 2; lm_r := hipWidth * js_lit 45 2 |};
    {| lm_t := js_lit 45 2; lm_r := hipWidth * js_lit 5 1 |};
    {| lm_t := js_lit 58 2; lm_r := waistWidth * js_lit 5 1 |};
    {| lm_t := js_lit 72 2; lm_r := chestWidth * js_lit 5 1 |};
    {| lm_t := js_lit 80 2; lm_r := shoulderWidth * js_lit 5 1 |};
    {| lm_t := js_lit 83 2; lm_r := js_lit 45 3 * scaleFactor |};
    {| lm_t := js_lit 86 2; lm_r := js_lit 40 3 * scaleFactor |} ].

(** The inner loop over [j]: the first bracketing pair of landmarks
    decides, and [r] stays 0 when there is none. *)
Fixpoint find_segment (lms : list Landmark) (currentT : num) : num :=
  match lms with
  | l0 :: ((l1 :: _) as rest) =>
      if (currentT >=? lm_t l0) && (currentT <=? lm_t l1) then
        let localT := (currentT - lm_t l0) / (lm_t l1 - lm_t l0) in
        lerp (lm_r l0) (lm_r l1) localT
      else find_segment rest currentT
  | _ => js_lit 0 0
  end.

(** The head: clamp, square root, and the NaN fallback. *)
Definition head_radius_v2 (headT scaleFactor : num) : num :=
  let headRadius := js_lit 8 2 * scaleFactor in
  let r := Math_sqrt (Math_max (js_lit 0 0)
               (js_lit 1 0 - Math_pow2 (headT * js_lit 2 0 - js_lit 1 0)))
           * headRadius in
  if isNaN r then js_lit 5 3 else r.

Definition radius_v2 (scaleFactor shoulderWidth chestWidth waistWidth hipWidth currentT : num)
  : num :=
  let r := find_segment
             (landmarks scaleFactor shoulderWidth chestWidth waistWidth hipWidth)
             currentT in
  if currentT >? js_lit 86 2 then
    let headT := (currentT - js_lit 86 2) / (js_lit 10 1 - js_lit 86 2) in
    head_radius_v2 headT scaleFactor
  else r.

Definition density : nat := 40.

Definition profile_v2 (userHeight shoulderWidth chestWidth waistWidth hipWidth : num)
  : list (Vector2 num) :=
  let scaleFactor := userHeight / js_lit 100 0 in
  map (fun i =>
         let currentT := of_nat i / of_nat density in
         let r := radius_v2 scaleFactor shoulderWidth chestWidth waistWidth hipWidth
                    currentT in
         Build_Vector2 r (currentT * scaleFactor))
      (seq 0 (S density)).

End Profile.

(** The profiles of a measurement record. *)
Definition points_v1 (m : BodyMeasurements) : list (Vector2 float) :=
  profile_v1 (height m) (shoulderWidth m) (chestWidth m) (waistWidth m) (hipWidth m).

Definition points_v2 (m : BodyMeasurements) : list (Vector2 float) :=
  profile_v2 (height m) (shoulderWidth m) (chestWidth m) (waistWidth m) (hipWidth m).

(* ================================================================== *)
(** * 6. The scene and its OBJ export (refined [ModelViewer.tsx]) *)
(* ================================================================== *)

(** The objects the effect adds to [modelGroup], by the constructor calls
    that make them. *)
Inductive Object3D : Type :=
| Mesh (points : list (Vector2 float)) (segments : nat)
    (* [new THREE.Mesh(new THREE.LatheGeometry(points, segments), material)],
       the geometry scaled by (1, 1, 0.7) *)
| Line (yPos rx rz : float) (divisions : nat)
    (* a tape: [new THREE.Line] over [EllipseCurve(0, 0, rx, rz, ...).getPoints(divisions)] *)
| GridHelper (size divisions : nat).

Record Group : Type := {
  children : list Object3D;
  position_y : float
}.

Section Scene.

Open Scope float_scope.

Definition createTape (yPos rx rz : float) : Object3D := Line yPos rx rz 64.

(** The second effect: the group is emptied and rebuilt from the record. *)
Definition build_model (m : BodyMeasurements) : Group :=
  let scaleFactor := height m / 100 in
  let mesh := Mesh (points_v2 m) 48 in
  {| children :=
       [ mesh;
         createTape (0.72 * scaleFactor) (chestWidth m / 2 + 0.005)
                    ((chestWidth m / 2) * 0.7 + 0.005);
         createTape (0.58 * scaleFactor) (waistWidth m / 2 + 0.005)
                    ((waistWidth m / 2) * 0.7 + 0.005);
         createTape (0.45 * scaleFactor) (hipWidth m / 2 + 0.005)
                    ((hipWidth m / 2) * 0.7 + 0.005);
         GridHelper 6 30 ];
     position_y := - 0.45 * scaleFactor |}.

End Scene.

(** ** The scene of the simple variant ([components/ModelViewer.tsx]) *)

Section SceneV1.

Open Scope float_scope.

(** [createTape] of the simple variant: 50 divisions. *)
Definition createTape_v1 (yPos radiusX radiusZ : float) : Object3D :=
  Line yPos radiusX radiusZ 50.

(** Its second effect: the body mesh and the waist and hip tapes; no
    grid. *)
Definition build_model_v1 (m : BodyMeasurements) : Group :=
  let scaleFactor := height m / 100 in
  let bodyMesh := Mesh (points_v1 m) 32 in
  {| children :=
       [ bodyMesh;
         createTape_v1 (0.5 * scaleFactor) (waistWidth m / 2 + 0.01)
                       ((waistWidth m / 2) * 0.7 + 0.01);
         createTape_v1 (0.4 * scaleFactor) (hipWidth m / 2 + 0.01)
                       ((hipWidth m / 2) * 0.7 + 0.01) ];
     position_y := - scaleFactor / 2 |}.

End SceneV1.

(** ** [OBJExporter] (three.js)

    [parse(object)] visits the object and all its descendants and writes,
    for every mesh, its vertices ([v] lines) and faces ([f] lines), and for
    every line object -- a [GridHelper] is one -- its vertices.  The text is
    kept as the list of the object blocks written, each with the object it
    was written from and the number of its [v] and [f] lines. *)

Definition is_body_mesh (o : Object3D) : bool :=
  match o with Mesh _ _ => true | _ => false end.

(** Vertices of the geometry: a lathe has [(segments + 1) * |points|], a
    curve sampled with [getPoints(d)] has [d + 1], a grid of [d] divisions
    has two segments for each of its [d + 1] lines a side. *)
Definition vertex_count (o : Object3D) : nat :=
  match o with
  | Mesh points segments => (segments + 1) * List.length points
  | Line _ _ _ divisions => divisions + 1
  | GridHelper _ divisions => 4 * (divisions + 1)
  end.

(** Triangles of the geometry: two for each cell of the lathe. *)
Definition face_count (o : Object3D) : nat :=
  match o with
  | Mesh points segments => 2 * segments * (List.length points - 1)
  | _ => 0
  end.

Record OBJBlock : Type := {
  written_from : Object3D;
  v_lines : nat;
  f_lines : nat
}.

Definition OBJExporter_parse (g : Group) : list OBJBlock :=
  map (fun o => {| written_from := o;
                   v_lines := vertex_count o;
                   f_lines := face_count o |})
      (children g).

(** The file offered for download: [link.download] and the blob made of
    the exporter's text. *)
Record Download (Text : Type) : Type := {
  download : string;
  blob_type : string;
  blob : Text
}.
Arguments download {Text} d.
Arguments blob_type {Text} d.
Arguments blob {Text} d.

(** [exportToOBJ], for any exporter [parse]: nothing happens before the
    scene exists; then the whole [modelGroup] is handed to the exporter. *)
Definition exportToOBJ {Text : Type} (parse : Group -> Text)
    (sceneRef : option Group) : option (Download Text) :=
  match sceneRef with
  | None => None
  | Some modelGroup =>
      let result := parse modelGroup in
      Some {| download := "Body3DMetric_Scan.obj";
              blob_type := "text/plain";
              blob := result |}
  end.

(* ================================================================== *)
(** * 7. Vocabulary of the properties *)
(* ================================================================== *)

(** ** 7.1 The documented perimeter formula *)

Section Ramanujan.

Context {num : Type} `{JSNumber num}.
Open Scope js_scope.

(** The documented formula, in the words of the specification:
    [a = width/2], [b = width * depthFactor / 2],
    [h = (a-b)^2 / (a+b)^2], [P = pi (a+b) (1 + 3h / (10 + sqrt(4 - 3h)))]. *)
Definition ramanujan_a (width : num) : num := width / js_lit 2 0.
Definition ramanujan_b (depthFactor width : num) : num :=
  width * depthFactor / js_lit 2 0.
Definition ramanujan_h (a b : num) : num :=
  ((a - b) * (a - b)) / ((a + b) * (a + b)).
Definition ramanujan_P (a b : num) : num :=
  let h := ramanujan_h a b in
  Math_PI * (a + b) *
    (js_lit 1 0 + js_lit 3 0 * h / (js_lit 10 0 + Math_sqrt (js_lit 4 0 - js_lit 3 0 * h))).

End Ramanujan.

(** ** 7.2 Inputs used as examples *)

(** A state before analysis: the form's defaults, nothing computed yet. *)
Definition initial_state (h w a : float) : AppState :=
  {| st_step := processing; st_height := h; st_weight := w; st_age := a;
     st_measurements := None; st_error := None |}.

(** A well-formed answer with the five ratios given. *)
Definition answer (waist hip shoulder chest torso conf : JSValue) : AnalysisResponse :=
  {| measurements := Some {| waistRatio := waist; hipRatio := hip;
                             shoulderRatio := shoulder; chestRatio := chest;
                             torsoHeightRatio := torso |};
     confidence := conf |}.

(** A record of an adult of 170 cm. *)
Definition sample_record : BodyMeasurements :=
  {| height := 170; weight := 70; age := Some 30%float;
     waistWidth := 0.34; hipWidth := 0.374; shoulderWidth := 0.425;
     chestWidth := 0.34; waistCircumference := 94; hipCircumference := 103;
     bmi := 24.2; whr := 0.91; whtr := 0.55 |}.

(** ** 7.3 Outcomes of an analysis *)

(** The analysis went through and stored a record whose widths are the
    ratios of the answer, unchecked, times the height over 100. *)
Definition stores_unvalidated (st : AppState) (ratios : Ratios) (st' : AppState) : Prop :=
  st_step st' = result /\ st_error st' = None /\
  exists m, st_measurements st' = Some m /\
    waistWidth m = (ToNumber (waistRatio ratios) * st_height st / 100)%float /\
    hipWidth m = (ToNumber (hipRatio ratios) * st_height st / 100)%float /\
    shoulderWidth m = (ToNumber (shoulderRatio ratios) * st_height st / 100)%float /\
    chestWidth m = (ToNumber (chestRatio ratios) * st_height st / 100)%float.

(** The analysis failed: a message is set, the view is back at the camera
    and the record held before is untouched. *)
Definition fails_keeping (st st' : AppState) : Prop :=
  st_step st' = camera /\ st_error st' <> None /\
  st_measurements st' = st_measurements st.

(** The analysis went through and stored a record whose widths are the
    four given numbers times the height over 100. *)
Definition stores_widths (st : AppState) (waist hip shoulder chest : float)
    (st' : AppState) : Prop :=
  st_step st' = result /\ st_error st' = None /\
  exists m, st_measurements st' = Some m /\
    waistWidth m = (waist * st_height st / 100)%float /\
    hipWidth m = (hip * st_height st / 100)%float /\
    shoulderWidth m = (shoulder * st_height st / 100)%float /\
    chestWidth m = (chest * st_height st / 100)%float.

(** The four ratios convert to the four given numbers. *)
Definition converts_to (waistRatio hipRatio shoulderRatio chestRatio : Operand)
    (waist hip shoulder chest : float) : Prop :=
  convert waistRatio = Returns waist /\ convert hipRatio = Returns hip /\
  convert shoulderRatio = Returns shoulder /\ convert chestRatio = Returns chest.

(** The conversion of one of the four ratios throws. *)
Definition one_throws (waistRatio hipRatio shoulderRatio chestRatio : Operand) : Prop :=
  In Unconvertible [waistRatio; hipRatio; shoulderRatio; chestRatio].

(** The analysis went through and stored a record whose indices are the
    plain quotients, through [toFixed] and [Number]. *)
Definition stores_indices (st st' : AppState) : Prop :=
  st_step st' = result /\ st_error st' = None /\
  exists m, st_measurements st' = Some m /\
    height m = st_height st /\
    whr m = F64.Number
              (F64.toFixed (waistCircumference m / hipCircumference m)%float 2) /\
    whtr m = F64.Number
               (F64.toFixed (waistCircumference m / height m)%float 2) /\
    bmi m = F64.Number
              (F64.toFixed (st_weight st / Math_pow2 (st_height st / 100))%float 1).

(** At 170 cm the given weight yields the given [bmi] and label, in both
    variants and whatever age and ratios come with it. *)
Definition bmi_at_170 (weight expected : float) (label : string) : Prop :=
  forall age ratios conf,
    let analysis := {| measurements := Some ratios; confidence := conf |} in
    exists m m',
      measure 170 weight age analysis = Returns m /\
      measure_simple 170 weight analysis = Returns m' /\
      bmi m = expected /\ bmi m' = expected /\
      getBMIStatus (bmi m) = label /\ getBMIStatus (bmi m') = label.

(** ** 7.4 The export and the profile *)

(** The kind, vertex lines and face lines of each block of an export. *)
Definition block_summary (b : OBJBlock) : bool * nat * nat :=
  (is_body_mesh (written_from b), v_lines b, f_lines b).

(** Each element is related to the next one. *)
Fixpoint non_decreasing {A : Type} (le : A -> A -> Prop) (l : list A) : Prop :=
  match l with
  | x :: ((y :: _) as tl) => le x y /\ non_decreasing le tl
  | _ => True
  end.

Section ProfileVocabulary.

Open Scope float_scope.

(** The radius is a zero, or the fallback of the refined variant. *)
Definition well_defined_radius (r : float) : Prop :=
  is_nan r = false /\ ((r =? 0) = true \/ r = 0.005).

(** The sample fractions [i / n] of a loop of [n] segments. *)
Definition fraction (n i : nat) : float := (of_nat i / of_nat n)%js.

(** They are finite, non-negative and rising. *)
Definition fractions_rise (n : nat) : bool :=
  forallb (fun i => (0 <=? fraction n i) && (fraction n i <=? fraction n (S i))
                    && is_finite (fraction n (S i)))
          (seq 0 n).

(** The heights of a list of points rise from 0 to [top]. *)
Definition rises_to (top : float) (ys : list float) : Prop :=
  non_decreasing (fun a b => (a <=? b) = true) ys /\
  (hd 0 ys =? 0) = true /\
  last ys 0 = top.

End ProfileVocabulary.

(** ** 7.5 Rounding, read as arithmetic on integers

    The quantities that [binary_round_aux] of [SpecFloat] computes when it
    rounds an exact product or quotient to binary64. *)

Section RoundingVocabulary.

Open Scope Z_scope.

(** The mantissa [M] shifted right by [k] bits and rounded to nearest,
    ties to even. *)
Definition RN (M k : Z) : Z :=
  let q := M / 2 ^ k in
  let rho := M mod 2 ^ k in
  if (2 ^ k <? 2 * rho) || ((2 * rho =? 2 ^ k) && Z.odd q) then q + 1 else q.

(** The exponent of the last place of a number of magnitude [e]:
    [fexp] at precision 53 and [emax] 1024. *)
Definition fexp64 (e : Z) : Z := Z.max (e - 53) (-1074).

(** The second normalisation and the overflow test. *)
Definition finish (s : bool) (rn e : Z) : spec_float :=
  let '(mrs'', e'') := shr_fexp prec emax rn e loc_Exact in
  match shr_m mrs'' with
  | Z0 => S754_zero s
  | Zpos m => if e'' <=? emax - prec then S754_finite s m e'' else S754_infinity s
  | Zneg _ => S754_nan
  end.

(** What a rounded mantissa and its exponent satisfy: at most 53 bits and a
    carry, exactly 53 bits above the subnormal range. *)
Definition rounded_ok (rn e : Z) : Prop :=
  -1074 <= e /\ 0 <= rn <= 2 ^ 53 /\ (-1074 < e -> 2 ^ 52 <= rn).

(** The number a rounded mantissa stands for: a carry moves to the next
    exponent, an exponent above 971 is infinity. *)
Definition rounded_result (s : bool) (rn e : Z) : spec_float :=
  match rn with
  | Zpos m =>
      if rn <? 2 ^ 53 then
        if e <=? 971 then S754_finite s m e else S754_infinity s
      else
        if e + 1 <=? 971 then S754_finite s 4503599627370496 (e + 1)
        else S754_infinity s
  | _ => S754_zero s
  end.

End RoundingVocabulary.

(** ** 7.6 Categories in the order of their severity *)

Definition BMI_rank (label : string) : nat :=
  if String.eqb label "BAJO PESO" then 0
  else if String.eqb label "NORMAL" then 1
  else if String.eqb label "SOBREPESO" then 2
  else 3.

Definition WHR_rank (label : string) : nat :=
  if String.eqb label "BAJO RIESGO" then 0
  else if String.eqb label "RIESGO MEDIO" then 1
  else 2.

Definition WHtR_rank (label : string) : nat :=
  if String.eqb label "SALUDABLE" then 0 else 1.

(** ** 7.7 The place of a number on the number line

    An integer key such that the order of binary64 numbers is the order of
    their keys. *)

Definition order_key (x : spec_float) : Z :=
  match x with
  | S754_zero _ | S754_nan => 0
  | S754_infinity s => if s then - 2 ^ 70 else 2 ^ 70
  | S754_finite s m e =>
      let k := (e + 1075) * 2 ^ 53 + Z.pos m in
      if s then - k else k
  end%Z.

Definition SF_is_nan (x : spec_float) : bool :=
  match x with S754_nan => true | _ => false end.

Definition key (x : float) : Z := order_key (Prim2SF x).

(** ** 7.8 Lengths, records and radii that can be drawn *)

(** A length the code can draw: a finite number that is not negative. *)
Definition drawable (x : float) : Prop :=
  is_finite x = true /\ (0 <=? x)%float = true.

(** A record whose height and four widths are drawable. *)
Definition drawable_record (m : BodyMeasurements) : Prop :=
  drawable (height m) /\ drawable (shoulderWidth m) /\ drawable (chestWidth m) /\
  drawable (waistWidth m) /\ drawable (hipWidth m).

(** A radius the lathe can turn: not NaN and not negative. *)
Definition turnable (p : Vector2 float) : Prop :=
  is_nan (vx p) = false /\ (0 <=? vx p)%float = true.

(** The radius of the [i]-th point of a profile. *)
Definition radius_at (points : list (Vector2 float)) (i : nat) : float :=
  vx (nth i points {| vx := nan; vy := nan |}).

(** A tape the scene can show: its height and its two radii are not
    negative (and so not NaN). *)
Definition tape_is_drawn (o : Object3D) : Prop :=
  match o with
  | Line yPos rx rz _ =>
      (0 <=? yPos)%float = true /\ (0 <=? rx)%float = true /\ (0 <=? rz)%float = true
  | _ => True
  end.

(** A ratio between 0 and 1. *)
Definition unit_ratio (v : JSValue) : Prop :=
  exists r, v = JSNum r /\ (0 <=? r)%float = true /\ (r <=? 1)%float = true.

(** The four width ratios of an answer are between 0 and 1. *)
Definition unit_ratios (ratios : Ratios) : Prop :=
  unit_ratio (waistRatio ratios) /\ unit_ratio (hipRatio ratios) /\
  unit_ratio (shoulderRatio ratios) /\ unit_ratio (chestRatio ratios).

(** ** 7.9 Records with a degenerate waist *)

(** A ratio that yields no width: absent, [null], a zero or NaN. *)
Definition no_width (v : JSValue) : Prop :=
  (ToNumber v =? 0)%float = true \/ is_nan (ToNumber v) = true.

(** The analysis went through, and the record it stored has a waist
    circumference, a [whr] and a [whtr] that are NaN; they are shown in the
    highest category. *)
Definition stores_NaN_waist (st' : AppState) : Prop :=
  st_step st' = result /\ st_error st' = None /\
  exists m, st_measurements st' = Some m /\
    is_nan (waistCircumference m) = true /\
    is_nan (whr m) = true /\ is_nan (whtr m) = true /\
    getWHRStatus (whr m) = "RIESGO ALTO"%string /\
    getWHtRStatus (whtr m) = "RIESGO ELEVADO"%string.

(** The record has equal waist and hip circumferences and a waist-to-hip
    ratio of exactly 1, which is classified as high risk. *)
Definition waist_equals_hip (m : BodyMeasurements) : Prop :=
  hipCircumference m = waistCircumference m /\
  whr m = 1%float /\ getWHRStatus (whr m) = "RIESGO ALTO"%string.

(** ** 7.10 The application at work *)

(** What holds of the application whatever has happened: the result view
    has a record to show, the processing view is up only while an analysis
    is awaited, and so is the processing flag. *)
Definition consistent (rt : Runtime) : Prop :=
  (st_step (view rt) = result -> st_measurements (view rt) <> None) /\
  (st_step (view rt) = processing -> requests rt <> []) /\
  (isProcessing rt = true -> requests rt <> []).

(** The text has no comma. *)
Fixpoint comma_free (s : string) : bool :=
  match s with
  | EmptyString => true
  | String c rest => negb (Ascii.eqb c ","%char) && comma_free rest
  end.

(** An upload with nothing else in flight: the file is chosen and read,
    and the oracle answers. *)
Definition upload (text : option string) (reply : OracleReply) : list Event :=
  [ Change_file true; Reader_loadend 0 text; Oracle_settles 0 reply ].

(** The app at rest with the given view and photo. *)
Definition at_rest (v : AppState) (ph : option string) : Runtime :=
  {| view := v; photo := ph; isProcessing := false; readers := []; requests := [] |}.

(** The user abandons the scan and types another height while the
    analysis [k] is still awaited; then the oracle answers. *)
Definition abandon_then_answer (x : float) (k : nat) (reply : OracleReply) : list Event :=
  [ Click_Reiniciar; Click_Comenzar; Change_height x; Oracle_settles k reply ].

(** An app with one analysis in flight, started at the given values. *)
Definition awaiting (h w a : float) (image : option string) : Runtime :=
  {| view := {| st_step := processing; st_height := h; st_weight := w; st_age := a;
                st_measurements := None; st_error := None |};
     photo := image; isProcessing := true; readers := [];
     requests := [ {| req_closure := {| c_height := h; c_weight := w; c_age := a |};
                      req_image := image |} ] |}.

(** A whole scan from the welcome view. *)
Definition a_scan (text : option string) (reply : OracleReply) : list Event :=
  [ Click_Comenzar; Submit_form; Change_file true; Reader_loadend 0 text;
    Oracle_settles 0 reply ].

(** ** 7.11 The age step

    What holds of the circumferences [c40] and [c60] that the ages of 40
    and 60 give to a width between 1 and 10^6: the second is not smaller,
    and it is larger when the width is at least 23. *)
Definition age_step_at (width c40 c60 : float) : Prop :=
  (1 <=? width)%float = true -> (width <=? 1000000)%float = true ->
  (c40 <=? c60)%float = true /\
  ((23 <=? width)%float = true -> (c40 <? c60)%float = true).

(** ** 7.12 The real number a binary64 number stands for

    The vocabulary of the error analysis of [calcCircumference]: the value
    of a positive binary64 number, the relative error of one rounding, and
    intervals that scale with a power of the width. *)

Section ValueVocabulary.

Open Scope R_scope.

Definition pow2 (e : Z) : R := powerRZ 2 e.

(** [x] is a positive finite number, of mantissa [m] and exponent [e];
    the real number it stands for is [v]. *)
Definition represents (x : float) (v : R) : Prop :=
  exists m e, Prim2SF x = S754_finite false m e /\ v = IZR (Z.pos m) * pow2 e.

(** One rounding moves a number by at most this fraction of itself. *)
Definition eps : R := pow2 (-52).

(** Far from overflow and from the subnormal numbers. *)
Definition in_range (t : R) : Prop := pow2 (-1000) <= t <= pow2 1000.

(** [v] is [t] after one rounding. *)
Definition near (t v : R) : Prop := (1 - eps) * t <= v <= (1 + eps) * t.

(** A decimal bound of [eps], and the decimal bounds of [in_range] that
    the intervals below are checked against. *)
Definition delta : R := / 10 ^ 15.
Definition tiny : R := / 10 ^ 20.
Definition huge : R := 10 ^ 20.

(** [x] is a positive number whose value, divided by the [k]-th power of
    [c], lies between [l] and [h]. *)
Definition scaled (c : R) (x : float) (k : nat) (l h : R) : Prop :=
  exists v, represents x v /\ l * c ^ k <= v <= h * c ^ k.

End ValueVocabulary.

(* ================================================================== *)
(** * 8. Lemmas and theorems *)
(* ================================================================== *)

(** ** 8.1 Facts about binary64 arithmetic

    Read off the specification of the primitive operations
    ([FloatAxioms]) and the reference implementation in [SpecFloat]. *)

Section Binary64.

Open Scope float_scope.

Lemma SFcompare_refl_finite s m e :
  SFcompare (S754_finite s m e) (S754_finite s m e) = Some Eq.
Proof.
  unfold SFcompare. rewrite Z.compare_refl, Pos.compare_cont_refl.
  destruct s; reflexivity.
Qed.

Lemma is_nan_spec x :
  is_nan x = match Prim2SF x with S754_nan => true | _ => false end.
Proof.
  unfold is_nan. rewrite FloatAxioms.eqb_spec. unfold SFeqb.
  destruct (Prim2SF x) as [s | s | | s m e].
  - reflexivity.
  - destruct s; reflexivity.
  - reflexivity.
  - rewrite SFcompare_refl_finite. reflexivity.
Qed.

Lemma is_infinity_spec x :
  is_infinity x = match Prim2SF x with S754_infinity _ => true | _ => false end.
Proof.
  unfold is_infinity. rewrite FloatAxioms.eqb_spec, abs_spec.
  change (Prim2SF infinity) with (S754_infinity false).
  destruct (Prim2SF x) as [s | s | | s m e]; reflexivity.
Qed.

Lemma is_finite_spec x :
  is_finite x = match Prim2SF x with
                | S754_zero _ | S754_finite _ _ _ => true
                | _ => false
                end.
Proof.
  unfold is_finite. rewrite is_nan_spec, is_infinity_spec.
  destruct (Prim2SF x); reflexivity.
Qed.

Lemma is_zero_spec x :
  (x =? 0) = match Prim2SF x with S754_zero _ => true | _ => false end.
Proof.
  rewrite FloatAxioms.eqb_spec. change (Prim2SF 0) with (S754_zero false).
  destruct (Prim2SF x) as [s | s | | s m e]; try reflexivity.
  - destruct s; reflexivity.
  - destruct s; reflexivity.
Qed.

Lemma zero_mul_spec y :
  Prim2SF (0 * y) = match Prim2SF y with
                    | S754_zero s | S754_finite s _ _ => S754_zero s
                    | _ => S754_nan
                    end.
Proof.
  rewrite mul_spec. change (Prim2SF 0) with (S754_zero false).
  destruct (Prim2SF y) as [s | s | | s m e]; try reflexivity; destruct s; reflexivity.
Qed.

Lemma zero_mul_finite y :
  is_finite y = true -> is_nan (0 * y) = false /\ (0 * y =? 0) = true.
Proof.
  rewrite is_finite_spec, is_nan_spec, is_zero_spec, zero_mul_spec.
  destruct (Prim2SF y); intros Hy; try discriminate Hy; split; reflexivity.
Qed.

Lemma zero_mul_not_nan y :
  is_nan (0 * y) = false -> (0 * y =? 0) = true.
Proof.
  rewrite is_nan_spec, is_zero_spec, zero_mul_spec.
  destruct (Prim2SF y); intros Hy; try discriminate Hy; reflexivity.
Qed.

Lemma sub_self x : is_finite x = true -> x - x = 0.
Proof.
  rewrite is_finite_spec. intros Hx.
  apply Prim2SF_inj. rewrite sub_spec.
  change (Prim2SF 0) with (S754_zero false).
  destruct (Prim2SF x) as [s | s | | s m e]; try discriminate Hx.
  - destruct s; reflexivity.
  - unfold SF64sub, SFsub. rewrite Z.sub_diag. reflexivity.
Qed.

Lemma zero_div_pos y : (0 <? y) = true -> 0 / y = 0.
Proof.
  rewrite FloatAxioms.ltb_spec. change (Prim2SF 0) with (S754_zero false).
  intros Hy. apply Prim2SF_inj. rewrite div_spec.
  change (Prim2SF 0) with (S754_zero false).
  destruct (Prim2SF y) as [s | s | | s m e]; try discriminate Hy;
    destruct s; try discriminate Hy; reflexivity.
Qed.

(** Multiplication by one is exact: the product mantissa is the mantissa
    followed by 52 zero bits, which the rounding shifts out again. *)

Lemma one_mul x : 1 * x = x.
Proof.
  apply Prim2SF_inj. rewrite mul_spec.
  change (Prim2SF 1) with (S754_finite false 4503599627370496 (-52)).
  pose proof (Prim2SF_valid x) as Hv.
  destruct (Prim2SF x) as [s | s | | s m e]; try reflexivity.
  cbn [SpecFloat.valid_binary] in Hv.
  unfold SF64mul, SFmul. cbn [xorb].
  unfold SpecFloat.bounded, canonical_mantissa in Hv.
  apply andb_prop in Hv. destruct Hv as [Hc He]. apply Z.eqb_eq in Hc.
  unfold binary_round_aux. unfold shr_fexp at 1.
  cbn [Pos.mul Zdigits2 digits2_pos shr_record_of_loc].
  rewrite !Pos2Z.inj_succ.
  match goal with
  | |- context [fexp prec emax ?d] =>
      replace d with (Z.pos (digits2_pos m) + e)%Z by lia
  end.
  rewrite Hc.
  replace (e - (-52 + e))%Z with 52%Z by lia.
  cbn [shr].
  match goal with
  | |- context [SpecFloat.iter_pos shr_1 52 ?r] =>
      change (SpecFloat.iter_pos shr_1 52 r)
        with {| shr_m := Z.pos m; shr_r := false; shr_s := false |}
  end.
  cbn [shr_m loc_of_shr_record round_nearest_even].
  replace (-52 + e + 52)%Z with e by lia.
  unfold shr_fexp. cbn [Zdigits2 shr_record_of_loc].
  rewrite Hc, Z.sub_diag. cbn [shr shr_m]. rewrite He. reflexivity.
Qed.

Lemma SFmul_comm x y : SFmul prec emax x y = SFmul prec emax y x.
Proof.
  destruct x as [sx | sx | | sx mx ex], y as [sy | sy | | sy my ey]; cbn;
    try rewrite (xorb_comm sx sy); try reflexivity.
  rewrite (Pos.mul_comm mx my), (Z.add_comm ex ey). reflexivity.
Qed.

Lemma mul_comm x y : x * y = y * x.
Proof.
  apply Prim2SF_inj. rewrite !mul_spec. apply SFmul_comm.
Qed.

Lemma mul_one x : x * 1 = x.
Proof. rewrite mul_comm. apply one_mul. Qed.

End Binary64.

(** ** 8.2 Rounding of products is monotone

    The product of two binary64 numbers is the exact product of the
    mantissas, shifted right to 53 bits and rounded to nearest, ties to
    even ([binary_round_aux]).  The lemmas below read that code as
    arithmetic on integers and derive that multiplication by a non-negative
    number preserves the order. *)

Section Rounding.

Open Scope Z_scope.

(** *** The shift: [k] steps of [shr_1] divide by [2^k] and record the
    two bits below *)

Lemma shr_1_nonneg m r s :
  0 <= m ->
  shr_1 {| shr_m := m; shr_r := r; shr_s := s |}
  = {| shr_m := m / 2; shr_r := Z.odd m; shr_s := r || s |}.
Proof.
  intros Hm. rewrite <- Z.div2_div.
  destruct m as [| p | p]; [ reflexivity | | lia ].
  destruct p; reflexivity.
Qed.

Lemma iter_pos_nat {A : Type} (f : A -> A) (p : positive) (x : A) :
  SpecFloat.iter_pos f p x = Nat.iter (Pos.to_nat p) f x.
Proof.
  revert x. induction p as [p IH | p IH |]; intros x; cbn [SpecFloat.iter_pos].
  - rewrite !IH. rewrite Pos2Nat.inj_xI.
    replace (S (2 * Pos.to_nat p))%nat with (Pos.to_nat p + (Pos.to_nat p + 1))%nat by lia.
    rewrite !Nat.iter_add. reflexivity.
  - rewrite !IH. rewrite Pos2Nat.inj_xO.
    replace (2 * Pos.to_nat p)%nat with (Pos.to_nat p + Pos.to_nat p)%nat by lia.
    rewrite Nat.iter_add. reflexivity.
  - reflexivity.
Qed.

Lemma mod_double (M h : Z) :
  0 < h -> M mod (2 * h) = h * ((M / h) mod 2) + M mod h.
Proof.
  intros Hh. rewrite (Z.mul_comm 2 h). rewrite Z.rem_mul_r by lia. lia.
Qed.

Lemma iter_shr_1 (M : Z) (k : nat) :
  0 <= M ->
  Nat.iter (S k) shr_1 {| shr_m := M; shr_r := false; shr_s := false |}
  = {| shr_m := M / 2 ^ Z.of_nat (S k);
       shr_r := Z.odd (M / 2 ^ Z.of_nat k);
       shr_s := negb (M mod 2 ^ Z.of_nat k =? 0) |}.
Proof.
  intros HM. induction k as [| k IH].
  - cbn [Nat.iter]. rewrite shr_1_nonneg by exact HM.
    change (2 ^ Z.of_nat 1) with 2. change (2 ^ Z.of_nat 0) with 1.
    rewrite Z.div_1_r, Z.mod_1_r. reflexivity.
  - change (Nat.iter (S (S k)) shr_1 ?x) with (shr_1 (Nat.iter (S k) shr_1 x)).
    rewrite IH.
    assert (Hp : 0 < 2 ^ Z.of_nat k) by (apply Z.pow_pos_nonneg; lia).
    assert (Hp' : 0 < 2 ^ Z.of_nat (S k)) by (apply Z.pow_pos_nonneg; lia).
    rewrite shr_1_nonneg by (apply Z.div_pos; lia).
    f_equal.
    + rewrite Z.div_div by lia.
      replace (Z.of_nat (S (S k))) with (Z.of_nat (S k) + 1) by lia.
      rewrite Z.pow_add_r by lia. reflexivity.
    + replace (Z.of_nat (S k)) with (Z.of_nat k + 1) by lia.
      rewrite Z.pow_add_r by lia. change (2 ^ 1) with 2.
      rewrite (Z.mul_comm (2 ^ Z.of_nat k) 2).
      rewrite mod_double by lia.
      set (h := 2 ^ Z.of_nat k) in *.
      rewrite <- Z.bit0_mod.
      destruct (Z.odd (M / h)) eqn:Ho.
      * rewrite Z.bit0_odd, Ho. cbn [Z.b2z orb].
        pose proof (Z.mod_pos_bound M h Hp).
        symmetry. apply negb_true_iff. apply Z.eqb_neq. lia.
      * rewrite Z.bit0_odd, Ho. cbn [Z.b2z orb].
        rewrite Z.mul_0_r, Z.add_0_l. reflexivity.
Qed.

(** *** Rounding to nearest, ties to even *)

Lemma RN_0 M : RN M 0 = M.
Proof.
  unfold RN. change (2 ^ 0) with 1. rewrite Z.div_1_r, Z.mod_1_r. reflexivity.
Qed.

Lemma round_shr_record (M : Z) (p : positive) :
  0 <= M ->
  let mrs := SpecFloat.iter_pos shr_1 p {| shr_m := M; shr_r := false; shr_s := false |} in
  round_nearest_even (shr_m mrs) (loc_of_shr_record mrs) = RN M (Z.pos p).
Proof.
  intros HM mrs. unfold mrs. clear mrs.
  rewrite iter_pos_nat.
  destruct (Pos2Nat.is_succ p) as [k Hk]. rewrite Hk.
  rewrite iter_shr_1 by exact HM.
  assert (Hpk : Z.pos p = Z.of_nat k + 1) by lia.
  replace (Z.of_nat (S k)) with (Z.pos p) by lia.
  assert (Hp : 0 < 2 ^ Z.of_nat k) by (apply Z.pow_pos_nonneg; lia).
  assert (H2k : 2 ^ Z.pos p = 2 * 2 ^ Z.of_nat k).
  { rewrite Hpk, Z.pow_add_r by lia. change (2 ^ 1) with 2. lia. }
  unfold RN. cbv zeta.
  set (q := M / 2 ^ Z.pos p).
  rewrite H2k.
  rewrite mod_double by lia.
  set (h := 2 ^ Z.of_nat k) in *.
  pose proof (Z.mod_pos_bound M h Hp) as Hsig.
  set (sigma := M mod h) in *.
  rewrite <- Z.bit0_mod, Z.bit0_odd.
  cbn [shr_m loc_of_shr_record].
  destruct (Z.odd (M / h)) eqn:Ho; cbn [Z.b2z].
  - destruct (sigma =? 0) eqn:Es; cbn [negb round_nearest_even].
    + apply Z.eqb_eq in Es. rewrite Es.
      replace (2 * h <? 2 * (h * 1 + 0)) with false by (symmetry; apply Z.ltb_ge; lia).
      replace (2 * (h * 1 + 0) =? 2 * h) with true by (symmetry; apply Z.eqb_eq; lia).
      cbn [orb andb]. rewrite <- Z.negb_odd. destruct (Z.odd q); reflexivity.
    + apply Z.eqb_neq in Es.
      replace (2 * h <? 2 * (h * 1 + sigma)) with true by (symmetry; apply Z.ltb_lt; lia).
      reflexivity.
  - replace (2 * h <? 2 * (h * 0 + sigma)) with false by (symmetry; apply Z.ltb_ge; lia).
    replace (2 * (h * 0 + sigma) =? 2 * h) with false by (symmetry; apply Z.eqb_neq; lia).
    destruct (sigma =? 0); reflexivity.
Qed.

(** *** The number of binary digits *)

Lemma digits2_pos_bounds (p : positive) :
  2 ^ (Z.pos (digits2_pos p) - 1) <= Z.pos p < 2 ^ Z.pos (digits2_pos p).
Proof.
  induction p as [p IH | p IH |]; cbn [digits2_pos].
  - rewrite Pos2Z.inj_succ.
    replace (Z.succ (Z.pos (digits2_pos p)) - 1) with (Z.succ (Z.pos (digits2_pos p) - 1)) by lia.
    rewrite !Z.pow_succ_r by lia. lia.
  - rewrite Pos2Z.inj_succ.
    replace (Z.succ (Z.pos (digits2_pos p)) - 1) with (Z.succ (Z.pos (digits2_pos p) - 1)) by lia.
    rewrite !Z.pow_succ_r by lia. lia.
  - change (2 ^ (1 - 1)) with 1. change (2 ^ 1) with 2. lia.
Qed.

Lemma Zdigits2_bounds (M : Z) :
  0 < M -> 2 ^ (Zdigits2 M - 1) <= M < 2 ^ Zdigits2 M.
Proof.
  destruct M as [| p | p]; try lia. intros _. apply digits2_pos_bounds.
Qed.

Lemma Zdigits2_pos (M : Z) : 0 < M -> 0 < Zdigits2 M.
Proof. destruct M; cbn; lia. Qed.

Lemma Zdigits2_unique (M n : Z) :
  2 ^ (n - 1) <= M < 2 ^ n -> 0 < n -> Zdigits2 M = n.
Proof.
  intros [Hlo Hhi] Hn.
  assert (HM : 0 < M).
  { assert (0 < 2 ^ (n - 1)) by (apply Z.pow_pos_nonneg; lia). lia. }
  pose proof (Zdigits2_bounds M HM) as [Dlo Dhi].
  pose proof (Zdigits2_pos M HM) as Dpos.
  destruct (Z.lt_trichotomy (Zdigits2 M) n) as [Hlt | [Heq | Hgt]]; [ | exact Heq | ].
  - assert (2 ^ Zdigits2 M <= 2 ^ (n - 1)) by (apply Z.pow_le_mono_r; lia). lia.
  - assert (2 ^ n <= 2 ^ (Zdigits2 M - 1)) by (apply Z.pow_le_mono_r; lia). lia.
Qed.

Lemma Zdigits2_mono (M N : Z) : 0 < M -> M <= N -> Zdigits2 M <= Zdigits2 N.
Proof.
  intros HM HMN.
  pose proof (Zdigits2_bounds M HM) as [Dlo Dhi].
  pose proof (Zdigits2_bounds N ltac:(lia)) as [Elo Ehi].
  pose proof (Zdigits2_pos M HM). pose proof (Zdigits2_pos N ltac:(lia)).
  destruct (Z_le_gt_dec (Zdigits2 M) (Zdigits2 N)) as [Hle | Hgt]; [ exact Hle | ].
  assert (2 ^ Zdigits2 N <= 2 ^ (Zdigits2 M - 1)) by (apply Z.pow_le_mono_r; lia). lia.
Qed.

Lemma Zdigits2_shift (M j : Z) :
  0 < M -> 0 <= j -> Zdigits2 (M * 2 ^ j) = Zdigits2 M + j.
Proof.
  intros HM Hj.
  pose proof (Zdigits2_bounds M HM) as [Dlo Dhi].
  pose proof (Zdigits2_pos M HM).
  assert (Hp : 0 < 2 ^ j) by (apply Z.pow_pos_nonneg; lia).
  apply Zdigits2_unique; [ | lia ].
  replace (Zdigits2 M + j - 1) with (Zdigits2 M - 1 + j) by lia.
  rewrite !Z.pow_add_r by lia. nia.
Qed.

(** *** The first rounding of an exact product *)

Lemma fexp64_eq e : fexp prec emax e = fexp64 e.
Proof. reflexivity. Qed.

Lemma shr_nonpos mrs e n : n <= 0 -> shr mrs e n = (mrs, e).
Proof. destruct n; [ reflexivity | lia | reflexivity ]. Qed.

Lemma binary_round_aux_exact (s : bool) (M E : Z) :
  0 < M ->
  let k := fexp64 (Zdigits2 M + E) - E in
  0 <= k ->
  binary_round_aux prec emax s M E loc_Exact = finish s (RN M k) (E + k).
Proof.
  intros HM k Hk.
  unfold binary_round_aux, finish.
  unfold shr_fexp at 1. rewrite fexp64_eq. fold k.
  cbn [shr_record_of_loc].
  destruct k as [| p | p] eqn:Ek; [ | | lia ].
  - cbn [shr shr_m loc_of_shr_record round_nearest_even].
    rewrite RN_0, Z.add_0_r. reflexivity.
  - cbn [shr].
    rewrite (round_shr_record M p ltac:(lia)). reflexivity.
Qed.

(** *** The result of [finish] on a rounded mantissa *)

Lemma finish_result (s : bool) (rn e : Z) :
  rounded_ok rn e -> finish s rn e = rounded_result s rn e.
Proof.
  intros (He & [Hrn0 Hrn1] & Hnorm).
  unfold finish, rounded_result, shr_fexp. rewrite fexp64_eq. unfold fexp64.
  destruct rn as [| m | m]; [ | | lia ].
  - cbn [Zdigits2 shr_record_of_loc]. rewrite shr_nonpos by lia. reflexivity.
  - cbn [shr_record_of_loc].
    pose proof (Zdigits2_bounds (Z.pos m) ltac:(lia)) as [Dlo Dhi].
    pose proof (Zdigits2_pos (Z.pos m) ltac:(lia)) as Dpos.
    destruct (Z.pos m <? 2 ^ 53) eqn:Elt.
    + apply Z.ltb_lt in Elt.
      assert (Hd : Zdigits2 (Z.pos m) <= 53).
      { destruct (Z_le_gt_dec (Zdigits2 (Z.pos m)) 53) as [Hle | Hgt]; [ exact Hle | ].
        assert (2 ^ 53 <= 2 ^ (Zdigits2 (Z.pos m) - 1)) by (apply Z.pow_le_mono_r; lia).
        lia. }
      rewrite shr_nonpos by lia. cbn [shr_m]. reflexivity.
    + apply Z.ltb_ge in Elt.
      assert (Hm : Z.pos m = 2 ^ 53) by lia.
      assert (Hd : Zdigits2 (Z.pos m) = 54).
      { apply Zdigits2_unique; [ | lia ]. rewrite Hm. change (54 - 1) with 53.
        split; [ lia | ]. apply Z.pow_lt_mono_r; lia. }
      rewrite Hd.
      replace (Z.max (54 + e - 53) (-1074) - e) with 1 by lia.
      assert (Hm' : m = 9007199254740992%positive).
      { apply Pos2Z.inj. rewrite Hm. reflexivity. }
      subst m. reflexivity.
Qed.

(** *** The order of results *)

Lemma SFleb_finite (m1 m2 : positive) (e1 e2 : Z) :
  e1 < e2 \/ (e1 = e2 /\ Z.pos m1 <= Z.pos m2) ->
  SFleb (S754_finite false m1 e1) (S754_finite false m2 e2) = true.
Proof.
  intros H. unfold SFleb, SFcompare.
  destruct H as [Hlt | [-> Hm]].
  - apply Z.compare_lt_iff in Hlt. rewrite Hlt. reflexivity.
  - rewrite Z.compare_refl. change (Pos.compare_cont Eq m1 m2) with (Pos.compare m1 m2).
    destruct (Pos.compare m1 m2) eqn:Ec; try reflexivity.
    apply Pos.compare_gt_iff in Ec. lia.
Qed.

Lemma result_le (rn1 e1 rn2 e2 : Z) :
  rounded_ok rn1 e1 -> rounded_ok rn2 e2 ->
  e1 <= e2 -> rn1 <= rn2 * 2 ^ (e2 - e1) ->
  SFleb (rounded_result false rn1 e1) (rounded_result false rn2 e2) = true.
Proof.
  intros (He1 & [Ha0 Ha1] & Hn1) (He2 & [Hb0 Hb1] & Hn2) Hee Hle.
  assert (Hpow : 0 < 2 ^ (e2 - e1)) by (apply Z.pow_pos_nonneg; lia).
  assert (Hpow2 : e1 < e2 -> 2 <= 2 ^ (e2 - e1)).
  { intros Hlt. change 2 with (2 ^ 1) at 1. apply Z.pow_le_mono_r; lia. }
  assert (H5253 : 2 ^ 53 = 2 * 2 ^ 52) by reflexivity.
  unfold rounded_result.
  destruct rn1 as [| m1 | m1]; [ | | lia ].
  - destruct rn2 as [| m2 | m2]; [ reflexivity | | lia ].
    destruct (Z.pos m2 <? 2 ^ 53);
      [ destruct (e2 <=? 971) | destruct (e2 + 1 <=? 971) ]; reflexivity.
  - destruct rn2 as [| m2 | m2]; [ lia | | lia ].
    destruct (Z.pos m1 <? 2 ^ 53) eqn:L1; destruct (Z.pos m2 <? 2 ^ 53) eqn:L2;
      try apply Z.ltb_lt in L1; try apply Z.ltb_lt in L2;
      try apply Z.ltb_ge in L1; try apply Z.ltb_ge in L2.
    + destruct (e1 <=? 971) eqn:O1; destruct (e2 <=? 971) eqn:O2;
        try apply Z.leb_le in O1; try apply Z.leb_le in O2;
        try apply Z.leb_gt in O1; try apply Z.leb_gt in O2;
        try reflexivity; try lia.
      apply SFleb_finite.
      destruct (Z.eq_dec e1 e2) as [Heq | Hne]; [ right | left; lia ].
      split; [ exact Heq | ]. subst e2. rewrite Z.sub_diag in Hle.
      change (2 ^ 0) with 1 in Hle. lia.
    + destruct (e1 <=? 971) eqn:O1; destruct (e2 + 1 <=? 971) eqn:O2;
        try apply Z.leb_le in O1; try apply Z.leb_le in O2;
        try apply Z.leb_gt in O1; try apply Z.leb_gt in O2;
        try reflexivity; try lia.
      apply SFleb_finite. left. lia.
    + (* rn1 = 2^53, rn2 < 2^53 : then e1 < e2 *)
      assert (Hlt : e1 < e2).
      { destruct (Z.eq_dec e1 e2) as [Heq | Hne]; [ | lia ].
        subst e2. rewrite Z.sub_diag in Hle. change (2 ^ 0) with 1 in Hle. lia. }
      specialize (Hn2 ltac:(lia)).
      destruct (e1 + 1 <=? 971) eqn:O1; destruct (e2 <=? 971) eqn:O2;
        try apply Z.leb_le in O1; try apply Z.leb_le in O2;
        try apply Z.leb_gt in O1; try apply Z.leb_gt in O2;
        try reflexivity; try lia.
      apply SFleb_finite.
      destruct (Z.eq_dec (e1 + 1) e2) as [Heq | Hne]; [ right | left; lia ].
      split; [ exact Heq | ]. change (Z.pos 4503599627370496) with (2 ^ 52). exact Hn2.
    + destruct (e1 + 1 <=? 971) eqn:O1; destruct (e2 + 1 <=? 971) eqn:O2;
        try apply Z.leb_le in O1; try apply Z.leb_le in O2;
        try apply Z.leb_gt in O1; try apply Z.leb_gt in O2;
        try reflexivity; try lia.
      apply SFleb_finite.
      destruct (Z.eq_dec e1 e2) as [Heq | Hne]; [ right | left; lia ].
      split; [ lia | lia ].
Qed.

(** *** Monotonicity of the rounding *)

Lemma RN_bounds (M k : Z) : M / 2 ^ k <= RN M k <= M / 2 ^ k + 1.
Proof.
  unfold RN. cbv zeta.
  destruct ((2 ^ k <? 2 * (M mod 2 ^ k)) || _); lia.
Qed.

Lemma RN_mono (M1 M2 k : Z) :
  0 <= k -> M1 <= M2 -> RN M1 k <= RN M2 k.
Proof.
  intros Hk HM.
  assert (Hp : 0 < 2 ^ k) by (apply Z.pow_pos_nonneg; lia).
  assert (Hq : M1 / 2 ^ k <= M2 / 2 ^ k) by (apply Z.div_le_mono; lia).
  pose proof (RN_bounds M1 k) as [_ Hu]. pose proof (RN_bounds M2 k) as [Hl _].
  destruct (Z.eq_dec (M1 / 2 ^ k) (M2 / 2 ^ k)) as [Heq | Hne]; [ | lia ].
  pose proof (Z.div_mod M1 (2 ^ k) ltac:(lia)) as D1.
  pose proof (Z.div_mod M2 (2 ^ k) ltac:(lia)) as D2.
  assert (Hrho : M1 mod 2 ^ k <= M2 mod 2 ^ k) by (rewrite Heq in D1; lia).
  unfold RN. cbv zeta. rewrite <- Heq.
  set (q := M1 / 2 ^ k) in *. set (r1 := M1 mod 2 ^ k) in *. set (r2 := M2 mod 2 ^ k) in *.
  destruct (2 ^ k <? 2 * r1) eqn:A1; cbn [orb].
  - apply Z.ltb_lt in A1.
    replace (2 ^ k <? 2 * r2) with true by (symmetry; apply Z.ltb_lt; lia).
    cbn [orb]. lia.
  - destruct (2 * r1 =? 2 ^ k) eqn:B1; cbn [andb].
    + apply Z.eqb_eq in B1.
      destruct (Z.odd q) eqn:Oq.
      * destruct (2 ^ k <? 2 * r2) eqn:A2; cbn [orb]; [ lia | ].
        apply Z.ltb_ge in A2.
        replace (2 * r2 =? 2 ^ k) with true by (symmetry; apply Z.eqb_eq; lia).
        cbn [andb]. lia.
      * destruct ((2 ^ k <? 2 * r2) || (2 * r2 =? 2 ^ k) && false); lia.
    + destruct ((2 ^ k <? 2 * r2) || (2 * r2 =? 2 ^ k) && Z.odd q); lia.
Qed.

Lemma rounded_ok_RN (M E : Z) :
  0 < M ->
  let k := fexp64 (Zdigits2 M + E) - E in
  0 <= k ->
  rounded_ok (RN M k) (E + k).
Proof.
  intros HM k Hk.
  pose proof (Zdigits2_bounds M HM) as [Dlo Dhi].
  pose proof (Zdigits2_pos M HM) as Dpos.
  pose proof (RN_bounds M k) as [Rlo Rhi].
  assert (Hp : 0 < 2 ^ k) by (apply Z.pow_pos_nonneg; lia).
  set (d := Zdigits2 M) in *.
  assert (Hq0 : 0 <= M / 2 ^ k) by (apply Z.div_pos; lia).
  unfold rounded_ok. unfold fexp64 in k.
  split; [ lia | ]. split; [ split; [ lia | ] | ].
  - (* upper bound *)
    destruct (Z_le_gt_dec k d) as [Hkd | Hkd].
    + assert (Hlt : M / 2 ^ k < 2 ^ (d - k)).
      { apply Z.div_lt_upper_bound; [ lia | ].
        rewrite <- Z.pow_add_r by lia. replace (k + (d - k)) with d by lia. lia. }
      assert (2 ^ (d - k) <= 2 ^ 53) by (apply Z.pow_le_mono_r; lia).
      lia.
    + assert (Hz : M / 2 ^ k = 0).
      { apply Z.div_small. split; [ lia | ].
        assert (2 ^ d <= 2 ^ k) by (apply Z.pow_le_mono_r; lia). lia. }
      assert (1 <= 2 ^ 53) by (change 1 with (2 ^ 0); apply Z.pow_le_mono_r; lia).
      lia.
  - intros Hnorm.
    assert (Hk53 : k = d - 53) by lia.
    assert (Hge : 2 ^ 52 <= M / 2 ^ k).
    { apply Z.div_le_lower_bound; [ lia | ].
      rewrite <- Z.pow_add_r by lia. replace (k + 52) with (d - 1) by lia. lia. }
    lia.
Qed.

Lemma RN_value_mono (M1 M2 E : Z) :
  0 < M1 -> M1 <= M2 ->
  let k1 := fexp64 (Zdigits2 M1 + E) - E in
  let k2 := fexp64 (Zdigits2 M2 + E) - E in
  0 <= k1 ->
  k1 <= k2 /\ RN M1 k1 <= RN M2 k2 * 2 ^ (k2 - k1).
Proof.
  intros HM1 HM k1 k2 Hk1.
  pose proof (Zdigits2_mono M1 M2 HM1 HM) as Hd.
  pose proof (Zdigits2_bounds M1 HM1) as [D1lo D1hi].
  pose proof (Zdigits2_bounds M2 ltac:(lia)) as [D2lo D2hi].
  pose proof (Zdigits2_pos M1 HM1) as D1pos.
  set (d1 := Zdigits2 M1) in *. set (d2 := Zdigits2 M2) in *.
  unfold fexp64 in k1, k2.
  assert (Hk12 : k1 <= k2) by lia.
  split; [ exact Hk12 | ].
  destruct (Z.eq_dec k1 k2) as [Heq | Hne].
  - rewrite <- Heq, Z.sub_diag. change (2 ^ 0) with 1. rewrite Z.mul_1_r.
    apply RN_mono; lia.
  - assert (Hlt : k1 < k2) by lia.
    assert (Hk2 : k2 = d2 - 53) by lia.
    assert (Hd12 : d1 < d2) by lia.
    assert (Hp2 : 0 < 2 ^ k2) by (apply Z.pow_pos_nonneg; lia).
    assert (Hp1 : 0 < 2 ^ k1) by (apply Z.pow_pos_nonneg; lia).
    pose proof (RN_bounds M1 k1) as [_ R1hi].
    pose proof (RN_bounds M2 k2) as [R2lo _].
    assert (Hq2 : 2 ^ 52 <= M2 / 2 ^ k2).
    { apply Z.div_le_lower_bound; [ lia | ].
      rewrite <- Z.pow_add_r by lia. replace (k2 + 52) with (d2 - 1) by lia. lia. }
    assert (Hbig : 2 ^ (52 + (k2 - k1)) <= RN M2 k2 * 2 ^ (k2 - k1)).
    { rewrite Z.pow_add_r by lia.
      apply Z.mul_le_mono_nonneg_r; [ apply Z.pow_nonneg; lia | lia ]. }
    assert (Hsmall : RN M1 k1 <= 2 ^ (52 + (k2 - k1))).
    { destruct (Z_le_gt_dec k1 d1) as [Hkd | Hkd].
      - assert (Hq1 : M1 / 2 ^ k1 < 2 ^ (d1 - k1)).
        { apply Z.div_lt_upper_bound; [ lia | ].
          rewrite <- Z.pow_add_r by lia. replace (k1 + (d1 - k1)) with d1 by lia. lia. }
        assert (2 ^ (d1 - k1) <= 2 ^ (52 + (k2 - k1))) by (apply Z.pow_le_mono_r; lia).
        lia.
      - assert (Hz : M1 / 2 ^ k1 = 0).
        { apply Z.div_small. split; [ lia | ].
          assert (2 ^ d1 <= 2 ^ k1) by (apply Z.pow_le_mono_r; lia). lia. }
        assert (1 <= 2 ^ (52 + (k2 - k1)))
          by (change 1 with (2 ^ 0); apply Z.pow_le_mono_r; lia).
        lia. }
    lia.
Qed.

Lemma binary_round_aux_mono (M1 M2 E : Z) :
  0 < M1 -> M1 <= M2 ->
  0 <= fexp64 (Zdigits2 M1 + E) - E ->
  SFleb (binary_round_aux prec emax false M1 E loc_Exact)
        (binary_round_aux prec emax false M2 E loc_Exact) = true.
Proof.
  intros HM1 HM Hk1.
  destruct (RN_value_mono M1 M2 E HM1 HM Hk1) as [Hk12 Hval].
  rewrite (binary_round_aux_exact false M1 E HM1 Hk1).
  rewrite (binary_round_aux_exact false M2 E ltac:(lia) ltac:(lia)).
  rewrite !finish_result by (apply rounded_ok_RN; lia).
  apply result_le.
  - apply rounded_ok_RN; lia.
  - apply rounded_ok_RN; lia.
  - lia.
  - match goal with
    | |- _ <= _ * 2 ^ ?z =>
        replace z with (fexp64 (Zdigits2 M2 + E) - E - (fexp64 (Zdigits2 M1 + E) - E))
          by lia
    end.
    exact Hval.
Qed.

(** *** The same value with a longer mantissa rounds the same *)

Lemma RN_shift (M k j : Z) :
  0 <= k -> 0 <= j -> RN (M * 2 ^ j) (k + j) = RN M k.
Proof.
  intros Hk Hj.
  assert (Hpk : 0 < 2 ^ k) by (apply Z.pow_pos_nonneg; lia).
  assert (Hpj : 0 < 2 ^ j) by (apply Z.pow_pos_nonneg; lia).
  unfold RN. cbv zeta.
  rewrite Z.pow_add_r by lia.
  rewrite Z.div_mul_cancel_r by lia.
  rewrite Z.mul_mod_distr_r by lia.
  set (q := M / 2 ^ k). set (r := M mod 2 ^ k). set (a := 2 ^ k) in *. set (b := 2 ^ j) in *.
  replace (a * b <? 2 * (r * b)) with (a <? 2 * r).
  2:{ destruct (a <? 2 * r) eqn:A; symmetry.
      - apply Z.ltb_lt in A. apply Z.ltb_lt. nia.
      - apply Z.ltb_ge in A. apply Z.ltb_ge. nia. }
  replace (2 * (r * b) =? a * b) with (2 * r =? a).
  2:{ destruct (2 * r =? a) eqn:A; symmetry.
      - apply Z.eqb_eq in A. apply Z.eqb_eq. nia.
      - apply Z.eqb_neq in A. apply Z.eqb_neq. nia. }
  reflexivity.
Qed.

Lemma binary_round_aux_shift (s : bool) (M E j : Z) :
  0 < M -> 0 <= j ->
  0 <= fexp64 (Zdigits2 M + E) - E ->
  binary_round_aux prec emax s (M * 2 ^ j) (E - j) loc_Exact
  = binary_round_aux prec emax s M E loc_Exact.
Proof.
  intros HM Hj Hk.
  assert (Hpj : 0 < 2 ^ j) by (apply Z.pow_pos_nonneg; lia).
  assert (HM' : 0 < M * 2 ^ j) by nia.
  assert (Hd : Zdigits2 (M * 2 ^ j) + (E - j) = Zdigits2 M + E).
  { rewrite Zdigits2_shift by lia. lia. }
  rewrite (binary_round_aux_exact s (M * 2 ^ j) (E - j) HM') by (rewrite Hd; lia).
  rewrite (binary_round_aux_exact s M E HM Hk).
  rewrite Hd.
  replace (fexp64 (Zdigits2 M + E) - (E - j)) with (fexp64 (Zdigits2 M + E) - E + j) by lia.
  rewrite RN_shift by lia.
  f_equal. lia.
Qed.

(** *** Valid binary64 numbers *)

Lemma bounded_facts (m : positive) (e : Z) :
  SpecFloat.bounded prec emax m e = true ->
  -1074 <= e <= 971 /\ Zdigits2 (Z.pos m) <= 53 /\
  (-1074 < e -> Zdigits2 (Z.pos m) = 53).
Proof.
  unfold SpecFloat.bounded, canonical_mantissa. intros Hb.
  apply andb_prop in Hb. destruct Hb as [Hc He].
  apply Z.eqb_eq in Hc. apply Z.leb_le in He.
  rewrite fexp64_eq in Hc. unfold fexp64 in Hc.
  change (emax - prec) with 971 in He.
  cbn [Zdigits2]. lia.
Qed.

Lemma product_shift_nonneg (m1 m2 : positive) (e1 e2 : Z) :
  SpecFloat.bounded prec emax m1 e1 = true ->
  SpecFloat.bounded prec emax m2 e2 = true ->
  0 <= fexp64 (Zdigits2 (Z.pos (m1 * m2)) + (e1 + e2)) - (e1 + e2).
Proof.
  intros H1 H2.
  destruct (bounded_facts m1 e1 H1) as (He1 & Hd1 & Hn1).
  destruct (bounded_facts m2 e2 H2) as (He2 & Hd2 & Hn2).
  pose proof (Zdigits2_bounds (Z.pos m1) ltac:(lia)) as [A1 B1].
  pose proof (Zdigits2_bounds (Z.pos m2) ltac:(lia)) as [A2 B2].
  pose proof (Zdigits2_bounds (Z.pos (m1 * m2)) ltac:(lia)) as [A B].
  pose proof (Zdigits2_pos (Z.pos m1) ltac:(lia)) as P1.
  pose proof (Zdigits2_pos (Z.pos m2) ltac:(lia)) as P2.
  set (d1 := Zdigits2 (Z.pos m1)) in *. set (d2 := Zdigits2 (Z.pos m2)) in *.
  set (D := Zdigits2 (Z.pos (m1 * m2))) in *.
  assert (HD : d1 + d2 - 1 <= D).
  { destruct (Z_le_gt_dec (d1 + d2 - 1) D) as [Hle | Hgt]; [ exact Hle | exfalso ].
    assert (Hpow : 2 ^ D <= 2 ^ (d1 - 1 + (d2 - 1))) by (apply Z.pow_le_mono_r; lia).
    rewrite Z.pow_add_r in Hpow by lia.
    rewrite Pos2Z.inj_mul in B.
    assert (0 < 2 ^ (d1 - 1)) by (apply Z.pow_pos_nonneg; lia).
    assert (0 < 2 ^ (d2 - 1)) by (apply Z.pow_pos_nonneg; lia).
    nia. }
  unfold fexp64. lia.
Qed.

(** The order on valid positive numbers is the order of their values. *)
Lemma SFleb_value (mx my : positive) (ex ey : Z) :
  SpecFloat.bounded prec emax mx ex = true ->
  SpecFloat.bounded prec emax my ey = true ->
  SFleb (S754_finite false mx ex) (S754_finite false my ey) = true ->
  ex <= ey /\ Z.pos mx <= Z.pos my * 2 ^ (ey - ex).
Proof.
  intros Hx Hy Hle.
  destruct (bounded_facts mx ex Hx) as (Hex & Hdx & Hnx).
  destruct (bounded_facts my ey Hy) as (Hey & Hdy & Hny).
  pose proof (Zdigits2_bounds (Z.pos mx) ltac:(lia)) as [Ax Bx].
  pose proof (Zdigits2_bounds (Z.pos my) ltac:(lia)) as [Ay By].
  unfold SFleb, SFcompare in Hle.
  destruct (Z.compare ex ey) eqn:Ec.
  - apply Z.compare_eq in Ec. subst ey. rewrite Z.sub_diag. change (2 ^ 0) with 1.
    split; [ lia | ].
    change (Pos.compare_cont Eq mx my) with (Pos.compare mx my) in Hle.
    destruct (Pos.compare mx my) eqn:Em; try discriminate Hle.
    + apply Pos.compare_eq in Em. subst. lia.
    + assert (Z.pos mx < Z.pos my) by exact Em. lia.
  - assert (Hlt : ex < ey) by exact Ec. split; [ lia | ].
    specialize (Hny ltac:(lia)). rewrite Hny in Ay. change (53 - 1) with 52 in Ay.
    assert (Hx53 : Z.pos mx < 2 ^ 53).
    { assert (2 ^ Zdigits2 (Z.pos mx) <= 2 ^ 53) by (apply Z.pow_le_mono_r; lia). lia. }
    assert (H2 : 2 ^ 1 <= 2 ^ (ey - ex)) by (apply Z.pow_le_mono_r; lia).
    change (2 ^ 1) with 2 in H2. change (2 ^ 53) with (2 ^ 52 * 2) in Hx53.
    nia.
  - discriminate Hle.
Qed.

Lemma SFmul_mono (mx my ms : positive) (ex ey es : Z) :
  SpecFloat.bounded prec emax mx ex = true ->
  SpecFloat.bounded prec emax my ey = true ->
  SpecFloat.bounded prec emax ms es = true ->
  SFleb (S754_finite false mx ex) (S754_finite false my ey) = true ->
  SFleb (SFmul prec emax (S754_finite false mx ex) (S754_finite false ms es))
        (SFmul prec emax (S754_finite false my ey) (S754_finite false ms es)) = true.
Proof.
  intros Hx Hy Hs Hle.
  destruct (SFleb_value mx my ex ey Hx Hy Hle) as [Hee Hval].
  cbn [SFmul xorb].
  pose proof (product_shift_nonneg mx ms ex es Hx Hs) as Kx.
  pose proof (product_shift_nonneg my ms ey es Hy Hs) as Ky.
  rewrite <- (binary_round_aux_shift false (Z.pos (my * ms)) (ey + es) (ey - ex))
    by (try exact Ky; lia).
  replace (ey + es - (ey - ex)) with (ex + es) by lia.
  apply binary_round_aux_mono; [ lia | | exact Kx ].
  rewrite !Pos2Z.inj_mul.
  assert (0 < 2 ^ (ey - ex)) by (apply Z.pow_pos_nonneg; lia).
  nia.
Qed.

(** The product of two non-negative finite numbers is not NaN and not
    negative. *)
Lemma SFmul_nonneg (mx ms : positive) (ex es : Z) :
  SpecFloat.bounded prec emax mx ex = true ->
  SpecFloat.bounded prec emax ms es = true ->
  forall sz,
    SFleb (S754_zero sz)
          (SFmul prec emax (S754_finite false mx ex) (S754_finite false ms es)) = true.
Proof.
  intros Hx Hs sz. cbn [SFmul xorb].
  pose proof (product_shift_nonneg mx ms ex es Hx Hs) as Kx.
  rewrite (binary_round_aux_exact false (Z.pos (mx * ms)) (ex + es) ltac:(lia) Kx).
  rewrite finish_result by (apply rounded_ok_RN; [ lia | exact Kx ]).
  unfold rounded_result.
  destruct (RN _ _) as [| m | m]; try reflexivity.
  destruct (Z.pos m <? 2 ^ 53);
    match goal with |- context [if ?c then _ else _] => destruct c end; reflexivity.
Qed.

(** *** Division: the quotient is rounded without overflow *)

Lemma iter_shr_1_m (k : nat) (mrs : shr_record) :
  0 <= shr_m mrs ->
  shr_m (Nat.iter k shr_1 mrs) = shr_m mrs / 2 ^ Z.of_nat k.
Proof.
  intros Hm. induction k as [| k IH].
  - cbn [Nat.iter]. change (2 ^ Z.of_nat 0) with 1. rewrite Z.div_1_r. reflexivity.
  - change (Nat.iter (S k) shr_1 mrs) with (shr_1 (Nat.iter k shr_1 mrs)).
    assert (Hp : 0 < 2 ^ Z.of_nat k) by (apply Z.pow_pos_nonneg; lia).
    destruct (Nat.iter k shr_1 mrs) as [m r s]. cbn [shr_m] in IH.
    rewrite shr_1_nonneg by (rewrite IH; apply Z.div_pos; lia).
    cbn [shr_m]. rewrite IH, Z.div_div by lia.
    replace (Z.of_nat (S k)) with (Z.of_nat k + 1) by lia.
    rewrite Z.pow_add_r by lia. reflexivity.
Qed.

Lemma round_nearest_even_bounds (m : Z) (l : location) :
  m <= round_nearest_even m l <= m + 1.
Proof.
  destruct l as [| [ | | ]]; cbn [round_nearest_even]; try lia.
  destruct (Z.even m); lia.
Qed.

(** Whatever the location, the rounded mantissa is the shifted one or its
    successor. *)
Lemma binary_round_aux_any (s : bool) (M E : Z) (l : location) :
  0 <= M ->
  let k := fexp64 (Zdigits2 M + E) - E in
  0 <= k ->
  exists rn, M / 2 ^ k <= rn <= M / 2 ^ k + 1 /\
             binary_round_aux prec emax s M E l = finish s rn (E + k).
Proof.
  intros HM k Hk.
  unfold binary_round_aux, finish.
  unfold shr_fexp at 1. rewrite fexp64_eq. fold k.
  destruct k as [| p | p] eqn:Ek; [ | | lia ].
  - cbn [shr]. exists (round_nearest_even (shr_m (shr_record_of_loc M l))
                         (loc_of_shr_record (shr_record_of_loc M l))).
    change (2 ^ 0) with 1. rewrite Z.div_1_r, Z.add_0_r.
    split; [ | reflexivity ].
    replace (shr_m (shr_record_of_loc M l)) with M
      by (destruct l as [| [ | | ]]; reflexivity).
    apply round_nearest_even_bounds.
  - cbn [shr].
    set (mrs := SpecFloat.iter_pos shr_1 p (shr_record_of_loc M l)).
    exists (round_nearest_even (shr_m mrs) (loc_of_shr_record mrs)).
    split; [ | reflexivity ].
    assert (Hm : shr_m mrs = M / 2 ^ Z.pos p).
    { unfold mrs. rewrite iter_pos_nat, iter_shr_1_m.
      - rewrite positive_nat_Z.
        replace (shr_m (shr_record_of_loc M l)) with M
          by (destruct l as [| [ | | ]]; reflexivity).
        reflexivity.
      - replace (shr_m (shr_record_of_loc M l)) with M
          by (destruct l as [| [ | | ]]; reflexivity).
        exact HM. }
    rewrite <- Hm. apply round_nearest_even_bounds.
Qed.

Lemma rounded_ok_any (M E rn : Z) :
  0 <= M ->
  let k := fexp64 (Zdigits2 M + E) - E in
  0 <= k ->
  M / 2 ^ k <= rn <= M / 2 ^ k + 1 ->
  rounded_ok rn (E + k).
Proof.
  intros HM k Hk [Rlo Rhi].
  assert (Hp : 0 < 2 ^ k) by (apply Z.pow_pos_nonneg; lia).
  destruct (Z.eq_dec M 0) as [-> | HM0].
  - cbn [Zdigits2] in k. rewrite Z.div_0_l in Rlo, Rhi by lia.
    unfold rounded_ok. unfold fexp64 in k.
    assert (1 <= 2 ^ 53) by (change 1 with (2 ^ 0); apply Z.pow_le_mono_r; lia).
    split; [ lia | ]. split; [ lia | lia ].
  - assert (HMpos : 0 < M) by lia.
    pose proof (Zdigits2_bounds M HMpos) as [Dlo Dhi].
    pose proof (Zdigits2_pos M HMpos) as Dpos.
    set (d := Zdigits2 M) in *.
    assert (Hq0 : 0 <= M / 2 ^ k) by (apply Z.div_pos; lia).
    unfold rounded_ok. unfold fexp64 in k.
    split; [ lia | ]. split; [ split; [ lia | ] | ].
    + destruct (Z_le_gt_dec k d) as [Hkd | Hkd].
      * assert (Hlt : M / 2 ^ k < 2 ^ (d - k)).
        { apply Z.div_lt_upper_bound; [ lia | ].
          rewrite <- Z.pow_add_r by lia. replace (k + (d - k)) with d by lia. lia. }
        assert (2 ^ (d - k) <= 2 ^ 53) by (apply Z.pow_le_mono_r; lia).
        lia.
      * assert (Hz : M / 2 ^ k = 0).
        { apply Z.div_small. split; [ lia | ].
          assert (2 ^ d <= 2 ^ k) by (apply Z.pow_le_mono_r; lia). lia. }
        assert (1 <= 2 ^ 53) by (change 1 with (2 ^ 0); apply Z.pow_le_mono_r; lia).
        lia.
    + intros Hnorm.
      assert (Hk53 : k = d - 53) by lia.
      assert (Hge : 2 ^ 52 <= M / 2 ^ k).
      { apply Z.div_le_lower_bound; [ lia | ].
        rewrite <- Z.pow_add_r by lia. replace (k + 52) with (d - 1) by lia. lia. }
      lia.
Qed.

Lemma fexp64_mono (a b : Z) : a <= b -> fexp64 a <= fexp64 b.
Proof. unfold fexp64. lia. Qed.

Lemma Zdigits2_nonneg (M : Z) : 0 <= Zdigits2 M.
Proof. destruct M; cbn; lia. Qed.

(** The quotient of a valid number by a valid number of magnitude at least
    2 is rounded to a valid number of exponent at most 970: no overflow. *)
Lemma SFdiv_no_overflow (s1 : bool) (m1 m2 : positive) (e1 e2 : Z) :
  SpecFloat.bounded prec emax m1 e1 = true ->
  SpecFloat.bounded prec emax m2 e2 = true ->
  2 <= Zdigits2 (Z.pos m2) + e2 ->
  exists rn e,
    rounded_ok rn e /\ e <= 970 /\
    SFdiv prec emax (S754_finite s1 m1 e1) (S754_finite false m2 e2)
    = rounded_result s1 rn e.
Proof.
  intros H1 H2 Hbig.
  destruct (bounded_facts m1 e1 H1) as (He1 & Hd1 & Hn1).
  destruct (bounded_facts m2 e2 H2) as (He2 & Hd2 & Hn2).
  pose proof (Zdigits2_bounds (Z.pos m1) ltac:(lia)) as [A1 B1].
  pose proof (Zdigits2_bounds (Z.pos m2) ltac:(lia)) as [A2 B2].
  pose proof (Zdigits2_pos (Z.pos m1) ltac:(lia)) as P1.
  pose proof (Zdigits2_pos (Z.pos m2) ltac:(lia)) as P2.
  cbn [SFdiv]. rewrite xorb_false_r. unfold SFdiv_core_binary.
  rewrite fexp64_eq.
  set (d1 := Zdigits2 (Z.pos m1)) in *. set (d2 := Zdigits2 (Z.pos m2)) in *.
  set (e' := Z.min (fexp64 (d1 + e1 - (d2 + e2))) (e1 - e2)).
  set (s := e1 - e2 - e').
  assert (Hs : 0 <= s) by (unfold s, e'; lia).
  assert (Hps : 0 < 2 ^ s) by (apply Z.pow_pos_nonneg; lia).
  set (m' := match s with
             | 0 => Z.pos m1
             | Z.pos _ => Z.shiftl (Z.pos m1) s
             | Z.neg _ => 0
             end).
  assert (Hm' : m' = Z.pos m1 * 2 ^ s).
  { unfold m'. destruct s as [| p | p] eqn:Es; [ | | lia ].
    - change (2 ^ 0) with 1. lia.
    - rewrite Z.shiftl_mul_pow2 by lia. reflexivity. }
  clearbody m'.
  destruct (Z.div_eucl m' (Z.pos m2)) as [q r] eqn:Ed.
  assert (Hq : q = m' / Z.pos m2) by (unfold Z.div; rewrite Ed; reflexivity).
  assert (Hr : r = m' mod Z.pos m2) by (unfold Z.modulo; rewrite Ed; reflexivity).
  pose proof (Z.div_mod m' (Z.pos m2) ltac:(lia)) as Hdm.
  pose proof (Z.mod_pos_bound m' (Z.pos m2) ltac:(lia)) as Hrb.
  rewrite <- Hq, <- Hr in Hdm. rewrite <- Hr in Hrb.
  assert (Hq0 : 0 <= q) by (rewrite Hq; apply Z.div_pos; lia).
  assert (Hm'lo : 2 ^ (d1 - 1 + s) <= m').
  { rewrite Hm', Z.pow_add_r by lia. nia. }
  assert (Hm'hi : m' < 2 ^ (d1 + s)).
  { rewrite Hm', Z.pow_add_r by lia. nia. }
  pose proof (Zdigits2_nonneg q) as Dq0.
  (* digits of the quotient *)
  assert (Dlo : d1 + s - d2 <= Zdigits2 q).
  { destruct (Z_le_gt_dec (d1 + s - d2) 0) as [Hle | Hgt]; [ lia | ].
    assert (Hql : 2 ^ (d1 - 1 + s - d2) <= q).
    { assert (Hlt : 2 ^ (d1 - 1 + s - d2) * 2 ^ d2 < (q + 1) * 2 ^ d2).
      { rewrite <- Z.pow_add_r by lia.
        replace (d1 - 1 + s - d2 + d2) with (d1 - 1 + s) by lia. nia. }
      assert (0 < 2 ^ d2) by (apply Z.pow_pos_nonneg; lia).
      assert (2 ^ (d1 - 1 + s - d2) < q + 1) by nia. lia. }
    assert (Hqpos : 0 < q).
    { assert (0 < 2 ^ (d1 - 1 + s - d2)) by (apply Z.pow_pos_nonneg; lia). lia. }
    pose proof (Zdigits2_bounds q Hqpos) as [_ Qhi].
    destruct (Z_le_gt_dec (d1 + s - d2) (Zdigits2 q)) as [Hok | Hbad]; [ exact Hok | ].
    assert (2 ^ Zdigits2 q <= 2 ^ (d1 - 1 + s - d2)) by (apply Z.pow_le_mono_r; lia).
    lia. }
  assert (Dhi : Zdigits2 q + e' <= 1023).
  { destruct (Z.eq_dec q 0) as [-> | Hq0'].
    - cbn [Zdigits2]. unfold e'. lia.
    - enough (Zdigits2 q <= d1 + s - d2 + 1) by (unfold s in *; lia).
      pose proof (Zdigits2_bounds q ltac:(lia)) as [Qlo _].
      pose proof (Zdigits2_pos q ltac:(lia)) as Qpos.
      destruct (Z_le_gt_dec (Zdigits2 q) (d1 + s - d2 + 1)) as [Hok | Hbad]; [ exact Hok | ].
      assert (Hexp : 0 < d1 + s - d2 + 1).
      { destruct (Z_le_gt_dec (d1 + s) (d2 - 1)) as [Hle | Hgt]; [ | lia ].
        assert (2 ^ (d1 + s) <= 2 ^ (d2 - 1)) by (apply Z.pow_le_mono_r; lia).
        nia. }
      assert (Hpw : 2 ^ (d1 + s - d2 + 1) <= 2 ^ (Zdigits2 q - 1))
        by (apply Z.pow_le_mono_r; lia).
      assert (Hlt : q * 2 ^ (d2 - 1) < 2 ^ (d1 + s)) by nia.
      assert (Hge : 2 ^ (d1 + s - d2 + 1) * 2 ^ (d2 - 1) <= q * 2 ^ (d2 - 1)).
      { apply Z.mul_le_mono_nonneg_r; [ apply Z.pow_nonneg; lia | lia ]. }
      rewrite <- Z.pow_add_r in Hge by lia.
      replace (d1 + s - d2 + 1 + (d2 - 1)) with (d1 + s) in Hge by lia. lia. }
  assert (Hk : 0 <= fexp64 (Zdigits2 q + e') - e').
  { assert (fexp64 (d1 + e1 - (d2 + e2)) <= fexp64 (Zdigits2 q + e'))
      by (apply fexp64_mono; unfold s in Dlo; lia).
    unfold e' at 2. lia. }
  destruct (binary_round_aux_any s1 q e'
              (new_location (Z.pos m2) r) Hq0 Hk) as [rn [Hrn Hbra]].
  exists rn, (e' + (fexp64 (Zdigits2 q + e') - e')).
  split; [ apply rounded_ok_any; assumption | ].
  split.
  - assert (fexp64 (Zdigits2 q + e') <= fexp64 1023)
      by (apply fexp64_mono; exact Dhi).
    change (fexp64 1023) with 970 in *. lia.
  - rewrite Hbra. apply finish_result. apply rounded_ok_any; assumption.
Qed.

End Rounding.

Section Binary64Order.

Open Scope float_scope.

(** The product of two finite numbers is not NaN. *)
Lemma mul_not_nan (x y : float) :
  is_finite x = true -> is_finite y = true -> is_nan (x * y) = false.
Proof.
  rewrite !is_finite_spec, is_nan_spec, mul_spec.
  pose proof (Prim2SF_valid x) as Vx.
  pose proof (Prim2SF_valid y) as Vy.
  destruct (Prim2SF x) as [sx | sx | | sx mx ex];
    destruct (Prim2SF y) as [sy | sy | | sy my ey];
    intros Hx Hy; try discriminate Hx; try discriminate Hy; try reflexivity.
  unfold SF64mul. cbn [SFmul].
  pose proof (product_shift_nonneg mx my ex ey Vx Vy) as K.
  rewrite (binary_round_aux_exact (xorb sx sy) (Z.pos (mx * my)) (ex + ey)
             ltac:(lia) K).
  rewrite finish_result by (apply rounded_ok_RN; [ lia | exact K ]).
  unfold rounded_result.
  destruct (RN _ _) as [| m | m]; try reflexivity.
  destruct (Z.pos m <? 2 ^ 53)%Z;
    match goal with |- context [if ?c then _ else _] => destruct c end; reflexivity.
Qed.

(** Multiplication by a non-negative finite number preserves the order of
    non-negative finite numbers. *)
Lemma mul_le_mono_nonneg_r (x y s : float) :
  (0 <=? x) = true -> (x <=? y) = true -> is_finite y = true ->
  (0 <=? s) = true -> is_finite s = true ->
  (x * s <=? y * s) = true.
Proof.
  rewrite !FloatAxioms.leb_spec, !mul_spec.
  change (Prim2SF 0) with (S754_zero false).
  pose proof (Prim2SF_valid x) as Vx.
  pose proof (Prim2SF_valid y) as Vy.
  pose proof (Prim2SF_valid s) as Vs.
  rewrite (is_finite_spec y), (is_finite_spec s).
  destruct (Prim2SF x) as [[|] | [|] | | [|] mx ex];
    destruct (Prim2SF y) as [[|] | [|] | | [|] my ey];
    destruct (Prim2SF s) as [[|] | [|] | | [|] ms es];
    intros H0x Hxy Hy H0s Hs;
    try discriminate Hy; try discriminate Hs;
    try (exfalso; clear - H0x; unfold SFleb, SFcompare in H0x; discriminate H0x);
    try (exfalso; clear - H0s; unfold SFleb, SFcompare in H0s; discriminate H0s);
    try (exfalso; clear - Hxy; unfold SFleb, SFcompare in Hxy; discriminate Hxy);
    try reflexivity.
  - apply (SFmul_nonneg my ms ey es Vy Vs true).
  - apply (SFmul_nonneg my ms ey es Vy Vs false).
  - apply SFmul_mono; assumption.
Qed.

Lemma rounded_result_finite (s : bool) (rn e : Z) :
  (e <= 970)%Z ->
  match rounded_result s rn e with
  | S754_zero s' | S754_finite s' _ _ => s' = s
  | _ => False
  end.
Proof.
  intros He. unfold rounded_result.
  destruct rn as [| m | m]; try reflexivity.
  destruct (Z.pos m <? 2 ^ 53)%Z.
  - replace (e <=? 971)%Z with true by (symmetry; apply Z.leb_le; lia). reflexivity.
  - replace (e + 1 <=? 971)%Z with true by (symmetry; apply Z.leb_le; lia). reflexivity.
Qed.

(** Division of a finite number by a number that is at least 2 gives a
    finite number, and a non-negative one if the dividend is not negative. *)
Lemma div_finite (x d : float) (m2 : positive) (e2 : Z) :
  Prim2SF d = S754_finite false m2 e2 ->
  (2 <= Zdigits2 (Z.pos m2) + e2)%Z ->
  is_finite x = true ->
  is_finite (x / d) = true /\ ((0 <=? x) = true -> (0 <=? x / d) = true).
Proof.
  intros Hd Hbig.
  rewrite !is_finite_spec, !FloatAxioms.leb_spec, div_spec, Hd.
  change (Prim2SF 0) with (S754_zero false).
  pose proof (Prim2SF_valid x) as Vx.
  pose proof (Prim2SF_valid d) as Vd. rewrite Hd in Vd.
  destruct (Prim2SF x) as [[|] | [|] | | s1 m1 e1]; intros Hfin;
    try discriminate Hfin; try (split; reflexivity).
  destruct (SFdiv_no_overflow s1 m1 m2 e1 e2 Vx Vd Hbig) as (rn & e & Hok & He & Heq).
  unfold SF64div. rewrite Heq.
  pose proof (rounded_result_finite s1 rn e He) as Hres.
  destruct (rounded_result s1 rn e) as [s' | s' | | s' m e0];
    try contradiction; subst s'.
  - split; [ reflexivity | intros _; reflexivity ].
  - split; [ reflexivity | ].
    destruct s1; [ intros Hpos; unfold SFleb, SFcompare in Hpos; discriminate Hpos | ].
    intros _. reflexivity.
Qed.

Lemma div_100_finite (x : float) :
  is_finite x = true ->
  is_finite (x / 100) = true /\ ((0 <=? x) = true -> (0 <=? x / 100) = true).
Proof.
  apply (div_finite x 100 7036874417766400 (-46)).
  - reflexivity.
  - cbn. lia.
Qed.

Lemma div_2_finite (x : float) :
  is_finite x = true ->
  is_finite (x / 2) = true /\ ((0 <=? x) = true -> (0 <=? x / 2) = true).
Proof.
  apply (div_finite x 2 4503599627370496 (-51)).
  - reflexivity.
  - cbn. lia.
Qed.

End Binary64Order.

(** ** 8.3 The order of binary64 numbers *)

Section Binary64Compare.

Open Scope float_scope.

Lemma bounded_key (m : positive) (e : Z) :
  SpecFloat.bounded prec emax m e = true ->
  (-1074 <= e <= 971 /\ 0 < Z.pos m < 2 ^ 53)%Z.
Proof.
  intros Hb. destruct (bounded_facts m e Hb) as (He & Hd & _).
  pose proof (Zdigits2_bounds (Z.pos m) ltac:(lia)) as [_ Hhi].
  assert (2 ^ Zdigits2 (Z.pos m) <= 2 ^ 53)%Z
    by (apply Z.pow_le_mono_r; [ lia | exact Hd ]).
  lia.
Qed.

(** The comparison of two valid numbers is the comparison of their keys. *)
Lemma SFcompare_key (a b : spec_float) :
  SpecFloat.valid_binary prec emax a = true ->
  SpecFloat.valid_binary prec emax b = true ->
  SF_is_nan a = false -> SF_is_nan b = false ->
  SFcompare a b = Some (order_key a ?= order_key b)%Z.
Proof.
  destruct a as [[|] | [|] | | [|] ma ea], b as [[|] | [|] | | [|] mb eb];
    cbn [SpecFloat.valid_binary SF_is_nan]; intros Va Vb Na Nb;
    try discriminate Na; try discriminate Nb; try reflexivity;
    try (destruct (bounded_key ma ea Va) as [Hea Hma]);
    try (destruct (bounded_key mb eb Vb) as [Heb Hmb]);
    cbn [SFcompare order_key]; cbv zeta;
    assert (P53 : (2 ^ 53 = 9007199254740992)%Z) by reflexivity;
    assert (P70 : (2 ^ 70 = 1180591620717411303424)%Z) by reflexivity;
    try (f_equal; symmetry;
         first [ apply Z.compare_lt_iff; nia | apply Z.compare_gt_iff; nia ]).
  - destruct (Z.compare_spec ea eb) as [-> | Hlt | Hgt].
    + rewrite Pos.compare_cont_spec. cbn [Pos.switch_Eq].
      f_equal. destruct (Pos.compare_spec ma mb) as [-> | Hm | Hm]; cbn [CompOpp];
        symmetry.
      * apply Z.compare_eq_iff. reflexivity.
      * apply Z.compare_gt_iff. nia.
      * apply Z.compare_lt_iff. nia.
    + f_equal. symmetry. apply Z.compare_gt_iff. nia.
    + f_equal. symmetry. apply Z.compare_lt_iff. nia.
  - destruct (Z.compare_spec ea eb) as [-> | Hlt | Hgt].
    + rewrite Pos.compare_cont_spec. cbn [Pos.switch_Eq].
      f_equal. destruct (Pos.compare_spec ma mb) as [-> | Hm | Hm];
        symmetry.
      * apply Z.compare_eq_iff. reflexivity.
      * apply Z.compare_lt_iff. nia.
      * apply Z.compare_gt_iff. nia.
    + f_equal. symmetry. apply Z.compare_lt_iff. nia.
    + f_equal. symmetry. apply Z.compare_gt_iff. nia.
Qed.

Lemma SF_is_nan_spec (x : float) : is_nan x = SF_is_nan (Prim2SF x).
Proof. rewrite is_nan_spec. reflexivity. Qed.

(** [a < b] holds when neither is NaN and the keys are in that order. *)
Lemma ltb_key (a b : float) :
  (a <? b) = negb (is_nan a) && negb (is_nan b) && (key a <? key b)%Z.
Proof.
  rewrite FloatAxioms.ltb_spec, !SF_is_nan_spec. unfold key, SFltb.
  pose proof (Prim2SF_valid a) as Va. pose proof (Prim2SF_valid b) as Vb.
  destruct (SF_is_nan (Prim2SF a)) eqn:Na.
  { destruct (Prim2SF a); try discriminate Na. reflexivity. }
  destruct (SF_is_nan (Prim2SF b)) eqn:Nb.
  { destruct (Prim2SF b); try discriminate Nb.
    destruct (Prim2SF a); try discriminate Na; reflexivity. }
  rewrite (SFcompare_key _ _ Va Vb Na Nb).
  cbn [negb andb]. unfold Z.ltb.
  destruct (order_key (Prim2SF a) ?= order_key (Prim2SF b))%Z; reflexivity.
Qed.

Lemma leb_key (a b : float) :
  (a <=? b) = negb (is_nan a) && negb (is_nan b) && (key a <=? key b)%Z.
Proof.
  rewrite FloatAxioms.leb_spec, !SF_is_nan_spec. unfold key, SFleb.
  pose proof (Prim2SF_valid a) as Va. pose proof (Prim2SF_valid b) as Vb.
  destruct (SF_is_nan (Prim2SF a)) eqn:Na.
  { destruct (Prim2SF a); try discriminate Na. reflexivity. }
  destruct (SF_is_nan (Prim2SF b)) eqn:Nb.
  { destruct (Prim2SF b); try discriminate Nb.
    destruct (Prim2SF a); try discriminate Na; reflexivity. }
  rewrite (SFcompare_key _ _ Va Vb Na Nb).
  cbn [negb andb]. unfold Z.leb.
  destruct (order_key (Prim2SF a) ?= order_key (Prim2SF b))%Z; reflexivity.
Qed.

Lemma leb_not_nan (x y : float) : (x <=? y) = true -> is_nan y = false.
Proof.
  rewrite leb_key. intros H. apply andb_prop in H. destruct H as [H _].
  apply andb_prop in H. destruct H as [_ H]. apply negb_true_iff in H. exact H.
Qed.

Lemma finite_not_nan (x : float) : is_finite x = true -> is_nan x = false.
Proof. rewrite is_finite_spec, is_nan_spec. destruct (Prim2SF x); congruence. Qed.

End Binary64Compare.

(** ** 8.4 The value of a binary64 number

    The operations of [SpecFloat] on two positive numbers, read as
    operations on real numbers: the result is the exact result, rounded,
    and one rounding moves a number by at most [eps] of itself as long as
    it stays far from overflow and from the subnormal numbers. *)

Section PowersOfTwo.

Open Scope R_scope.

Lemma pow2_pos e : 0 < pow2 e.
Proof. apply powerRZ_lt. lra. Qed.

Lemma pow2_add a b : pow2 (a + b) = pow2 a * pow2 b.
Proof. apply powerRZ_add. lra. Qed.

Lemma pow2_IZR k : (0 <= k)%Z -> pow2 k = IZR (2 ^ k).
Proof.
  intros Hk. unfold pow2. destruct k as [| p | p]; [ reflexivity | | lia ].
  symmetry. apply (Zpower_pos_powerRZ 2 p).
Qed.

Lemma pow2_ge_1 k : (0 <= k)%Z -> 1 <= pow2 k.
Proof.
  intros Hk. rewrite pow2_IZR by exact Hk. apply IZR_le.
  assert (0 < 2 ^ k)%Z by (apply Z.pow_pos_nonneg; lia). lia.
Qed.

Lemma pow2_le a b : (a <= b)%Z -> pow2 a <= pow2 b.
Proof.
  intros Hab. replace b with (a + (b - a))%Z by lia. rewrite pow2_add.
  pose proof (pow2_pos a). pose proof (pow2_ge_1 (b - a) ltac:(lia)). nra.
Qed.

Lemma pow2_lt a b : (a < b)%Z -> pow2 a < pow2 b.
Proof.
  intros Hab. replace b with (a + (b - a))%Z by lia. rewrite pow2_add.
  pose proof (pow2_pos a).
  assert (2 <= pow2 (b - a)).
  { rewrite pow2_IZR by lia. apply IZR_le.
    replace (b - a)%Z with (1 + (b - a - 1))%Z by lia.
    rewrite Z.pow_add_r by lia.
    assert (0 < 2 ^ (b - a - 1))%Z by (apply Z.pow_pos_nonneg; lia). lia. }
  nra.
Qed.

Lemma pow2_le_inv a b : pow2 a <= pow2 b -> (a <= b)%Z.
Proof.
  intros H. destruct (Z_le_gt_dec a b) as [Hle | Hgt]; [ exact Hle | ].
  pose proof (pow2_lt b a ltac:(lia)). lra.
Qed.

Lemma pow2_neg k : (0 <= k)%Z -> pow2 (- k) = / IZR (2 ^ k).
Proof.
  intros Hk. rewrite <- (pow2_IZR k) by exact Hk.
  apply Rmult_eq_reg_r with (pow2 k); [ | pose proof (pow2_pos k); lra ].
  rewrite <- pow2_add, Rinv_l by (pose proof (pow2_pos k); lra).
  replace (- k + k)%Z with 0%Z by lia. reflexivity.
Qed.

End PowersOfTwo.

Section RoundedValue.

Open Scope R_scope.

(** The value of a rounded mantissa. *)
Lemma rounded_result_value (rn e : Z) :
  rounded_ok rn e -> (0 < rn)%Z -> (e <= 970)%Z ->
  exists m e', rounded_result false rn e = S754_finite false m e' /\
               IZR (Z.pos m) * pow2 e' = IZR rn * pow2 e.
Proof.
  intros (He & [Hr0 Hr1] & Hn) Hpos He'.
  unfold rounded_result.
  destruct rn as [| p | p]; try lia.
  destruct (Z.ltb_spec (Z.pos p) (2 ^ 53)) as [Hlt | Hge].
  - destruct (Z.leb_spec e 971) as [_ | Hc]; [ | lia ].
    exists p, e. split; reflexivity.
  - assert (Hp : Z.pos p = (2 ^ 53)%Z) by lia.
    destruct (Z.leb_spec (e + 1) 971) as [_ | Hc]; [ | lia ].
    exists 4503599627370496%positive, (e + 1)%Z. split; [ reflexivity | ].
    rewrite Hp. rewrite pow2_add.
    replace (pow2 1) with 2 by (unfold pow2; simpl; lra).
    change (2 ^ 53)%Z with 9007199254740992%Z. lra.
Qed.

(** One rounding.  [binary_round_aux] is given the mantissa [M], the
    exponent [E] and the location of the exact value [T] between [M] and
    [M + 1]; far from overflow and from the subnormal numbers its result
    is a positive number within [2^-52] of [T], relatively. *)
Lemma binary_round_aux_value (M E : Z) (l : location) (T : R) :
  (0 < M)%Z ->
  (0 <= fexp64 (Zdigits2 M + E) - E)%Z ->
  IZR M * pow2 E <= T < (IZR M + 1) * pow2 E ->
  pow2 (-1000) <= T <= pow2 1000 ->
  exists m e,
    binary_round_aux prec emax false M E l = S754_finite false m e /\
    (1 - pow2 (-52)) * T <= IZR (Z.pos m) * pow2 e <= (1 + pow2 (-52)) * T.
Proof.
  intros HM Hk [HT1 HT2] [Hlo Hhi].
  destruct (binary_round_aux_any false M E l ltac:(lia) Hk) as (rn & Hrn & Heq).
  pose proof (rounded_ok_any M E rn ltac:(lia) Hk Hrn) as Hok.
  rewrite (finish_result false rn _ Hok) in Heq.
  set (k := (fexp64 (Zdigits2 M + E) - E)%Z) in *.
  set (d := Zdigits2 M) in *.
  pose proof (Zdigits2_bounds M HM) as [Hd1 Hd2]. fold d in Hd1, Hd2.
  pose proof (Zdigits2_pos M HM) as Hdpos. fold d in Hdpos.
  pose proof (pow2_pos E) as HpE.
  destruct (Z_lt_ge_dec (d + E - 53) (-1074)) as [Hsub | Hnorm].
  { exfalso.
    assert (H1 : IZR M + 1 <= pow2 d).
    { rewrite pow2_IZR by lia. rewrite <- plus_IZR. apply IZR_le. lia. }
    assert (H2 : T < pow2 (d + E)).
    { rewrite pow2_add. nra. }
    pose proof (pow2_le (d + E) (-1000) ltac:(lia)). lra. }
  assert (Ek : k = (d - 53)%Z).
  { unfold k, fexp64. lia. }
  assert (Hk0 : (0 <= k)%Z) by exact Hk.
  set (q := (M / 2 ^ k)%Z) in *.
  assert (H2k : (0 < 2 ^ k)%Z) by (apply Z.pow_pos_nonneg; lia).
  assert (Hq1 : (q * 2 ^ k <= M)%Z).
  { unfold q. rewrite Z.mul_comm. apply Z.mul_div_le. exact H2k. }
  assert (Hq2 : (M < (q + 1) * 2 ^ k)%Z).
  { unfold q. rewrite Z.mul_comm. apply Z.mul_succ_div_gt. exact H2k. }
  assert (Hq52 : (2 ^ 52 <= q)%Z).
  { unfold q. apply Z.div_le_lower_bound; [ exact H2k | ].
    replace (d - 1)%Z with (k + 52)%Z in Hd1 by lia.
    rewrite Z.pow_add_r in Hd1 by lia. lia. }
  set (u := pow2 (E + k)).
  assert (Hu : u = pow2 E * IZR (2 ^ k)).
  { unfold u. rewrite pow2_add, (pow2_IZR k) by lia. reflexivity. }
  assert (Hupos : 0 < u) by apply pow2_pos.
  assert (B1 : IZR q * u <= T).
  { apply Rle_trans with (IZR M * pow2 E); [ | exact HT1 ].
    rewrite Hu. apply IZR_le in Hq1. rewrite mult_IZR in Hq1. nra. }
  assert (B2 : T <= (IZR q + 1) * u).
  { apply Rle_trans with ((IZR M + 1) * pow2 E); [ lra | ].
    rewrite Hu.
    assert (IZR M + 1 <= (IZR q + 1) * IZR (2 ^ k)).
    { rewrite <- !plus_IZR, <- mult_IZR. apply IZR_le. lia. }
    nra. }
  assert (B3 : IZR q <= IZR rn <= IZR q + 1).
  { destruct Hrn as [Hr1 Hr2]. fold q in Hr1, Hr2.
    split; [ apply IZR_le; exact Hr1 | ].
    rewrite <- plus_IZR. apply IZR_le. exact Hr2. }
  assert (B4 : IZR (2 ^ 52) <= IZR q) by (apply IZR_le; exact Hq52).
  assert (B5 : pow2 (-52) * IZR (2 ^ 52) = 1).
  { rewrite <- (pow2_IZR 52) by lia. rewrite <- pow2_add. reflexivity. }
  pose proof (pow2_pos (-52)) as Hp52.
  assert (B6 : u <= pow2 (-52) * T).
  { assert (G1 : IZR (2 ^ 52) * u <= T) by nra.
    assert (G2 : pow2 (-52) * (IZR (2 ^ 52) * u) <= pow2 (-52) * T) by nra.
    replace (pow2 (-52) * (IZR (2 ^ 52) * u))
      with (pow2 (-52) * IZR (2 ^ 52) * u) in G2 by ring.
    rewrite B5 in G2. lra. }
  assert (He : (E + k <= 970)%Z).
  { assert (G : pow2 (52 + (E + k)) <= pow2 1000).
    { rewrite pow2_add, (pow2_IZR 52) by lia. fold u. nra. }
    apply pow2_le_inv in G. lia. }
  assert (Hrnpos : (0 < rn)%Z).
  { destruct Hrn as [Hr1 _]. fold q in Hr1.
    assert (0 < 2 ^ 52)%Z by (apply Z.pow_pos_nonneg; lia). lia. }
  destruct (rounded_result_value rn (E + k) Hok Hrnpos He) as (m & e' & Hres & Hval).
  exists m, e'. split; [ rewrite Heq; exact Hres | ].
  rewrite Hval. fold u. nra.
Qed.

End RoundedValue.

Section Division.
Open Scope Z_scope.

(** The quotient and remainder [SFdiv] hands to the rounding. *)
Lemma SFdiv_core_facts (m1 m2 : positive) (e1 e2 : Z) :
  SpecFloat.bounded prec emax m1 e1 = true ->
  SpecFloat.bounded prec emax m2 e2 = true ->
  exists q r e' l,
    SFdiv prec emax (S754_finite false m1 e1) (S754_finite false m2 e2)
    = binary_round_aux prec emax false q e' l /\
    0 <= e1 - e2 - e' /\
    Z.pos m1 * 2 ^ (e1 - e2 - e') = q * Z.pos m2 + r /\
    0 <= r < Z.pos m2 /\ 0 <= q /\
    0 <= fexp64 (Zdigits2 q + e') - e' /\
    (q = 0 -> e' <= -1074).
Proof.
  intros H1 H2.
  destruct (bounded_facts m1 e1 H1) as (He1 & Hd1 & Hn1).
  destruct (bounded_facts m2 e2 H2) as (He2 & Hd2 & Hn2).
  pose proof (Zdigits2_bounds (Z.pos m1) ltac:(lia)) as [A1 B1].
  pose proof (Zdigits2_bounds (Z.pos m2) ltac:(lia)) as [A2 B2].
  pose proof (Zdigits2_pos (Z.pos m1) ltac:(lia)) as P1.
  pose proof (Zdigits2_pos (Z.pos m2) ltac:(lia)) as P2.
  cbn [SFdiv xorb]. unfold SFdiv_core_binary.
  rewrite fexp64_eq.
  set (d1 := Zdigits2 (Z.pos m1)) in *. set (d2 := Zdigits2 (Z.pos m2)) in *.
  set (e' := Z.min (fexp64 (d1 + e1 - (d2 + e2))) (e1 - e2)).
  set (s := e1 - e2 - e').
  assert (Hs : 0 <= s) by (unfold s, e'; lia).
  assert (Hps : 0 < 2 ^ s) by (apply Z.pow_pos_nonneg; lia).
  set (m' := match s with
             | 0 => Z.pos m1
             | Z.pos _ => Z.shiftl (Z.pos m1) s
             | Z.neg _ => 0
             end).
  assert (Hm' : m' = Z.pos m1 * 2 ^ s).
  { unfold m'. destruct s as [| p | p] eqn:Es; [ | | lia ].
    - change (2 ^ 0) with 1. lia.
    - rewrite Z.shiftl_mul_pow2 by lia. reflexivity. }
  clearbody m'.
  destruct (Z.div_eucl m' (Z.pos m2)) as [q r] eqn:Ed.
  assert (Hq : q = m' / Z.pos m2) by (unfold Z.div; rewrite Ed; reflexivity).
  assert (Hr : r = m' mod Z.pos m2) by (unfold Z.modulo; rewrite Ed; reflexivity).
  pose proof (Z.div_mod m' (Z.pos m2) ltac:(lia)) as Hdm.
  pose proof (Z.mod_pos_bound m' (Z.pos m2) ltac:(lia)) as Hrb.
  rewrite <- Hq, <- Hr in Hdm. rewrite <- Hr in Hrb.
  assert (Hq0 : 0 <= q) by (rewrite Hq; apply Z.div_pos; lia).
  assert (Hm'lo : 2 ^ (d1 - 1 + s) <= m').
  { rewrite Hm', Z.pow_add_r by lia. nia. }
  assert (Hm'hi : m' < 2 ^ (d1 + s)).
  { rewrite Hm', Z.pow_add_r by lia. nia. }
  pose proof (Zdigits2_nonneg q) as Dq0.
  assert (Dlo : d1 + s - d2 <= Zdigits2 q).
  { destruct (Z_le_gt_dec (d1 + s - d2) 0) as [Hle | Hgt]; [ lia | ].
    assert (Hql : 2 ^ (d1 - 1 + s - d2) <= q).
    { assert (Hlt : 2 ^ (d1 - 1 + s - d2) * 2 ^ d2 < (q + 1) * 2 ^ d2).
      { rewrite <- Z.pow_add_r by lia.
        replace (d1 - 1 + s - d2 + d2) with (d1 - 1 + s) by lia. nia. }
      assert (0 < 2 ^ d2) by (apply Z.pow_pos_nonneg; lia).
      assert (2 ^ (d1 - 1 + s - d2) < q + 1) by nia. lia. }
    assert (Hqpos : 0 < q).
    { assert (0 < 2 ^ (d1 - 1 + s - d2)) by (apply Z.pow_pos_nonneg; lia). lia. }
    pose proof (Zdigits2_bounds q Hqpos) as [_ Qhi].
    destruct (Z_le_gt_dec (d1 + s - d2) (Zdigits2 q)) as [Hok | Hbad]; [ exact Hok | ].
    assert (2 ^ Zdigits2 q <= 2 ^ (d1 - 1 + s - d2)) by (apply Z.pow_le_mono_r; lia).
    lia. }
  assert (Hk : 0 <= fexp64 (Zdigits2 q + e') - e').
  { assert (fexp64 (d1 + e1 - (d2 + e2)) <= fexp64 (Zdigits2 q + e'))
      by (apply fexp64_mono; unfold s in Dlo; lia).
    unfold e' at 2. lia. }
  exists q, r, e', (new_location (Z.pos m2) r).
  split; [ reflexivity | ].
  split; [ exact Hs | ].
  split; [ fold s; lia | ].
  split; [ exact Hrb | ].
  split; [ exact Hq0 | ].
  split; [ exact Hk | ].
  intros ->. cbn [Zdigits2] in Dlo. unfold s, e', fexp64 in *. lia.
Qed.

End Division.

Section Alignment.
Open Scope Z_scope.

(** [shl_align] lengthens a mantissa to reach a smaller exponent. *)
Lemma shl_align_spec (mx : positive) (ex ex' : Z) :
  let '(m', e') := shl_align mx ex ex' in
  e' = Z.min ex ex' /\ Z.pos m' = Z.pos mx * 2 ^ (ex - e').
Proof.
  unfold shl_align. destruct (ex' - ex) as [| d | d] eqn:Ed.
  - split; [ lia | ]. rewrite Z.sub_diag. change (2 ^ 0) with 1. lia.
  - split; [ lia | ]. rewrite Z.sub_diag. change (2 ^ 0) with 1. lia.
  - split; [ lia | ].
    change (Pos.iter xO mx d) with (shift_pos d mx).
    rewrite shift_pos_correct.
    replace (ex - ex') with (Z.pos d) by lia.
    change (Z.pow_pos 2 d) with (2 ^ Z.pos d). lia.
Qed.

(** [binary_round] first lengthens a short mantissa, then rounds. *)
Lemma binary_round_facts (M : positive) (E : Z) :
  exists mz ez,
    binary_round prec emax false M E
    = binary_round_aux prec emax false (Z.pos mz) ez loc_Exact /\
    ez <= E /\ Z.pos mz = Z.pos M * 2 ^ (E - ez) /\
    0 <= fexp64 (Zdigits2 (Z.pos mz) + ez) - ez.
Proof.
  unfold binary_round.
  pose proof (shl_align_spec M E (fexp prec emax (Z.pos (digits2_pos M) + E))) as Hs.
  destruct (shl_align M E (fexp prec emax (Z.pos (digits2_pos M) + E))) as [mz ez].
  destruct Hs as [He Hm].
  exists mz, ez. split; [ reflexivity | ].
  rewrite fexp64_eq in He.
  change (Z.pos (digits2_pos M)) with (Zdigits2 (Z.pos M)) in He.
  split; [ lia | ]. split; [ exact Hm | ].
  rewrite Hm, Zdigits2_shift by lia.
  replace (Zdigits2 (Z.pos M) + (E - ez) + ez) with (Zdigits2 (Z.pos M) + E) by lia.
  lia.
Qed.

End Alignment.

Section SquareRoot.
Open Scope Z_scope.

(** The integer square root and remainder [SFsqrt] hands to the
    rounding. *)
Lemma SFsqrt_core_facts (m : positive) (e : Z) :
  exists q r e' l,
    SFsqrt prec emax (S754_finite false m e)
    = binary_round_aux prec emax false q e' l /\
    0 <= e - 2 * e' /\
    Z.pos m * 2 ^ (e - 2 * e') = q * q + r /\ 0 <= r <= 2 * q /\ 0 < q /\
    0 <= fexp64 (Zdigits2 q + e') - e'.
Proof.
  cbn [SFsqrt]. unfold SFsqrt_core_binary. rewrite fexp64_eq.
  set (d := Zdigits2 (Z.pos m)).
  rewrite !Z.div2_div.
  set (e' := Z.min (fexp64 ((d + e + 1) / 2)) (e / 2)).
  set (s := e - 2 * e').
  assert (Hs : 0 <= s).
  { unfold s, e'. pose proof (Z.mul_div_le e 2 ltac:(lia)). lia. }
  set (m' := match s with
             | 0 => Z.pos m
             | Z.pos _ => Z.shiftl (Z.pos m) s
             | Z.neg _ => 0
             end).
  assert (Hm' : m' = Z.pos m * 2 ^ s).
  { unfold m'. destruct s as [| p | p] eqn:Es; [ | | lia ].
    - change (2 ^ 0) with 1. lia.
    - rewrite Z.shiftl_mul_pow2 by lia. reflexivity. }
  clearbody m'.
  assert (Hps : 0 < 2 ^ s) by (apply Z.pow_pos_nonneg; lia).
  assert (Hm'pos : 0 < m') by nia.
  pose proof (Z.sqrtrem_spec m' ltac:(lia)) as Hsq.
  destruct (Z.sqrtrem m') as [q r].
  destruct Hsq as [Hqr Hr].
  assert (Hq : 0 < q) by nia.
  pose proof (Zdigits2_bounds (Z.pos m) ltac:(lia)) as [A1 B1]. fold d in A1, B1.
  pose proof (Zdigits2_pos (Z.pos m) ltac:(lia)) as P1. fold d in P1.
  (* the number of digits of the root *)
  set (D := d + s).
  assert (Hlo : 2 ^ (D - 1) <= m').
  { unfold D. rewrite Hm'. replace (d + s - 1) with (d - 1 + s) by lia.
    rewrite Z.pow_add_r by lia. nia. }
  set (j := (D - 1) / 2).
  assert (Hj : 0 <= j) by (unfold j; apply Z.div_pos; lia).
  assert (Hj2 : 2 * j <= D - 1) by (unfold j; apply Z.mul_div_le; lia).
  assert (Hqj : 2 ^ j <= q).
  { destruct (Z_le_gt_dec (2 ^ j) q) as [Hok | Hbad]; [ exact Hok | exfalso ].
    assert (Hjj : 2 ^ j * 2 ^ j <= 2 ^ (D - 1)).
    { rewrite <- Z.pow_add_r by lia. apply Z.pow_le_mono_r; lia. }
    assert (0 < 2 ^ j) by (apply Z.pow_pos_nonneg; lia).
    assert ((q + 1) <= 2 ^ j) by lia.
    assert ((q + 1) * (q + 1) <= 2 ^ j * 2 ^ j) by nia.
    nia. }
  assert (Hdq : j + 1 <= Zdigits2 q).
  { pose proof (Zdigits2_bounds q Hq) as [_ Qhi].
    destruct (Z_le_gt_dec (j + 1) (Zdigits2 q)) as [Hok | Hbad]; [ exact Hok | exfalso ].
    assert (2 ^ Zdigits2 q <= 2 ^ j).
    { apply Z.pow_le_mono_r; lia. }
    lia. }
  assert (Hk : 0 <= fexp64 (Zdigits2 q + e') - e').
  { assert (Hmag : (d + e + 1) / 2 <= Zdigits2 q + e').
    { assert (Ej : (d + e + 1) / 2 = j + 1 + e').
      { unfold j, D, s.
        replace (d + e + 1) with ((d + (e - 2 * e') - 1) + (1 + e') * 2) by lia.
        rewrite Z.div_add by lia. lia. }
      lia. }
    pose proof (fexp64_mono _ _ Hmag). unfold e' at 2. lia. }
  eexists q, r, e', _.
  split; [ reflexivity | ].
  split; [ exact Hs | ].
  split; [ fold s; lia | ].
  split; [ exact Hr | ].
  split; [ exact Hq | exact Hk ].
Qed.

End SquareRoot.

Section Operations.

Open Scope R_scope.

(** The four operations and the square root, on positive numbers. *)
Lemma represents_bounded x v :
  represents x v ->
  exists m e, Prim2SF x = S754_finite false m e /\ v = IZR (Z.pos m) * pow2 e /\
              SpecFloat.bounded prec emax m e = true.
Proof.
  intros (m & e & Hx & Hv). exists m, e. split; [ exact Hx | split; [ exact Hv | ] ].
  pose proof (Prim2SF_valid x) as Hb. rewrite Hx in Hb. exact Hb.
Qed.

Lemma mul_value (x y : float) (vx vy : R) :
  represents x vx -> represents y vy -> in_range (vx * vy) ->
  exists v, represents (x * y) v /\ near (vx * vy) v.
Proof.
  intros Hx Hy Hr.
  destruct (represents_bounded x vx Hx) as (mx & ex & Ex & Vx & Bx).
  destruct (represents_bounded y vy Hy) as (my & ey & Ey & Vy & By).
  pose proof (product_shift_nonneg mx my ex ey Bx By) as Hk.
  destruct (binary_round_aux_value (Z.pos (mx * my)) (ex + ey) loc_Exact (vx * vy))
    as (m & e & Hres & Hnear).
  - lia.
  - exact Hk.
  - rewrite Vx, Vy, Pos2Z.inj_mul, mult_IZR, pow2_add.
    pose proof (pow2_pos ex). pose proof (pow2_pos ey).
    assert (0 < pow2 ex * pow2 ey) by nra.
    split; [ apply Req_le; ring | ]. nra.
  - exact Hr.
  - exists (IZR (Z.pos m) * pow2 e). split; [ | exact Hnear ].
    exists m, e. split; [ | reflexivity ].
    rewrite mul_spec, Ex, Ey. exact Hres.
Qed.

Lemma div_value (x y : float) (vx vy : R) :
  represents x vx -> represents y vy -> in_range (vx / vy) ->
  exists v, represents (x / y) v /\ near (vx / vy) v.
Proof.
  intros Hx Hy Hr.
  destruct (represents_bounded x vx Hx) as (mx & ex & Ex & Vx & Bx).
  destruct (represents_bounded y vy Hy) as (my & ey & Ey & Vy & By).
  destruct (SFdiv_core_facts mx my ex ey Bx By)
    as (q & r & e' & l & Hdiv & Hs & Hqr & Hrb & Hq0 & Hk & Hzero).
  set (s := (ex - ey - e')%Z) in *.
  pose proof (pow2_pos ex) as Pex. pose proof (pow2_pos ey) as Pey.
  pose proof (pow2_pos e') as Pe'.
  assert (Hmy : 0 < IZR (Z.pos my)) by (apply IZR_lt; lia).
  assert (HT : vx / vy = (IZR q + IZR r / IZR (Z.pos my)) * pow2 e').
  { rewrite Vx, Vy.
    replace ex with (ey + (s + e'))%Z by (unfold s; lia).
    rewrite !pow2_add, (pow2_IZR s) by exact Hs.
    assert (E : IZR (Z.pos mx) * IZR (2 ^ s) = IZR q * IZR (Z.pos my) + IZR r).
    { rewrite <- !mult_IZR, <- plus_IZR. f_equal. exact Hqr. }
    field_simplify_eq; [ | lra ].
    replace (IZR (Z.pos mx) * pow2 ey * IZR (2 ^ s) * pow2 e')
      with (IZR (Z.pos mx) * IZR (2 ^ s) * (pow2 ey * pow2 e')) by ring.
    rewrite E. ring. }
  assert (Hfrac : 0 <= IZR r / IZR (Z.pos my) < 1).
  { destruct Hrb as [Hr0 Hr1]. apply IZR_le in Hr0. apply IZR_lt in Hr1.
    split.
    - apply Rmult_le_pos; [ exact Hr0 | ]. apply Rlt_le, Rinv_0_lt_compat. exact Hmy.
    - apply Rmult_lt_reg_r with (IZR (Z.pos my)); [ exact Hmy | ].
      unfold Rdiv. rewrite Rmult_assoc, Rinv_l by lra. lra. }
  assert (Hqpos : (0 < q)%Z).
  { destruct (Z.eq_dec q 0) as [Hq | Hq]; [ | lia ].
    exfalso. specialize (Hzero Hq). subst q.
    destruct Hr as [Hlo _]. rewrite HT in Hlo.
    pose proof (pow2_le e' (-1074) Hzero).
    pose proof (pow2_lt (-1074) (-1000) ltac:(lia)).
    nra. }
  destruct (binary_round_aux_value q e' l (vx / vy) Hqpos Hk)
    as (m & e & Hres & Hnear).
  - rewrite HT. split; nra.
  - exact Hr.
  - exists (IZR (Z.pos m) * pow2 e). split; [ | exact Hnear ].
    exists m, e. split; [ | reflexivity ].
    rewrite div_spec, Ex, Ey. unfold SF64div. rewrite Hdiv. exact Hres.
Qed.

Lemma binary_round_value (M : positive) (E : Z) :
  in_range (IZR (Z.pos M) * pow2 E) ->
  exists m e,
    binary_round prec emax false M E = S754_finite false m e /\
    near (IZR (Z.pos M) * pow2 E) (IZR (Z.pos m) * pow2 e).
Proof.
  intros Hr.
  destruct (binary_round_facts M E) as (mz & ez & Heq & Hez & Hmz & Hk).
  assert (HT : IZR (Z.pos mz) * pow2 ez = IZR (Z.pos M) * pow2 E).
  { rewrite Hmz, mult_IZR, <- (pow2_IZR (E - ez)) by lia.
    rewrite Rmult_assoc, <- pow2_add. f_equal. f_equal. lia. }
  destruct (binary_round_aux_value (Z.pos mz) ez loc_Exact (IZR (Z.pos M) * pow2 E))
    as (m & e & Hres & Hnear).
  - lia.
  - exact Hk.
  - rewrite <- HT. pose proof (pow2_pos ez). split; [ lra | nra ].
  - exact Hr.
  - exists m, e. split; [ rewrite Heq; exact Hres | exact Hnear ].
Qed.

Lemma aligned_value (m : positive) (e ez : Z) :
  (ez <= e)%Z ->
  IZR (Z.pos (fst (shl_align m e ez))) * pow2 ez = IZR (Z.pos m) * pow2 e.
Proof.
  intros Hle. pose proof (shl_align_spec m e ez) as Hs.
  destruct (shl_align m e ez) as [m' e']. cbn [fst].
  destruct Hs as [He Hm]. rewrite Hm, mult_IZR.
  replace (e - e')%Z with (e - ez)%Z by lia.
  rewrite <- (pow2_IZR (e - ez)) by lia.
  rewrite Rmult_assoc, <- pow2_add. f_equal. f_equal. lia.
Qed.

Lemma add_value (x y : float) (vx vy : R) :
  represents x vx -> represents y vy -> in_range (vx + vy) ->
  exists v, represents (x + y) v /\ near (vx + vy) v.
Proof.
  intros (mx & ex & Ex & Vx) (my & ey & Ey & Vy) Hr.
  set (ez := Z.min ex ey).
  set (ax := fst (shl_align mx ex ez)). set (ay := fst (shl_align my ey ez)).
  assert (Hax : IZR (Z.pos ax) * pow2 ez = vx).
  { unfold ax. rewrite aligned_value by (unfold ez; lia). symmetry. exact Vx. }
  assert (Hay : IZR (Z.pos ay) * pow2 ez = vy).
  { unfold ay. rewrite aligned_value by (unfold ez; lia). symmetry. exact Vy. }
  assert (Hsum : IZR (Z.pos (ax + ay)) * pow2 ez = vx + vy).
  { rewrite Pos2Z.inj_add, plus_IZR. lra. }
  rewrite <- Hsum in Hr |- *.
  destruct (binary_round_value (ax + ay) ez Hr) as (m & e & Hres & Hnear).
  exists (IZR (Z.pos m) * pow2 e). split; [ | exact Hnear ].
  exists m, e. split; [ | reflexivity ].
  rewrite add_spec, Ex, Ey. unfold SF64add. cbn [SFadd cond_Zopp].
  fold ez. fold ax. fold ay.
  change (Z.pos ax + Z.pos ay)%Z with (Z.pos (ax + ay)).
  cbn [binary_normalize]. exact Hres.
Qed.

Lemma sub_value (x y : float) (vx vy : R) :
  represents x vx -> represents y vy -> in_range (vx - vy) ->
  exists v, represents (x - y) v /\ near (vx - vy) v.
Proof.
  intros (mx & ex & Ex & Vx) (my & ey & Ey & Vy) Hr.
  set (ez := Z.min ex ey).
  set (ax := fst (shl_align mx ex ez)). set (ay := fst (shl_align my ey ez)).
  assert (Hax : IZR (Z.pos ax) * pow2 ez = vx).
  { unfold ax. rewrite aligned_value by (unfold ez; lia). symmetry. exact Vx. }
  assert (Hay : IZR (Z.pos ay) * pow2 ez = vy).
  { unfold ay. rewrite aligned_value by (unfold ez; lia). symmetry. exact Vy. }
  assert (Hpos : (0 < Z.pos ax - Z.pos ay)%Z).
  { apply lt_IZR. rewrite minus_IZR.
    destruct Hr as [Hlo _]. pose proof (pow2_pos (-1000)). pose proof (pow2_pos ez).
    rewrite <- Hax, <- Hay in Hlo. nra. }
  destruct (Z.pos ax - Z.pos ay)%Z as [| p | p] eqn:Ep; try lia.
  assert (Hdiff : IZR (Z.pos p) * pow2 ez = vx - vy).
  { rewrite <- Ep, minus_IZR. lra. }
  rewrite <- Hdiff in Hr |- *.
  destruct (binary_round_value p ez Hr) as (m & e & Hres & Hnear).
  exists (IZR (Z.pos m) * pow2 e). split; [ | exact Hnear ].
  exists m, e. split; [ | reflexivity ].
  rewrite sub_spec, Ex, Ey. unfold SF64sub. cbn [SFsub cond_Zopp].
  fold ez. fold ax. fold ay. rewrite Ep.
  cbn [binary_normalize]. exact Hres.
Qed.

Lemma sqrt_value (x : float) (vx : R) :
  represents x vx -> in_range (sqrt vx) ->
  exists v, represents (PrimFloat.sqrt x) v /\ near (sqrt vx) v.
Proof.
  intros (mx & ex & Ex & Vx) Hr.
  destruct (SFsqrt_core_facts mx ex) as (q & r & e' & l & Hsq & Hs & Hqr & Hrb & Hq & Hk).
  pose proof (pow2_pos e') as Pe'.
  assert (Hvx : vx = (IZR q * IZR q + IZR r) * (pow2 e' * pow2 e')).
  { rewrite Vx. replace ex with ((ex - 2 * e') + (e' + e'))%Z at 1 by lia.
    rewrite !pow2_add, (pow2_IZR (ex - 2 * e')) by lia.
    rewrite <- Rmult_assoc, <- mult_IZR, Hqr, plus_IZR, mult_IZR. reflexivity. }
  assert (Hq0 : 0 < IZR q) by (apply IZR_lt; exact Hq).
  assert (Hr0 : 0 <= IZR r <= 2 * IZR q).
  { destruct Hrb as [R0 R1]. split; [ apply IZR_le; exact R0 | ].
    apply IZR_le in R1. rewrite mult_IZR in R1. exact R1. }
  assert (HT : sqrt vx = sqrt (IZR q * IZR q + IZR r) * pow2 e').
  { rewrite Hvx, sqrt_mult_alt by nra. rewrite sqrt_square by lra. reflexivity. }
  assert (Hlo : IZR q <= sqrt (IZR q * IZR q + IZR r)).
  { rewrite <- (sqrt_square (IZR q)) at 1 by lra. apply sqrt_le_1_alt. lra. }
  assert (Hhi : sqrt (IZR q * IZR q + IZR r) < IZR q + 1).
  { rewrite <- (sqrt_square (IZR q + 1)) by lra. apply sqrt_lt_1_alt. nra. }
  destruct (binary_round_aux_value q e' l (sqrt vx) Hq Hk) as (m & e & Hres & Hnear).
  - rewrite HT. split; nra.
  - exact Hr.
  - exists (IZR (Z.pos m) * pow2 e). split; [ | exact Hnear ].
    exists m, e. split; [ | reflexivity ].
    rewrite sqrt_spec, Ex. unfold SF64sqrt. rewrite Hsq. exact Hres.
Qed.

End Operations.

(** *** Intervals that scale with the width *)

Section Scaled.

Open Scope R_scope.

(** The decimal bounds. *)
Lemma eps_delta : 0 < eps <= delta.
Proof.
  unfold eps, delta. split; [ apply pow2_pos | ].
  change (pow2 (-52)) with (pow2 (- (52))). rewrite (pow2_neg 52) by lia.
  change (2 ^ 52)%Z with 4503599627370496%Z.
  apply Rinv_le_contravar; lra.
Qed.

Lemma tiny_in_range : pow2 (-1000) <= tiny.
Proof.
  apply Rle_trans with (pow2 (-100)); [ apply pow2_le; lia | ].
  unfold tiny. change (pow2 (-100)) with (pow2 (- (100))). rewrite (pow2_neg 100) by lia.
  change (2 ^ 100)%Z with 1267650600228229401496703205376%Z.
  apply Rinv_le_contravar; lra.
Qed.

Lemma huge_in_range : huge * 10 ^ 24 <= pow2 1000.
Proof.
  apply Rle_trans with (pow2 200); [ | apply pow2_le; lia ].
  rewrite (pow2_IZR 200) by lia. unfold huge.
  change (2 ^ 200)%Z with 1606938044258990275541962092341162602522202993782792835301376%Z.
  lra.
Qed.

Variable c : R.
Hypothesis c_range : 1 <= c <= 10 ^ 6.

Lemma c_pow (k : nat) : (k <= 4)%nat -> 1 <= c ^ k <= 10 ^ 24.
Proof.
  intros Hk. destruct c_range as [H1 H2].
  assert (P1 : 1 <= c ^ 1 <= 10 ^ 6) by (simpl; lra).
  assert (P2 : 1 <= c ^ 2 <= 10 ^ 12) by (simpl in *; nra).
  assert (P3 : 1 <= c ^ 3 <= 10 ^ 18).
  { replace (c ^ 3) with (c ^ 2 * c) by (simpl; ring). nra. }
  assert (P4 : 1 <= c ^ 4 <= 10 ^ 24).
  { replace (c ^ 4) with (c ^ 2 * c ^ 2) by (simpl; ring). nra. }
  destruct k as [| [| [| [| [| k]]]]]; try lia.
  - simpl. lra.
  - lra.
  - lra.
  - lra.
  - lra.
Qed.

Lemma in_range_scaled (t l h : R) (k : nat) :
  (k <= 4)%nat -> tiny <= l -> h <= huge ->
  l * c ^ k <= t <= h * c ^ k -> in_range t.
Proof.
  intros Hk Hl Hh [T1 T2].
  pose proof (c_pow k Hk) as [C1 C2].
  pose proof tiny_in_range as Ht. pose proof huge_in_range as Hg.
  assert (0 < tiny) by (unfold tiny; apply Rinv_0_lt_compat; lra).
  assert (0 < huge) by (unfold huge; lra).
  split.
  - apply Rle_trans with (l * c ^ k); [ | exact T1 ]. nra.
  - apply Rle_trans with (h * c ^ k); [ exact T2 | ].
    apply Rle_trans with (huge * 10 ^ 24); [ | exact Hg ].
    destruct (Rle_dec 0 h) as [Hp | Hn]; [ nra | nra ].
Qed.

Lemma near_scaled (t v l h l' h' p : R) :
  near t v -> 0 < p -> 0 <= l -> l * p <= t <= h * p ->
  l' <= (1 - delta) * l -> (1 + delta) * h <= h' ->
  l' * p <= v <= h' * p.
Proof.
  intros [N1 N2] Hp Hl [T1 T2] L H.
  pose proof eps_delta as [E0 E1].
  assert (D1 : delta < 1).
  { unfold delta. apply Rmult_lt_reg_r with (10 ^ 15); [ lra | rewrite Rinv_l; lra ]. }
  assert (Ht : 0 <= t) by nra.
  split.
  - apply Rle_trans with ((1 - eps) * t); [ | exact N1 ].
    apply Rle_trans with ((1 - delta) * l * p); [ nra | ].
    apply Rle_trans with ((1 - delta) * t); [ nra | nra ].
  - apply Rle_trans with ((1 + eps) * t); [ exact N2 | ].
    apply Rle_trans with ((1 + delta) * t); [ nra | ].
    apply Rle_trans with ((1 + delta) * h * p); [ nra | nra ].
Qed.

Lemma order_of_scaled (l h v p : R) : 0 < p -> l * p <= v <= h * p -> l <= h.
Proof. intros Hp [A B]. apply Rmult_le_reg_r with p; lra. Qed.

(** One step of the interval arithmetic: an exact result [t] between
    [lt] and [ht] times [c ^ k] is in range, and its rounding [v] lies
    between [l] and [h] times [c ^ k] when [l] and [h] leave room for the
    rounding. *)
Lemma scaled_step (t v lt ht l h : R) (k : nat) :
  (k <= 4)%nat -> 0 < lt ->
  lt * c ^ k <= t <= ht * c ^ k ->
  tiny <= l <= (1 - delta) * lt -> (1 + delta) * ht <= h <= huge ->
  in_range t /\ (near t v -> l * c ^ k <= v <= h * c ^ k).
Proof.
  intros Hk Hlt T [Ll Lu] [Hl Hu].
  pose proof (c_pow k Hk) as [C1 _].
  assert (Hp : 0 < c ^ k) by lra.
  pose proof (order_of_scaled _ _ _ _ Hp T) as Ho.
  assert (D1 : 0 < delta < 1).
  { unfold delta. split; [ apply Rinv_0_lt_compat; lra | ].
    apply Rmult_lt_reg_r with (10 ^ 15); [ lra | rewrite Rinv_l; lra ]. }
  assert (A1 : (1 - delta) * lt <= lt) by nra.
  assert (A2 : ht <= (1 + delta) * ht) by nra.
  split.
  - apply (in_range_scaled t lt ht k Hk); [ lra | lra | exact T ].
  - intros Hn. apply (near_scaled t v lt ht l h (c ^ k)); try assumption; lra.
Qed.

Lemma mul_scaled (x y : float) (k1 k2 : nat) (l1 h1 l2 h2 l h : R) :
  scaled c x k1 l1 h1 -> scaled c y k2 l2 h2 -> (k1 + k2 <= 4)%nat ->
  0 < l1 -> 0 < l2 ->
  tiny <= l <= (1 - delta) * (l1 * l2) -> (1 + delta) * (h1 * h2) <= h <= huge ->
  scaled c (x * y) (k1 + k2) l h.
Proof.
  intros (vx & Rx & X1 & X2) (vy & Ry & Y1 & Y2) Hk L1 L2 Hl Hh.
  pose proof (c_pow k1 ltac:(lia)) as [C1 _].
  pose proof (c_pow k2 ltac:(lia)) as [C2 _].
  assert (T : l1 * l2 * c ^ (k1 + k2) <= vx * vy <= h1 * h2 * c ^ (k1 + k2)).
  { rewrite pow_add. split.
    - replace (l1 * l2 * (c ^ k1 * c ^ k2)) with ((l1 * c ^ k1) * (l2 * c ^ k2)) by ring.
      apply Rmult_le_compat; nra.
    - replace (h1 * h2 * (c ^ k1 * c ^ k2)) with ((h1 * c ^ k1) * (h2 * c ^ k2)) by ring.
      apply Rmult_le_compat; nra. }
  assert (Hq : 0 < l1 * l2) by (apply Rmult_lt_0_compat; assumption).
  destruct (mul_value x y vx vy Rx Ry) as (v & Rv & Hn).
  { apply (scaled_step _ 0 _ _ _ _ _ Hk Hq T Hl Hh). }
  exists v. split; [ exact Rv | ].
  apply (scaled_step _ v _ _ _ _ _ Hk Hq T Hl Hh). exact Hn.
Qed.

Lemma add_scaled (x y : float) (k : nat) (l1 h1 l2 h2 l h : R) :
  scaled c x k l1 h1 -> scaled c y k l2 h2 -> (k <= 4)%nat ->
  0 < l1 -> 0 < l2 ->
  tiny <= l <= (1 - delta) * (l1 + l2) -> (1 + delta) * (h1 + h2) <= h <= huge ->
  scaled c (x + y) k l h.
Proof.
  intros (vx & Rx & X1 & X2) (vy & Ry & Y1 & Y2) Hk L1 L2 Hl Hh.
  assert (T : (l1 + l2) * c ^ k <= vx + vy <= (h1 + h2) * c ^ k) by (split; lra).
  assert (Hq : 0 < l1 + l2) by lra.
  destruct (add_value x y vx vy Rx Ry) as (v & Rv & Hn).
  { apply (scaled_step _ 0 _ _ _ _ _ Hk Hq T Hl Hh). }
  exists v. split; [ exact Rv | ].
  apply (scaled_step _ v _ _ _ _ _ Hk Hq T Hl Hh). exact Hn.
Qed.

Lemma sub_scaled (x y : float) (k : nat) (l1 h1 l2 h2 l h : R) :
  scaled c x k l1 h1 -> scaled c y k l2 h2 -> (k <= 4)%nat ->
  0 < l1 - h2 ->
  tiny <= l <= (1 - delta) * (l1 - h2) -> (1 + delta) * (h1 - l2) <= h <= huge ->
  scaled c (x - y) k l h.
Proof.
  intros (vx & Rx & X1 & X2) (vy & Ry & Y1 & Y2) Hk Hq Hl Hh.
  assert (T : (l1 - h2) * c ^ k <= vx - vy <= (h1 - l2) * c ^ k) by (split; lra).
  destruct (sub_value x y vx vy Rx Ry) as (v & Rv & Hn).
  { apply (scaled_step _ 0 _ _ _ _ _ Hk Hq T Hl Hh). }
  exists v. split; [ exact Rv | ].
  apply (scaled_step _ v _ _ _ _ _ Hk Hq T Hl Hh). exact Hn.
Qed.

(** Division by a number that does not scale. *)
Lemma div_scaled (x y : float) (k : nat) (l1 h1 l2 h2 l h : R) :
  scaled c x k l1 h1 -> scaled c y 0 l2 h2 -> (k <= 4)%nat ->
  0 < l1 -> 0 < l2 ->
  tiny <= l <= (1 - delta) * (l1 / h2) -> (1 + delta) * (h1 / l2) <= h <= huge ->
  scaled c (x / y) k l h.
Proof.
  intros (vx & Rx & X1 & X2) (vy & Ry & Y1 & Y2) Hk L1 L2 Hl Hh.
  pose proof (c_pow k Hk) as [C1 _].
  simpl in Y1, Y2. rewrite Rmult_1_r in Y1, Y2.
  assert (Hvy : 0 < vy) by lra.
  assert (Hh2 : 0 < h2) by lra.
  assert (Hvx : 0 < vx) by nra.
  assert (Hh1 : 0 < h1 * c ^ k) by lra.
  assert (I1 : / h2 <= / vy) by (apply Rinv_le_contravar; lra).
  assert (I2 : / vy <= / l2) by (apply Rinv_le_contravar; lra).
  assert (I3 : 0 < / h2) by (apply Rinv_0_lt_compat; lra).
  assert (I4 : 0 < / vy) by (apply Rinv_0_lt_compat; lra).
  assert (T : l1 / h2 * c ^ k <= vx / vy <= h1 / l2 * c ^ k).
  { unfold Rdiv. split.
    - replace (l1 * / h2 * c ^ k) with ((l1 * c ^ k) * / h2) by ring.
      apply Rmult_le_compat; nra.
    - replace (h1 * / l2 * c ^ k) with ((h1 * c ^ k) * / l2) by ring.
      apply Rmult_le_compat; lra. }
  assert (Hq : 0 < l1 / h2) by (unfold Rdiv; apply Rmult_lt_0_compat; assumption).
  destruct (div_value x y vx vy Rx Ry) as (v & Rv & Hn).
  { apply (scaled_step _ 0 _ _ _ _ _ Hk Hq T Hl Hh). }
  exists v. split; [ exact Rv | ].
  apply (scaled_step _ v _ _ _ _ _ Hk Hq T Hl Hh). exact Hn.
Qed.

(** The quotient of two numbers of the same scale does not scale. *)
Lemma ratio_scaled (x y : float) (k : nat) (l1 h1 l2 h2 l h : R) :
  scaled c x k l1 h1 -> scaled c y k l2 h2 -> (k <= 4)%nat ->
  0 < l1 -> 0 < l2 ->
  tiny <= l <= (1 - delta) * (l1 / h2) -> (1 + delta) * (h1 / l2) <= h <= huge ->
  scaled c (x / y) 0 l h.
Proof.
  intros (vx & Rx & X1 & X2) (vy & Ry & Y1 & Y2) Hk L1 L2 Hl Hh.
  pose proof (c_pow k Hk) as [C1 _].
  set (p := c ^ k) in *.
  assert (Hp : 0 < p) by lra.
  pose proof (order_of_scaled _ _ _ _ Hp (conj X1 X2)) as O1.
  pose proof (order_of_scaled _ _ _ _ Hp (conj Y1 Y2)) as O2.
  assert (Hy1 : 0 < l2 * p) by (apply Rmult_lt_0_compat; lra).
  assert (Hx1 : 0 < l1 * p) by (apply Rmult_lt_0_compat; lra).
  assert (Hvy : 0 < vy) by lra.
  assert (Hvx : 0 < vx) by lra.
  assert (Hh2 : 0 < h2) by lra.
  assert (Hq : 0 < l1 / h2).
  { unfold Rdiv. apply Rmult_lt_0_compat; [ lra | apply Rinv_0_lt_compat; lra ]. }
  assert (Hq' : 0 < h1 / l2).
  { unfold Rdiv. apply Rmult_lt_0_compat; [ lra | apply Rinv_0_lt_compat; lra ]. }
  assert (T : l1 / h2 * c ^ 0 <= vx / vy <= h1 / l2 * c ^ 0).
  { simpl. rewrite !Rmult_1_r. split.
    - apply Rmult_le_reg_r with vy; [ exact Hvy | ].
      replace (vx / vy * vy) with vx by (field; lra).
      apply Rle_trans with (l1 / h2 * (h2 * p)).
      + apply Rmult_le_compat_l; lra.
      + replace (l1 / h2 * (h2 * p)) with (l1 * p) by (field; lra). lra.
    - apply Rmult_le_reg_r with vy; [ exact Hvy | ].
      replace (vx / vy * vy) with vx by (field; lra).
      apply Rle_trans with (h1 / l2 * (l2 * p)).
      + replace (h1 / l2 * (l2 * p)) with (h1 * p) by (field; lra). lra.
      + apply Rmult_le_compat_l; lra. }
  assert (H0 : (0 <= 4)%nat) by lia.
  destruct (div_value x y vx vy Rx Ry) as (v & Rv & Hn).
  { apply (scaled_step _ 0 _ _ _ _ _ H0 Hq T Hl Hh). }
  exists v. split; [ exact Rv | ].
  apply (scaled_step _ v _ _ _ _ _ H0 Hq T Hl Hh). exact Hn.
Qed.

Lemma sqrt_scaled (x : float) (l1 h1 sl sh l h : R) :
  scaled c x 0 l1 h1 -> 0 < sl -> sl * sl <= l1 -> h1 <= sh * sh -> 0 < sh ->
  tiny <= l <= (1 - delta) * sl -> (1 + delta) * sh <= h <= huge ->
  scaled c (PrimFloat.sqrt x) 0 l h.
Proof.
  intros (vx & Rx & X1 & X2) Hsl Sl Sh Hsh Hl Hh.
  simpl in X1, X2. rewrite Rmult_1_r in X1, X2.
  assert (T : sl * c ^ 0 <= sqrt vx <= sh * c ^ 0).
  { simpl. rewrite !Rmult_1_r. split.
    - rewrite <- (sqrt_square sl) by lra. apply sqrt_le_1_alt. lra.
    - rewrite <- (sqrt_square sh) by lra. apply sqrt_le_1_alt. lra. }
  assert (H0 : (0 <= 4)%nat) by lia.
  destruct (sqrt_value x vx Rx) as (v & Rv & Hn).
  { apply (scaled_step _ 0 _ _ _ _ _ H0 Hsl T Hl Hh). }
  exists v. split; [ exact Rv | ].
  apply (scaled_step _ v _ _ _ _ _ H0 Hsl T Hl Hh). exact Hn.
Qed.

(** A number written in the source. *)
Lemma constant_scaled (x : float) (m : positive) (e : Z) (l h : R) :
  Prim2SF x = S754_finite false m e ->
  l <= IZR (Z.pos m) * pow2 e <= h ->
  scaled c x 0 l h.
Proof.
  intros Hx Hv. exists (IZR (Z.pos m) * pow2 e).
  split; [ exists m, e; split; [ exact Hx | reflexivity ] | ].
  simpl. lra.
Qed.

End Scaled.

(** *** Comparisons, integers and [Math.round] *)

Section OrderAndValue.
Open Scope R_scope.

Lemma represents_not_nan (x : float) (v : R) : represents x v -> is_nan x = false.
Proof. intros (m & e & Hx & _). rewrite is_nan_spec, Hx. reflexivity. Qed.

(** On positive numbers the order of the keys is the order of the values. *)
Lemma key_lt_value (x y : float) (vx vy : R) :
  represents x vx -> represents y vy -> (key x < key y)%Z -> vx < vy.
Proof.
  intros Hx Hy.
  destruct (represents_bounded x vx Hx) as (mx & ex & Ex & Vx & Bx).
  destruct (represents_bounded y vy Hy) as (my & ey & Ey & Vy & By).
  unfold key. rewrite Ex, Ey. cbn [order_key]. intros Hk.
  destruct (bounded_key mx ex Bx) as [Hex Hmx].
  destruct (bounded_key my ey By) as [Hey Hmy].
  destruct (bounded_facts my ey By) as (_ & _ & Hny).
  pose proof (pow2_pos ex) as Pex.
  assert (Hcase : (ex < ey \/ (ex = ey /\ Z.pos mx < Z.pos my))%Z) by nia.
  subst vx vy.
  destruct Hcase as [Hlt | [-> Hm]].
  - assert (H52 : (2 ^ 52 <= Z.pos my)%Z).
    { pose proof (Zdigits2_bounds (Z.pos my) ltac:(lia)) as [Hlo _].
      rewrite (Hny ltac:(lia)) in Hlo. exact Hlo. }
    apply Rlt_le_trans with (IZR (2 ^ 53) * pow2 ex).
    + apply Rmult_lt_compat_r; [ exact Pex | ]. apply IZR_lt. lia.
    + apply Rle_trans with (IZR (2 ^ 52) * pow2 (ex + 1)).
      * rewrite pow2_add. replace (pow2 1) with 2 by (unfold pow2; simpl; lra).
        change (2 ^ 53)%Z with 9007199254740992%Z.
        change (2 ^ 52)%Z with 4503599627370496%Z. lra.
      * pose proof (pow2_le (ex + 1) ey ltac:(lia)).
        pose proof (pow2_pos (ex + 1)).
        apply IZR_le in H52.
        assert (0 < IZR (2 ^ 52)) by (apply IZR_lt; lia).
        apply Rmult_le_compat; lra.
  - apply Rmult_lt_compat_r; [ exact Pex | ]. apply IZR_lt. exact Hm.
Qed.

Lemma key_eq_value (x y : float) (vx vy : R) :
  represents x vx -> represents y vy -> key x = key y -> vx = vy.
Proof.
  intros Hx Hy.
  destruct (represents_bounded x vx Hx) as (mx & ex & Ex & Vx & Bx).
  destruct (represents_bounded y vy Hy) as (my & ey & Ey & Vy & By).
  unfold key. rewrite Ex, Ey. cbn [order_key]. intros Hk.
  destruct (bounded_key mx ex Bx) as [Hex Hmx].
  destruct (bounded_key my ey By) as [Hey Hmy].
  assert (Hcase : (ex = ey /\ Z.pos mx = Z.pos my)%Z) by nia.
  destruct Hcase as [-> Hm]. subst vx vy. rewrite Hm. reflexivity.
Qed.

Lemma leb_of_value (x y : float) (vx vy : R) :
  represents x vx -> represents y vy -> vx <= vy -> (x <=? y)%float = true.
Proof.
  intros Hx Hy Hle. rewrite leb_key.
  rewrite (represents_not_nan x vx Hx), (represents_not_nan y vy Hy).
  cbn [negb andb]. apply Z.leb_le.
  destruct (Z_le_gt_dec (key x) (key y)) as [Hok | Hbad]; [ exact Hok | exfalso ].
  pose proof (key_lt_value y x vy vx Hy Hx ltac:(lia)). lra.
Qed.

Lemma ltb_of_value (x y : float) (vx vy : R) :
  represents x vx -> represents y vy -> vx < vy -> (x <? y)%float = true.
Proof.
  intros Hx Hy Hlt. rewrite ltb_key.
  rewrite (represents_not_nan x vx Hx), (represents_not_nan y vy Hy).
  cbn [negb andb]. apply Z.ltb_lt.
  destruct (Z_lt_ge_dec (key x) (key y)) as [Hok | Hbad]; [ exact Hok | exfalso ].
  destruct (Z.eq_dec (key x) (key y)) as [Heq | Hne].
  - pose proof (key_eq_value x y vx vy Hx Hy Heq). lra.
  - pose proof (key_lt_value y x vy vx Hy Hx ltac:(lia)). lra.
Qed.

Lemma value_of_leb (x y : float) (vx vy : R) :
  represents x vx -> represents y vy -> (x <=? y)%float = true -> vx <= vy.
Proof.
  intros Hx Hy. rewrite leb_key.
  rewrite (represents_not_nan x vx Hx), (represents_not_nan y vy Hy).
  cbn [negb andb]. intros Hk. apply Z.leb_le in Hk.
  destruct (Z.eq_dec (key x) (key y)) as [Heq | Hne].
  - pose proof (key_eq_value x y vx vy Hx Hy Heq). lra.
  - pose proof (key_lt_value x y vx vy Hx Hy ltac:(lia)). lra.
Qed.

(** A number between two positive numbers is a positive number. *)
Lemma between_represents (lo hi x : float) (vlo vhi : R) :
  represents lo vlo -> represents hi vhi ->
  (lo <=? x)%float = true -> (x <=? hi)%float = true ->
  exists v, represents x v /\ vlo <= v <= vhi.
Proof.
  intros Hlo Hhi H1 H2.
  assert (Hx : exists m e, Prim2SF x = S754_finite false m e).
  { rewrite leb_key in H1, H2.
    rewrite (represents_not_nan lo vlo Hlo) in H1.
    rewrite (represents_not_nan hi vhi Hhi) in H2.
    destruct (is_nan x) eqn:Nx; [ discriminate H1 | ].
    cbn [negb andb] in H1, H2. apply Z.leb_le in H1, H2.
    destruct (represents_bounded lo vlo Hlo) as (ml & el & El & _ & Bl).
    destruct (represents_bounded hi vhi Hhi) as (mh & eh & Eh & _ & Bh).
    destruct (bounded_key ml el Bl) as [Hel Hml].
    destruct (bounded_key mh eh Bh) as [Heh Hmh].
    unfold key in H1, H2. rewrite El in H1. rewrite Eh in H2.
    rewrite is_nan_spec in Nx.
    pose proof (Prim2SF_valid x) as Vx.
    destruct (Prim2SF x) as [s | s | | s m e]; try discriminate Nx.
    - cbn [order_key] in H1. exfalso. nia.
    - cbn [order_key] in H1, H2. destruct s; exfalso.
      + assert (0 < 2 ^ 70)%Z by (apply Z.pow_pos_nonneg; lia). nia.
      + assert (E : (2 ^ 70 = 2 ^ 17 * 2 ^ 53)%Z) by reflexivity.
        assert (0 < 2 ^ 53)%Z by (apply Z.pow_pos_nonneg; lia).
        change (2 ^ 17)%Z with 131072%Z in E. nia.
    - cbn [SpecFloat.valid_binary] in Vx.
      destruct (bounded_key m e Vx) as [He Hm].
      cbn [order_key] in H1. destruct s; [ exfalso; nia | ].
      exists m, e. reflexivity. }
  destruct Hx as (m & e & Ex).
  exists (IZR (Z.pos m) * pow2 e).
  assert (Rx : represents x (IZR (Z.pos m) * pow2 e))
    by (exists m, e; split; [ exact Ex | reflexivity ]).
  split; [ exact Rx | ].
  split; [ apply (value_of_leb lo x _ _ Hlo Rx H1)
         | apply (value_of_leb x hi _ _ Rx Hhi H2) ].
Qed.

End OrderAndValue.

Section Integers.
Open Scope Z_scope.

(** A positive integer below 2^53 is a binary64 number. *)
Lemma binary_round_integer (p : positive) :
  Z.pos p < 2 ^ 53 ->
  let d := Zdigits2 (Z.pos p) in
  exists mz, Z.pos mz = Z.pos p * 2 ^ (53 - d) /\
    binary_round prec emax false p 0 = S754_finite false mz (d - 53) /\
    SpecFloat.bounded prec emax mz (d - 53) = true.
Proof.
  intros Hp d.
  pose proof (Zdigits2_bounds (Z.pos p) ltac:(lia)) as [D1 D2]. fold d in D1, D2.
  pose proof (Zdigits2_pos (Z.pos p) ltac:(lia)) as D0. fold d in D0.
  assert (Hd : d <= 53).
  { destruct (Z_le_gt_dec d 53) as [Hok | Hbad]; [ exact Hok | exfalso ].
    assert (2 ^ 53 <= 2 ^ (d - 1)) by (apply Z.pow_le_mono_r; lia). lia. }
  unfold binary_round.
  pose proof (shl_align_spec p 0 (fexp prec emax (Z.pos (digits2_pos p) + 0))) as Hs.
  destruct (shl_align p 0 (fexp prec emax (Z.pos (digits2_pos p) + 0))) as [mz ez].
  destruct Hs as [He Hm].
  rewrite fexp64_eq in He.
  change (Z.pos (digits2_pos p)) with d in He.
  assert (Eez : ez = d - 53) by (unfold fexp64 in He; lia).
  clear He. subst ez.
  replace (0 - (d - 53)) with (53 - d) in Hm by lia.
  assert (Hdz : Zdigits2 (Z.pos mz) = 53).
  { rewrite Hm, Zdigits2_shift by lia. fold d. lia. }
  pose proof (Zdigits2_bounds (Z.pos mz) ltac:(lia)) as [M1 M2].
  rewrite Hdz in M1, M2.
  exists mz. split; [ exact Hm | ].
  assert (Hk : fexp64 (Zdigits2 (Z.pos mz) + (d - 53)) - (d - 53) = 0).
  { rewrite Hdz. unfold fexp64. lia. }
  split.
  - rewrite (binary_round_aux_exact false (Z.pos mz) (d - 53) ltac:(lia)) by (rewrite Hk; lia).
    rewrite Hk, RN_0, Z.add_0_r.
    rewrite finish_result.
    + unfold rounded_result.
      destruct (Z.ltb_spec (Z.pos mz) (2 ^ 53)) as [_ | Hc]; [ | lia ].
      destruct (Z.leb_spec (d - 53) 971) as [_ | Hc]; [ reflexivity | lia ].
    + unfold rounded_ok. change (2 ^ 52) with 4503599627370496 in *.
      change (2 ^ 53) with 9007199254740992 in *. lia.
  - unfold SpecFloat.bounded, canonical_mantissa.
    apply andb_true_intro. split.
    + apply Z.eqb_eq. rewrite fexp64_eq.
      change (Z.pos (digits2_pos mz)) with (Zdigits2 (Z.pos mz)).
      rewrite Hdz. unfold fexp64. lia.
    + apply Z.leb_le. change (emax - prec) with 971. lia.
Qed.

End Integers.

Section RoundValue.
Open Scope R_scope.

Lemma of_Z_represents (n : Z) :
  (0 < n < 2 ^ 53)%Z -> represents (F64.of_Z n) (IZR n).
Proof.
  intros [Hn0 Hn1]. destruct n as [| p | p]; try lia.
  destruct (binary_round_integer p Hn1) as (mz & Hm & Hr & Hb).
  set (d := Zdigits2 (Z.pos p)) in *.
  pose proof (Zdigits2_bounds (Z.pos p) ltac:(lia)) as [D1 D2]. fold d in D1, D2.
  assert (Hd : (d <= 53)%Z).
  { destruct (Z_le_gt_dec d 53) as [Hok | Hbad]; [ exact Hok | exfalso ].
    assert (2 ^ 53 <= 2 ^ (d - 1))%Z by (apply Z.pow_le_mono_r; lia). lia. }
  exists mz, (d - 53)%Z. split.
  - unfold F64.of_Z. cbn [binary_normalize]. rewrite Hr.
    apply Prim2SF_SF2Prim. exact Hb.
  - rewrite Hm, mult_IZR, <- (pow2_IZR (53 - d)) by lia.
    rewrite Rmult_assoc, <- pow2_add.
    replace (53 - d + (d - 53))%Z with 0%Z by lia.
    unfold pow2. simpl. lra.
Qed.

(** [Math.round] of a positive number below 2^52 that is at least a
    half. *)
Lemma round_value (x : float) (v : R) :
  represents x v -> / 2 <= v -> v < IZR (2 ^ 52) ->
  exists n, (0 < n < 2 ^ 53)%Z /\ IZR n <= v + / 2 < IZR n + 1 /\
            F64.round x = F64.of_Z n.
Proof.
  intros Hx Hlo Hhi.
  destruct (represents_bounded x v Hx) as (m & e & Ex & Vx & Bx).
  destruct (bounded_facts m e Bx) as (He & Hd & Hn).
  pose proof (Zdigits2_bounds (Z.pos m) ltac:(lia)) as [D1 D2].
  assert (Hneg : (e < 0)%Z).
  { destruct (Z_lt_ge_dec e 0) as [Hok | Hbad]; [ exact Hok | exfalso ].
    rewrite (Hn ltac:(lia)) in D1.
    assert (IZR (2 ^ 52) <= v).
    { rewrite Vx. pose proof (pow2_ge_1 e ltac:(lia)).
      apply IZR_le in D1. change (53 - 1)%Z with 52%Z in D1.
      assert (0 < IZR (2 ^ 52)) by (apply IZR_lt; lia). nra. }
    lra. }
  set (j := (- e)%Z).
  assert (Hj : (0 < j)%Z) by (unfold j; lia).
  set (n := ((2 * Z.pos m + 2 ^ j) / 2 ^ (1 + j))%Z).
  assert (P1 : (0 < 2 ^ j)%Z) by (apply Z.pow_pos_nonneg; lia).
  assert (P2 : (2 ^ (1 + j) = 2 * 2 ^ j)%Z) by (rewrite Z.pow_add_r by lia; reflexivity).
  assert (N1 : (n * 2 ^ (1 + j) <= 2 * Z.pos m + 2 ^ j)%Z).
  { pose proof (Z.mul_div_le (2 * Z.pos m + 2 ^ j) (2 ^ (1 + j)) ltac:(lia)) as Hq.
    fold n in Hq. lia. }
  assert (N2 : (2 * Z.pos m + 2 ^ j < (n + 1) * 2 ^ (1 + j))%Z).
  { pose proof (Z.mul_succ_div_gt (2 * Z.pos m + 2 ^ j) (2 ^ (1 + j)) ltac:(lia)) as Hq.
    fold n in Hq. lia. }
  assert (Hv : v * IZR (2 ^ j) = IZR (Z.pos m)).
  { rewrite Vx, <- (pow2_IZR j) by lia. rewrite Rmult_assoc, <- pow2_add.
    replace (e + j)%Z with 0%Z by (unfold j; lia). unfold pow2. simpl. lra. }
  assert (Pj : 0 < IZR (2 ^ j)) by (apply IZR_lt; exact P1).
  assert (B1 : IZR n <= v + / 2).
  { apply Rmult_le_reg_r with (2 * IZR (2 ^ j)); [ lra | ].
    replace ((v + / 2) * (2 * IZR (2 ^ j))) with (2 * (v * IZR (2 ^ j)) + IZR (2 ^ j)) by field.
    rewrite Hv. rewrite P2 in N1. apply IZR_le in N1.
    rewrite plus_IZR, !mult_IZR in N1. lra. }
  assert (B2 : v + / 2 < IZR n + 1).
  { apply Rmult_lt_reg_r with (2 * IZR (2 ^ j)); [ lra | ].
    replace ((v + / 2) * (2 * IZR (2 ^ j))) with (2 * (v * IZR (2 ^ j)) + IZR (2 ^ j)) by field.
    rewrite Hv. rewrite P2 in N2. apply IZR_lt in N2.
    rewrite plus_IZR, !mult_IZR, plus_IZR in N2. lra. }
  assert (Hn0 : (0 < n)%Z).
  { apply lt_IZR. lra. }
  assert (Hn1 : (n < 2 ^ 53)%Z).
  { apply lt_IZR. change (2 ^ 53)%Z with 9007199254740992%Z.
    change (2 ^ 52)%Z with 4503599627370496%Z in Hhi. lra. }
  exists n. split; [ lia | ]. split; [ split; assumption | ].
  unfold F64.round. rewrite Ex.
  destruct (Z.leb_spec 0 e) as [Hc | _]; [ lia | ].
  replace (1 - e)%Z with (1 + j)%Z by (unfold j; lia).
  fold j. fold n.
  destruct (Z.eqb_spec n 0) as [Hc | _]; [ lia | reflexivity ].
Qed.

End RoundValue.

(** ** 8.5 Facts about real numbers *)

Section RealFacts.

Open Scope R_scope.

Lemma Rsqrt_4 : sqrt 4 = 2%R.
Proof.
  replace 4%R with (2 * 2)%R by lra. apply sqrt_square. lra.
Qed.

End RealFacts.

(** ** 8.6 Circumference *)

Section PerimeterFacts.

Context {num : Type} `{JSNumber num}.
Open Scope js_scope.

Lemma perimeter_is_ramanujan (depthFactor width : num) :
  perimeter depthFactor width
  = ramanujan_P (ramanujan_a width) (ramanujan_b depthFactor width).
Proof. reflexivity. Qed.

Lemma perimeter_h_approx (depthFactor width : num) :
  perimeter depthFactor width
  = Math_PI * (width / js_lit 2 0 + width * depthFactor / js_lit 2 0) *
    (js_lit 1 0 + js_lit 3 0 * h_approx depthFactor width /
       (js_lit 10 0 + Math_sqrt (js_lit 4 0 - js_lit 3 0 * h_approx depthFactor width))).
Proof. reflexivity. Qed.

Lemma calcCircumference_rounds_perimeter (depthFactor width : num) :
  calcCircumference depthFactor width = Math_round (perimeter depthFactor width).
Proof. reflexivity. Qed.

End PerimeterFacts.

(** C1 (refuted as stated): at width 80 cm and depth factor 0.70 the
    circumference the code returns is 215 cm; it is not within a centimetre
    of the 212 cm the claim gives. *)
Lemma C1_width_80_is_not_212 :
  calcCircumference 0.7%float 80%float = 215%float /\
  (PrimFloat.abs (calcCircumference 0.7 80 - 212) <=? 1)%float = false.
Proof. split; reflexivity. Qed.

(** C1 (amended): for every width and depth factor the circumference is
    the documented Ramanujan perimeter of the ellipse with semi-axes
    [a = w/2] and [b = w * depthFactor / 2], rounded to the nearest integer;
    for width 80 cm and depth factor 0.70 ([a = 40], [b = 28]) the
    perimeter is 215.29... and the circumference 215 cm. *)
Theorem C1_circumference_formula :
  (forall depthFactor w : float,
      calcCircumference depthFactor w
      = Math_round (ramanujan_P (ramanujan_a w) (ramanujan_b depthFactor w))) /\
  ramanujan_a 80%float = 40%float /\
  ramanujan_b 0.7%float 80%float = 28%float /\
  ramanujan_P 40%float 28%float = 215.29475925872634%float /\
  calcCircumference 0.7%float 80%float = 215%float.
Proof.
  split; [ intros; reflexivity | ].
  repeat split; reflexivity.
Qed.

(** ** 8.7 Validation of the oracle's answer *)

(** C2 (refuted as stated): an answer whose waist ratio is negative, whose
    hip ratio exceeds 1 and whose chest ratio is missing is accepted: no
    error is raised and a record is stored, with a negative waist width, a
    hip width of 2.55 m and a NaN chest width. *)
Lemma C2_invalid_ratios_are_accepted :
  let st := processImage (initial_state 170 70 30)
              (ReplyJSON (answer (JSNum (-0.5)) (JSNum 1.5) (JSNum 0.25)
                                 JSUndefined (JSNum 0.3) (JSNum 0.9))) in
  st_step st = result /\ st_error st = None /\
  exists m, st_measurements st = Some m /\
            waistWidth m = (-0.85)%float /\
            hipWidth m = 2.55%float /\
            PrimFloat.is_nan (chestWidth m) = true /\
            waistCircumference m = (-235)%float.
Proof.
  cbv zeta. split; [ reflexivity | split; [ reflexivity | ] ].
  eexists. split; [ reflexivity | ].
  repeat split; reflexivity.
Qed.

(** An answer of the kinds [AnalysisResponse] has is handled as the same
    answer among those of any shape. *)
Lemma processImage_parsed_of (st : AppState) (analysis : AnalysisResponse) :
  processImage st (ReplyJSON analysis) = processImage_parsed st (parsed_of analysis) /\
  processImage_simple st (ReplyJSON analysis)
  = processImage_simple_parsed st (parsed_of analysis).
Proof.
  destruct analysis as [[ratios | ] conf]; split; reflexivity.
Qed.

(** A conversion gives a number or throws. *)
Lemma convert_cases (v : Operand) :
  (exists x, convert v = Returns x) \/ v = Unconvertible.
Proof.
  destruct v as [v | x | ]; [ left | left | right ]; try reflexivity; eexists; reflexivity.
Qed.

(** When the four ratios convert, the block goes on as it does on the
    four numbers. *)
Lemma converted_is_stored (st : AppState)
    (waistRatio hipRatio shoulderRatio chestRatio : Operand)
    (waist hip shoulder chest : float) :
  converts_to waistRatio hipRatio shoulderRatio chestRatio waist hip shoulder chest ->
  let analysis := Measured waistRatio hipRatio shoulderRatio chestRatio in
  (st_step (processImage_parsed st analysis) = result /\
   st_error (processImage_parsed st analysis) = None /\
   measure_any (st_height st) (st_weight st) (st_age st) analysis
   = measure (st_height st) (st_weight st) (st_age st)
       (answer (JSNum waist) (JSNum hip) (JSNum shoulder) (JSNum chest)
               JSUndefined JSUndefined)) /\
  (st_step (processImage_simple_parsed st analysis) = result /\
   st_error (processImage_simple_parsed st analysis) = None /\
   measure_simple_any (st_height st) (st_weight st) analysis
   = measure_simple (st_height st) (st_weight st)
       (answer (JSNum waist) (JSNum hip) (JSNum shoulder) (JSNum chest)
               JSUndefined JSUndefined)).
Proof.
  intros (Hw & Hh & Hs & Hc) analysis. subst analysis.
  unfold processImage_parsed, processImage_simple_parsed, measure_any,
    measure_simple_any.
  rewrite Hw, Hh, Hs, Hc.
  split; (split; [ reflexivity | split; reflexivity ]).
Qed.

(** When one of them does not, the block throws. *)
Lemma unconvertible_fails (st : AppState)
    (waistRatio hipRatio shoulderRatio chestRatio : Operand) :
  one_throws waistRatio hipRatio shoulderRatio chestRatio ->
  let analysis := Measured waistRatio hipRatio shoulderRatio chestRatio in
  fails_keeping st (processImage_parsed st analysis) /\
  fails_keeping st (processImage_simple_parsed st analysis).
Proof.
  intros Hin analysis. subst analysis.
  assert (Hage : exists msg,
             measure_any (st_height st) (st_weight st) (st_age st)
               (Measured waistRatio hipRatio shoulderRatio chestRatio) = Throws msg).
  { unfold measure_any.
    destruct (convert_cases waistRatio) as [[w Hw] | ->]; [ | eexists; reflexivity ].
    destruct (convert_cases hipRatio) as [[h Hh] | ->];
      [ | rewrite Hw; eexists; reflexivity ].
    destruct (convert_cases shoulderRatio) as [[s Hs] | ->];
      [ | rewrite Hw, Hh; eexists; reflexivity ].
    destruct (convert_cases chestRatio) as [[c Hc] | ->];
      [ | rewrite Hw, Hh, Hs; eexists; reflexivity ].
    exfalso. unfold one_throws in Hin.
    destruct Hin as [E | [E | [E | [E | []]]]]; subst; discriminate. }
  assert (Hsimple : exists msg,
             measure_simple_any (st_height st) (st_weight st)
               (Measured waistRatio hipRatio shoulderRatio chestRatio) = Throws msg).
  { unfold measure_simple_any.
    destruct (convert_cases waistRatio) as [[w Hw] | ->]; [ | eexists; reflexivity ].
    destruct (convert_cases hipRatio) as [[h Hh] | ->];
      [ | rewrite Hw; eexists; reflexivity ].
    destruct (convert_cases shoulderRatio) as [[s Hs] | ->];
      [ | rewrite Hw, Hh; eexists; reflexivity ].
    destruct (convert_cases chestRatio) as [[c Hc] | ->];
      [ | rewrite Hw, Hh, Hs; eexists; reflexivity ].
    exfalso. unfold one_throws in Hin.
    destruct Hin as [E | [E | [E | [E | []]]]]; subst; discriminate. }
  destruct Hage as [msg Hage]. destruct Hsimple as [msg' Hsimple].
  unfold processImage_parsed, processImage_simple_parsed.
  rewrite Hage, Hsimple. unfold fails_keeping. cbn [settle st_step st_error st_measurements].
  repeat split; discriminate.
Qed.

(** C2 (amended): the ratio fields are not validated.  [processImage]
    converts the four ratios it multiplies -- waist, hip, shoulder and
    chest -- to numbers, as the operator [*] does, and checks nothing
    else.  For every answer that carries a [measurements] object, in both
    variants: when the four conversions go through, no error is raised and
    a record is stored whose four widths are the converted numbers times
    the height over 100; they go through for every field that is absent
    (NaN), [null] (0) or a number, a negative one or one above 1 included.
    The analysis fails -- the error message is set, the view returns to
    the camera and the record held before is left as it was -- when the
    request is rejected, when the reply is not JSON, when the parsed
    answer is [null], when [measurements] is absent or [null], and when
    the conversion of one of the four ratios throws. *)
Theorem C2_ratios_are_not_validated :
  (forall st ratios conf,
      let reply := ReplyJSON {| measurements := Some ratios; confidence := conf |} in
      stores_unvalidated st ratios (processImage st reply) /\
      stores_unvalidated st ratios (processImage_simple st reply)) /\
  (forall st msg conf,
      fails_keeping st (processImage st (RequestRejected msg)) /\
      fails_keeping st (processImage st ReplyNotJSON) /\
      fails_keeping st (processImage st
        (ReplyJSON {| measurements := None; confidence := conf |})) /\
      fails_keeping st (processImage_simple st (RequestRejected msg)) /\
      fails_keeping st (processImage_simple st ReplyNotJSON) /\
      fails_keeping st (processImage_simple st
        (ReplyJSON {| measurements := None; confidence := conf |}))) /\
  (forall st analysis,
      processImage st (ReplyJSON analysis)
      = processImage_parsed st (parsed_of analysis) /\
      processImage_simple st (ReplyJSON analysis)
      = processImage_simple_parsed st (parsed_of analysis)) /\
  (forall st waistRatio hipRatio shoulderRatio chestRatio,
      let analysis := Measured waistRatio hipRatio shoulderRatio chestRatio in
      (forall waist hip shoulder chest,
          converts_to waistRatio hipRatio shoulderRatio chestRatio
                      waist hip shoulder chest ->
          stores_widths st waist hip shoulder chest (processImage_parsed st analysis) /\
          stores_widths st waist hip shoulder chest
                        (processImage_simple_parsed st analysis)) /\
      (one_throws waistRatio hipRatio shoulderRatio chestRatio ->
          fails_keeping st (processImage_parsed st analysis) /\
          fails_keeping st (processImage_simple_parsed st analysis)) /\
      ((exists waist hip shoulder chest,
           converts_to waistRatio hipRatio shoulderRatio chestRatio
                       waist hip shoulder chest) \/
       one_throws waistRatio hipRatio shoulderRatio chestRatio)) /\
  (forall st,
      fails_keeping st (processImage_parsed st ParsedNull) /\
      fails_keeping st (processImage_parsed st MeasurementsAbsent) /\
      fails_keeping st (processImage_parsed st MeasurementsNull) /\
      fails_keeping st (processImage_simple_parsed st ParsedNull) /\
      fails_keeping st (processImage_simple_parsed st MeasurementsAbsent) /\
      fails_keeping st (processImage_simple_parsed st MeasurementsNull)).
Proof.
  split; [ | split; [ | split; [ | split ] ] ].
  - intros st ratios conf reply; split; unfold stores_unvalidated;
      (split; [ reflexivity | split; [ reflexivity | ] ]);
      eexists; (split; [ reflexivity | ]); repeat split; reflexivity.
  - intros st msg conf. unfold fails_keeping. cbn.
    repeat split; discriminate.
  - intros st analysis. apply processImage_parsed_of.
  - intros st waistRatio hipRatio shoulderRatio chestRatio analysis.
    split; [ | split ].
    + intros waist hip shoulder chest Hc.
      destruct (converted_is_stored st _ _ _ _ _ _ _ _ Hc)
        as [(S1 & E1 & M1) (S2 & E2 & M2)].
      fold analysis in S1, E1, M1, S2, E2, M2.
      unfold stores_widths.
      split; (split; [ assumption | split; [ assumption | ] ]).
      * unfold processImage_parsed. rewrite M1.
        eexists. split; [ reflexivity | ]. repeat split; reflexivity.
      * unfold processImage_simple_parsed. rewrite M2.
        eexists. split; [ reflexivity | ]. repeat split; reflexivity.
    + apply unconvertible_fails.
    + unfold converts_to, one_throws.
      destruct (convert_cases waistRatio) as [[w Hw] | ->]; [ | right; cbn; tauto ].
      destruct (convert_cases hipRatio) as [[h Hh] | ->]; [ | right; cbn; tauto ].
      destruct (convert_cases shoulderRatio) as [[s Hs] | ->]; [ | right; cbn; tauto ].
      destruct (convert_cases chestRatio) as [[c Hc] | ->]; [ | right; cbn; tauto ].
      left. exists w, h, s, c. repeat split; assumption.
  - intros st. unfold fails_keeping. cbn.
    repeat split; discriminate.
Qed.

(** ** 8.8 Division by zero in the indices *)

(** C3 (refuted as stated): with a hip ratio of 0.001 at 150 cm the hip
    circumference is 0; no error is raised, the record is stored and its
    [whr] is Infinity.  With a height of 0 the record is stored as well,
    with [whtr] NaN and [bmi] Infinity. *)
Lemma C3_zero_divisors_are_not_rejected :
  (let st := processImage (initial_state 150 70 30)
               (ReplyJSON (answer (JSNum 0.12) (JSNum 0.001) (JSNum 0.25)
                                  (JSNum 0.2) (JSNum 0.3) (JSNum 0.9))) in
   st_step st = result /\ st_error st = None /\
   exists m, st_measurements st = Some m /\
             hipCircumference m = 0%float /\ whr m = infinity) /\
  (let st := processImage (initial_state 0 70 30)
               (ReplyJSON (answer (JSNum 0.2) (JSNum 0.22) (JSNum 0.25)
                                  (JSNum 0.2) (JSNum 0.3) (JSNum 0.9))) in
   st_step st = result /\ st_error st = None /\
   exists m, st_measurements st = Some m /\
             height m = 0%float /\ PrimFloat.is_nan (whtr m) = true /\
             bmi m = infinity).
Proof.
  cbv zeta. split.
  - split; [ reflexivity | split; [ reflexivity | ] ].
    eexists. split; [ reflexivity | split; reflexivity ].
  - split; [ reflexivity | split; [ reflexivity | ] ].
    eexists. split; [ reflexivity | repeat split; reflexivity ].
Qed.

(** C3 (amended): the index computation has no zero check and raises
    nothing.  For every height, weight and age and every answer whose four
    ratios convert to numbers -- as they do when each is absent, [null] or
    a number -- both variants store a complete record in which [whr] is
    the quotient of the two circumferences and [whtr] the quotient of the
    waist circumference and the height, each through [toFixed(2)] and
    [Number], and [bmi] the weight over the squared height in metres
    through [toFixed(1)]; a zero divisor makes the quotient Infinity or
    NaN, which [toFixed] and [Number] hand on unchanged. *)
Theorem C3_indices_are_unguarded :
  (forall st ratios conf,
      let reply := ReplyJSON {| measurements := Some ratios; confidence := conf |} in
      stores_indices st (processImage st reply) /\
      stores_indices st (processImage_simple st reply)) /\
  (forall st waistRatio hipRatio shoulderRatio chestRatio waist hip shoulder chest,
      let analysis := Measured waistRatio hipRatio shoulderRatio chestRatio in
      converts_to waistRatio hipRatio shoulderRatio chestRatio
                  waist hip shoulder chest ->
      stores_indices st (processImage_parsed st analysis) /\
      stores_indices st (processImage_simple_parsed st analysis)) /\
  F64.Number (F64.toFixed infinity 2) = infinity /\
  F64.Number (F64.toFixed neg_infinity 2) = neg_infinity /\
  F64.Number (F64.toFixed nan 2) = nan /\
  (95 / 0 = infinity /\ 0 / 0 = nan /\ nan / 0 = nan)%float.
Proof.
  split; [ | split ].
  - intros st ratios conf reply; split; unfold stores_indices;
      (split; [ reflexivity | split; [ reflexivity | ] ]);
      eexists; (split; [ reflexivity | ]); repeat split; reflexivity.
  - intros st waistRatio hipRatio shoulderRatio chestRatio waist hip shoulder chest
           analysis Hc.
    destruct (converted_is_stored st _ _ _ _ _ _ _ _ Hc)
      as [(S1 & E1 & M1) (S2 & E2 & M2)].
    fold analysis in S1, E1, M1, S2, E2, M2.
    unfold stores_indices.
    split; (split; [ assumption | split; [ assumption | ] ]).
    + unfold processImage_parsed. rewrite M1.
      eexists. split; [ reflexivity | ]. repeat split; reflexivity.
    + unfold processImage_simple_parsed. rewrite M2.
      eexists. split; [ reflexivity | ]. repeat split; reflexivity.
  - repeat split; reflexivity.
Qed.

(** ** 8.9 The age step of the depth factor *)

Section AgeStep.

Open Scope R_scope.

(** C4 (refuted as stated): at 100 cm with waist and hip ratios of 0.1 the
    two widths are 10 cm, and the age-60 and the age-40 run both give a
    waist and a hip circumference of 28 cm: equal, not strictly larger. *)
Lemma C4_equal_circumferences_at_small_width :
  exists m60 m40,
    measure 100 70 60 (answer (JSNum 0.1) (JSNum 0.1) (JSNum 0.25) (JSNum 0.2)
                              (JSNum 0.3) (JSNum 0.9)) = Returns m60 /\
    measure 100 70 40 (answer (JSNum 0.1) (JSNum 0.1) (JSNum 0.25) (JSNum 0.2)
                              (JSNum 0.3) (JSNum 0.9)) = Returns m40 /\
    waistCircumference m60 = 28%float /\ waistCircumference m40 = 28%float /\
    hipCircumference m60 = 28%float /\ hipCircumference m40 = 28%float /\
    (waistCircumference m40 <? waistCircumference m60)%float = false /\
    (hipCircumference m40 <? hipCircumference m60)%float = false.
Proof.
  eexists. eexists.
  split; [ reflexivity | ]. split; [ reflexivity | ].
  repeat split; reflexivity.
Qed.

End AgeStep.

(** *** The perimeter of a width between 1 and 10^6

    Interval arithmetic along the operations of [perimeter], one rounding
    at a time: every intermediate result, divided by the power of the
    width it scales with, lies between two decimal numbers. *)

Ltac constant_bounds :=
  match goal with
  | |- (_ <= IZR (Z.pos ?m) * pow2 (Z.neg ?k) <= _)%R =>
      change (pow2 (Z.neg k)) with (pow2 (- Z.pos k));
      rewrite (pow2_neg (Z.pos k)) by lia;
      let p := eval vm_compute in (2 ^ Z.pos k)%Z in
      change (2 ^ Z.pos k)%Z with p;
      split; lra
  end.

Ltac interval_bounds := unfold tiny, huge, delta; split; lra.

Ltac scaled_by L Hx Hy :=
  eapply L; [ exact Hx | exact Hy | lia | first [ lra | interval_bounds ] .. ].

Ltac product_scaled L k1 k2 Hx Hy :=
  eapply (L _ _ k1 k2);
  [ exact Hx | exact Hy | lia | first [ lra | interval_bounds ] .. ].

Ltac root_scaled L Hx sl sh :=
  eapply (L _ _ _ sl sh); [ exact Hx | first [ lra | interval_bounds ] .. ].

Section PerimeterValue.

Open Scope R_scope.

Variable c : R.
Hypothesis c_range : 1 <= c <= 10 ^ 6.

(** The depth factor 0.7 of the simple variant. *)
Lemma perimeter_scaled_simple (w : float) :
  scaled c w 1 1 1 ->
  scaled c (h_approx 0.7%float w) 0 0.031141868512109931 0.031141868512111543 /\
  scaled c (perimeter 0.7%float w) 1 2.691184490734063893 2.691184490734094253.
Proof.
  intros Hw.
  assert (K1 : scaled c 1%float 0 1 1)
    by (apply (constant_scaled c _ 4503599627370496 (-52));
        [ reflexivity | constant_bounds ]).
  assert (K2 : scaled c 2%float 0 2 2)
    by (apply (constant_scaled c _ 4503599627370496 (-51));
        [ reflexivity | constant_bounds ]).
  assert (K3 : scaled c 3%float 0 3 3)
    by (apply (constant_scaled c _ 6755399441055744 (-51));
        [ reflexivity | constant_bounds ]).
  assert (K4 : scaled c 4%float 0 4 4)
    by (apply (constant_scaled c _ 4503599627370496 (-50));
        [ reflexivity | constant_bounds ]).
  assert (K10 : scaled c 10%float 0 10 10)
    by (apply (constant_scaled c _ 5629499534213120 (-49));
        [ reflexivity | constant_bounds ]).
  assert (KPI : scaled c F64.PI%float 0 3.141592653589793115 3.141592653589793116)
    by (apply (constant_scaled c _ 7074237752028440 (-51));
        [ reflexivity | constant_bounds ]).
  assert (KD : scaled c 0.7%float 0 0.699999999999999955 0.699999999999999956)
    by (apply (constant_scaled c _ 6305039478318694 (-53));
        [ reflexivity | constant_bounds ]).
  assert (Ha : scaled c (w / 2)%float 1 0.4999999999999995 0.5000000000000005)
    by (scaled_by (@div_scaled c c_range) Hw K2).
  assert (Hwd : scaled c (w * 0.7)%float 1 0.699999999999999255 0.700000000000000656)
    by (product_scaled (@mul_scaled c c_range) 1%nat 0%nat Hw KD).
  assert (Hb : scaled c (w * 0.7 / 2)%float 1 0.349999999999999277 0.350000000000000679)
    by (scaled_by (@div_scaled c c_range) Hwd K2).
  set (a := (w / 2)%float) in *. set (b := (w * 0.7 / 2)%float) in *.
  assert (Hs : scaled c (a + b)%float 1 0.849999999999997927 0.85000000000000203)
    by (scaled_by (@add_scaled c c_range) Ha Hb).
  assert (Ht : scaled c (a - b)%float 1 0.149999999999998671 0.150000000000001374)
    by (scaled_by (@sub_scaled c c_range) Ha Hb).
  assert (Ht2 : scaled c ((a - b) * (a - b))%float
            2 0.022499999999999578 0.022500000000000435)
    by (product_scaled (@mul_scaled c c_range) 1%nat 1%nat Ht Ht).
  assert (Hs2 : scaled c ((a + b) * (a + b))%float
            2 0.722499999999995753 0.722500000000004174)
    by (product_scaled (@mul_scaled c c_range) 1%nat 1%nat Hs Hs).
  assert (Hh : scaled c ((a - b) * (a - b) / ((a + b) * (a + b)))%float
            0 0.031141868512109931 0.031141868512111543)
    by (scaled_by (@ratio_scaled c c_range) Ht2 Hs2).
  set (h := ((a - b) * (a - b) / ((a + b) * (a + b)))%float) in *.
  assert (Hh3 : scaled c (3 * h)%float 0 0.093425605536329699 0.093425605536334723)
    by (product_scaled (@mul_scaled c c_range) 0%nat 0%nat K3 Hh).
  assert (Hu : scaled c (4 - 3 * h)%float 0 3.90657439446366137 3.906574394463674208)
    by (scaled_by (@sub_scaled c c_range) K4 Hh3).
  assert (Hr : scaled c (PrimFloat.sqrt (4 - 3 * h))%float
            0 1.976505601930754345 1.976505601930761547)
    by (root_scaled (@sqrt_scaled c c_range) Hu 1.976505601930756322 1.97650560193075957).
  set (r := PrimFloat.sqrt (4 - 3 * h)%float) in *.
  assert (Hv : scaled c (10 + r)%float 0 11.976505601930742368 11.976505601930773524)
    by (scaled_by (@add_scaled c c_range) K10 Hr).
  assert (Hq : scaled c (3 * h / (10 + r))%float
            0 0.007800739935467332 0.007800739935467788)
    by (scaled_by (@ratio_scaled c c_range) Hh3 Hv).
  assert (HK : scaled c (1 + 3 * h / (10 + r))%float
            0 1.007800739935466324 1.007800739935468796)
    by (scaled_by (@add_scaled c c_range) K1 Hq).
  assert (Hpa : scaled c (F64.PI * (a + b))%float
            1 2.670353755551314964 2.670353755551333197)
    by (product_scaled (@mul_scaled c c_range) 0%nat 1%nat KPI Hs).
  assert (HP : scaled c (F64.PI * (a + b) * (1 + 3 * h / (10 + r)))%float
            1 2.691184490734063893 2.691184490734094253)
    by (product_scaled (@mul_scaled c c_range) 1%nat 0%nat Hpa HK).
  split; [ exact Hh | exact HP ].
Qed.

(** The depth factor 0.75, of an age of 50 or less. *)
Lemma perimeter_scaled_at_40 (w : float) :
  scaled c w 1 1 1 ->
  scaled c (h_approx 0.75%float w) 0 0.020408163265305512 0.020408163265306733 /\
  scaled c (perimeter 0.75%float w) 1 2.762936520088442156 2.762936520088473102.
Proof.
  intros Hw.
  assert (K1 : scaled c 1%float 0 1 1)
    by (apply (constant_scaled c _ 4503599627370496 (-52));
        [ reflexivity | constant_bounds ]).
  assert (K2 : scaled c 2%float 0 2 2)
    by (apply (constant_scaled c _ 4503599627370496 (-51));
        [ reflexivity | constant_bounds ]).
  assert (K3 : scaled c 3%float 0 3 3)
    by (apply (constant_scaled c _ 6755399441055744 (-51));
        [ reflexivity | constant_bounds ]).
  assert (K4 : scaled c 4%float 0 4 4)
    by (apply (constant_scaled c _ 4503599627370496 (-50));
        [ reflexivity | constant_bounds ]).
  assert (K10 : scaled c 10%float 0 10 10)
    by (apply (constant_scaled c _ 5629499534213120 (-49));
        [ reflexivity | constant_bounds ]).
  assert (KPI : scaled c F64.PI%float 0 3.141592653589793115 3.141592653589793116)
    by (apply (constant_scaled c _ 7074237752028440 (-51));
        [ reflexivity | constant_bounds ]).
  assert (KD : scaled c 0.75%float 0 0.75 0.75)
    by (apply (constant_scaled c _ 6755399441055744 (-53));
        [ reflexivity | constant_bounds ]).
  assert (Ha : scaled c (w / 2)%float 1 0.4999999999999995 0.5000000000000005)
    by (scaled_by (@div_scaled c c_range) Hw K2).
  assert (Hwd : scaled c (w * 0.75)%float 1 0.74999999999999925 0.75000000000000075)
    by (product_scaled (@mul_scaled c c_range) 1%nat 0%nat Hw KD).
  assert (Hb : scaled c (w * 0.75 / 2)%float 1 0.37499999999999925 0.375000000000000751)
    by (scaled_by (@div_scaled c c_range) Hwd K2).
  set (a := (w / 2)%float) in *. set (b := (w * 0.75 / 2)%float) in *.
  assert (Hs : scaled c (a + b)%float 1 0.874999999999997875 0.875000000000002127)
    by (scaled_by (@add_scaled c c_range) Ha Hb).
  assert (Ht : scaled c (a - b)%float 1 0.124999999999998624 0.125000000000001376)
    by (scaled_by (@sub_scaled c c_range) Ha Hb).
  assert (Ht2 : scaled c ((a - b) * (a - b))%float
            2 0.01562499999999964 0.01562500000000036)
    by (product_scaled (@mul_scaled c c_range) 1%nat 1%nat Ht Ht).
  assert (Hs2 : scaled c ((a + b) * (a + b))%float
            2 0.765624999999995515 0.765625000000004488)
    by (product_scaled (@mul_scaled c c_range) 1%nat 1%nat Hs Hs).
  assert (Hh : scaled c ((a - b) * (a - b) / ((a + b) * (a + b)))%float
            0 0.020408163265305512 0.020408163265306733)
    by (scaled_by (@ratio_scaled c c_range) Ht2 Hs2).
  set (h := ((a - b) * (a - b) / ((a + b) * (a + b)))%float) in *.
  assert (Hh3 : scaled c (3 * h)%float 0 0.061224489795916474 0.061224489795920261)
    by (product_scaled (@mul_scaled c c_range) 0%nat 0%nat K3 Hh).
  assert (Hu : scaled c (4 - 3 * h)%float 0 3.9387755102040758 3.938775510204087465)
    by (scaled_by (@sub_scaled c c_range) K4 Hh3).
  assert (Hr : scaled c (PrimFloat.sqrt (4 - 3 * h))%float
            0 1.984634855635682903 1.984634855635689813)
    by (root_scaled (@sqrt_scaled c c_range) Hu 1.984634855635684888 1.984634855635687828).
  set (r := PrimFloat.sqrt (4 - 3 * h)%float) in *.
  assert (Hv : scaled c (10 + r)%float 0 11.984634855635670918 11.984634855635701798)
    by (scaled_by (@add_scaled c c_range) K10 Hr).
  assert (Hq : scaled c (3 * h / (10 + r))%float
            0 0.005108581991309144 0.005108581991309484)
    by (scaled_by (@ratio_scaled c c_range) Hh3 Hv).
  assert (HK : scaled c (1 + 3 * h / (10 + r))%float
            0 1.005108581991308138 1.00510858199131049)
    by (scaled_by (@add_scaled c c_range) K1 Hq).
  assert (Hpa : scaled c (F64.PI * (a + b))%float
            1 2.74889357189105955 2.748893571891078408)
    by (product_scaled (@mul_scaled c c_range) 0%nat 1%nat KPI Hs).
  assert (HP : scaled c (F64.PI * (a + b) * (1 + 3 * h / (10 + r)))%float
            1 2.762936520088442156 2.762936520088473102)
    by (product_scaled (@mul_scaled c c_range) 1%nat 0%nat Hpa HK).
  split; [ exact Hh | exact HP ].
Qed.

(** The depth factor 0.78, of an age above 50. *)
Lemma perimeter_scaled_at_60 (w : float) :
  scaled c w 1 1 1 ->
  scaled c (h_approx 0.78%float w) 0 0.015275849008963002 0.015275849008964019 /\
  scaled c (perimeter 0.78%float w) 1 2.806705580614640715 2.806705580614672041.
Proof.
  intros Hw.
  assert (K1 : scaled c 1%float 0 1 1)
    by (apply (constant_scaled c _ 4503599627370496 (-52));
        [ reflexivity | constant_bounds ]).
  assert (K2 : scaled c 2%float 0 2 2)
    by (apply (constant_scaled c _ 4503599627370496 (-51));
        [ reflexivity | constant_bounds ]).
  assert (K3 : scaled c 3%float 0 3 3)
    by (apply (constant_scaled c _ 6755399441055744 (-51));
        [ reflexivity | constant_bounds ]).
  assert (K4 : scaled c 4%float 0 4 4)
    by (apply (constant_scaled c _ 4503599627370496 (-50));
        [ reflexivity | constant_bounds ]).
  assert (K10 : scaled c 10%float 0 10 10)
    by (apply (constant_scaled c _ 5629499534213120 (-49));
        [ reflexivity | constant_bounds ]).
  assert (KPI : scaled c F64.PI%float 0 3.141592653589793115 3.141592653589793116)
    by (apply (constant_scaled c _ 7074237752028440 (-51));
        [ reflexivity | constant_bounds ]).
  assert (KD : scaled c 0.78%float 0 0.780000000000000026 0.780000000000000027)
    by (apply (constant_scaled c _ 7025615418697974 (-53));
        [ reflexivity | constant_bounds ]).
  assert (Ha : scaled c (w / 2)%float 1 0.4999999999999995 0.5000000000000005)
    by (scaled_by (@div_scaled c c_range) Hw K2).
  assert (Hwd : scaled c (w * 0.78)%float 1 0.779999999999999245 0.780000000000000808)
    by (product_scaled (@mul_scaled c c_range) 1%nat 0%nat Hw KD).
  assert (Hb : scaled c (w * 0.78 / 2)%float 1 0.389999999999999232 0.390000000000000795)
    by (scaled_by (@div_scaled c c_range) Hwd K2).
  set (a := (w / 2)%float) in *. set (b := (w * 0.78 / 2)%float) in *.
  assert (Hs : scaled c (a + b)%float 1 0.889999999999997842 0.890000000000002186)
    by (scaled_by (@add_scaled c c_range) Ha Hb).
  assert (Ht : scaled c (a - b)%float 1 0.109999999999998595 0.110000000000001379)
    by (scaled_by (@sub_scaled c c_range) Ha Hb).
  assert (Ht2 : scaled c ((a - b) * (a - b))%float
            2 0.012099999999999678 0.012100000000000316)
    by (product_scaled (@mul_scaled c c_range) 1%nat 1%nat Ht Ht).
  assert (Hs2 : scaled c ((a + b) * (a + b))%float
            2 0.792099999999995366 0.792100000000004684)
    by (product_scaled (@mul_scaled c c_range) 1%nat 1%nat Hs Hs).
  assert (Hh : scaled c ((a - b) * (a - b) / ((a + b) * (a + b)))%float
            0 0.015275849008963002 0.015275849008964019)
    by (scaled_by (@ratio_scaled c c_range) Ht2 Hs2).
  set (h := ((a - b) * (a - b) / ((a + b) * (a + b)))%float) in *.
  assert (Hh3 : scaled c (3 * h)%float 0 0.04582754702688896 0.045827547026892103)
    by (product_scaled (@mul_scaled c c_range) 0%nat 0%nat K3 Hh).
  assert (Hu : scaled c (4 - 3 * h)%float 0 3.954172452973103942 3.954172452973114995)
    by (scaled_by (@sub_scaled c c_range) K4 Hh3).
  assert (Hr : scaled c (PrimFloat.sqrt (4 - 3 * h))%float
            0 1.988510108843577398 1.988510108843584156)
    by (root_scaled (@sqrt_scaled c c_range) Hu 1.988510108843579387 1.988510108843582167).
  set (r := PrimFloat.sqrt (4 - 3 * h)%float) in *.
  assert (Hv : scaled c (10 + r)%float 0 11.988510108843565409 11.988510108843596145)
    by (scaled_by (@add_scaled c c_range) K10 Hr).
  assert (Hq : scaled c (3 * h / (10 + r))%float
            0 0.003822622378495822 0.003822622378496102)
    by (scaled_by (@ratio_scaled c c_range) Hh3 Hv).
  assert (HK : scaled c (1 + 3 * h / (10 + r))%float
            0 1.003822622378494818 1.003822622378497106)
    by (scaled_by (@add_scaled c c_range) K1 Hq).
  assert (Hpa : scaled c (F64.PI * (a + b))%float
            1 2.796017461694906296 2.796017461694925537)
    by (product_scaled (@mul_scaled c c_range) 0%nat 1%nat KPI Hs).
  assert (HP : scaled c (F64.PI * (a + b) * (1 + 3 * h / (10 + r)))%float
            1 2.806705580614640715 2.806705580614672041)
    by (product_scaled (@mul_scaled c c_range) 1%nat 0%nat Hpa HK).
  split; [ exact Hh | exact HP ].
Qed.
End PerimeterValue.

Section AgeStepBinary64.

Open Scope float_scope.

Lemma represents_1 : represents 1 1%R.
Proof.
  exists 4503599627370496%positive, (-52)%Z. split; [ reflexivity | ].
  change (pow2 (-52)) with (pow2 (- (52))). rewrite (pow2_neg 52) by lia.
  change (2 ^ 52)%Z with 4503599627370496%Z. field.
Qed.

Lemma represents_23 : represents 23 23%R.
Proof.
  exists 6473924464345088%positive, (-48)%Z. split; [ reflexivity | ].
  change (pow2 (-48)) with (pow2 (- (48))). rewrite (pow2_neg 48) by lia.
  change (2 ^ 48)%Z with 281474976710656%Z. field.
Qed.

Lemma represents_1000000 : represents 1000000 (10 ^ 6)%R.
Proof.
  exists 8589934592000000%positive, (-33)%Z. split; [ reflexivity | ].
  change (pow2 (-33)) with (pow2 (- (33))). rewrite (pow2_neg 33) by lia.
  change (2 ^ 33)%Z with 8589934592%Z. field.
Qed.

(** A width between 1 and 10^6 is a positive number of that value. *)
Lemma width_represents (w : float) :
  (1 <=? w) = true -> (w <=? 1000000) = true ->
  exists c, represents w c /\ (1 <= c <= 10 ^ 6)%R /\ scaled c w 1 1 1.
Proof.
  intros H1 H2.
  destruct (between_represents 1 1000000 w _ _ represents_1 represents_1000000 H1 H2)
    as (c & Rw & Hc).
  exists c. split; [ exact Rw | split; [ exact Hc | ] ].
  exists c. split; [ exact Rw | simpl; lra ].
Qed.

(** In binary64, for every width from 1 to 10^6, the circumference at the
    depth factor 0.78 is not smaller than the one at 0.75, and it is
    larger from 23 on: the two perimeters differ by more than 0.0437 times
    the width, which rounding errors of 10^-14 times the width do not
    change. *)
Lemma age_step_binary64 (w : float) :
  (1 <=? w) = true -> (w <=? 1000000) = true ->
  (calcCircumference 0.75 w <=? calcCircumference 0.78 w) = true /\
  ((23 <=? w) = true ->
   (calcCircumference 0.75 w <? calcCircumference 0.78 w) = true).
Proof.
  intros H1 H2.
  destruct (width_represents w H1 H2) as (c & Rw & Hc & Hw).
  destruct (perimeter_scaled_at_40 c Hc w Hw) as [_ (p40 & R40 & L40 & U40)].
  destruct (perimeter_scaled_at_60 c Hc w Hw) as [_ (p60 & R60 & L60 & U60)].
  simpl in L40, U40, L60, U60. rewrite Rmult_1_r in L40, U40, L60, U60.
  destruct (round_value _ p40 R40) as (n40 & N40 & [A40 B40] & E40);
    [ lra | change (2 ^ 52)%Z with 4503599627370496%Z; lra | ].
  destruct (round_value _ p60 R60) as (n60 & N60 & [A60 B60] & E60);
    [ lra | change (2 ^ 52)%Z with 4503599627370496%Z; lra | ].
  rewrite !calcCircumference_rounds_perimeter.
  change (Math_round (perimeter 0.75 w)) with (F64.round (perimeter 0.75 w)).
  change (Math_round (perimeter 0.78 w)) with (F64.round (perimeter 0.78 w)).
  rewrite E40, E60.
  pose proof (of_Z_represents n40 N40) as Z40.
  pose proof (of_Z_represents n60 N60) as Z60.
  split.
  - apply (leb_of_value _ _ _ _ Z40 Z60).
    apply IZR_le. apply Z.lt_succ_r. apply lt_IZR. rewrite succ_IZR. lra.
  - intros H23.
    pose proof (value_of_leb 23 w _ _ represents_23 Rw H23) as Hc23.
    apply (ltb_of_value _ _ _ _ Z40 Z60).
    apply IZR_lt. apply lt_IZR. lra.
Qed.

(** C4 (amended): the depth factor is 0.78 if [age > 50] and 0.75
    otherwise, and the two circumferences of a record are
    [calcCircumference] at that depth factor of the ratio times the
    height.  In binary64, for every width between 1 and 10^6 cm -- and so
    for the waist and the hip of every pair of records of the same ratios
    and height whose width is in that range -- the age-60 circumference
    is not smaller than the age-40 one, and it is strictly larger when
    the width is at least 23 cm: the adult of 170 cm
    with ratios 0.2 and 0.22 gets 95 and 105 cm at 60 against 94 and
    103 cm at 40.  Below 23 cm the two can be equal; at a negative width
    the age-60 circumference is the smaller one (-95 against -94 at
    -34 cm), and at a width of 1e160 both are NaN. *)
Theorem C4_age_step (age width : float) :
  (1 <=? width) = true -> (width <=? 1000000) = true ->
  depthFactor age = (if 50 <? age then 0.78 else 0.75) /\
  depthFactor 60 = 0.78 /\
  depthFactor 40 = 0.75 /\
  (calcCircumference (depthFactor 40) width
   <=? calcCircumference (depthFactor 60) width) = true /\
  ((23 <=? width) = true ->
   (calcCircumference (depthFactor 40) width
    <? calcCircumference (depthFactor 60) width) = true) /\
  (forall height weight ratios conf,
      exists m60 m40,
        measure height weight 60 {| measurements := Some ratios; confidence := conf |}
        = Returns m60 /\
        measure height weight 40 {| measurements := Some ratios; confidence := conf |}
        = Returns m40 /\
        waistCircumference m60
        = calcCircumference (depthFactor 60) (ToNumber (waistRatio ratios) * height) /\
        waistCircumference m40
        = calcCircumference (depthFactor 40) (ToNumber (waistRatio ratios) * height) /\
        hipCircumference m60
        = calcCircumference (depthFactor 60) (ToNumber (hipRatio ratios) * height) /\
        hipCircumference m40
        = calcCircumference (depthFactor 40) (ToNumber (hipRatio ratios) * height) /\
        age_step_at (ToNumber (waistRatio ratios) * height)
                    (waistCircumference m40) (waistCircumference m60) /\
        age_step_at (ToNumber (hipRatio ratios) * height)
                    (hipCircumference m40) (hipCircumference m60)) /\
  (exists m60 m40,
      measure 170 70 60 (answer (JSNum 0.2) (JSNum 0.22) (JSNum 0.25) (JSNum 0.2)
                                (JSNum 0.3) (JSNum 0.9)) = Returns m60 /\
      measure 170 70 40 (answer (JSNum 0.2) (JSNum 0.22) (JSNum 0.25) (JSNum 0.2)
                                (JSNum 0.3) (JSNum 0.9)) = Returns m40 /\
      waistCircumference m60 = 95 /\ waistCircumference m40 = 94 /\
      hipCircumference m60 = 105 /\ hipCircumference m40 = 103) /\
  (calcCircumference (depthFactor 40) (-34) = -94 /\
   calcCircumference (depthFactor 60) (-34) = -95) /\
  (is_nan (calcCircumference (depthFactor 40) 1e160) = true /\
   is_nan (calcCircumference (depthFactor 60) 1e160) = true).
Proof.
  intros H1 H2.
  destruct (age_step_binary64 width H1 H2) as [Hle Hlt].
  split; [ unfold depthFactor; cbn [js_lt js_lit F64.ops];
           change (F64.lit 50 0) with 50;
           destruct (50 <? age); reflexivity | ].
  split; [ reflexivity | ].
  split; [ reflexivity | ].
  change (depthFactor 40) with 0.75. change (depthFactor 60) with 0.78.
  split; [ exact Hle | ].
  split; [ exact Hlt | ].
  split.
  { intros height weight ratios conf. eexists. eexists.
    split; [ reflexivity | ]. split; [ reflexivity | ].
    cbn [waistCircumference hipCircumference].
    change (depthFactor 40) with 0.75. change (depthFactor 60) with 0.78.
    split; [ reflexivity | ]. split; [ reflexivity | ].
    split; [ reflexivity | ]. split; [ reflexivity | ].
    split; intros W1 W2; apply age_step_binary64; assumption. }
  split.
  { eexists. eexists.
    split; [ reflexivity | ]. split; [ reflexivity | ].
    repeat split; reflexivity. }
  split; split; reflexivity.
Qed.

Lemma C4_age_step_at_34cm :
  ((1 <=? 34) = true /\ (34 <=? 1000000) = true /\ (23 <=? 34) = true) /\
  (calcCircumference (depthFactor 40) 34
   <=? calcCircumference (depthFactor 60) 34) = true /\
  (calcCircumference (depthFactor 40) 34
   <? calcCircumference (depthFactor 60) 34) = true.
Proof.
  split; [ repeat split; reflexivity | ].
  destruct (C4_age_step 60 34 eq_refl eq_refl) as (_ & _ & _ & Hle & Hlt & _).
  split; [ exact Hle | apply Hlt; reflexivity ].
Defined.

End AgeStepBinary64.

(** ** 8.10 Body-mass index at the boundary *)

(** C5 (refuted as stated): at 170 cm and 53.4 kg the quotient is
    18.4775..., which [toFixed(1)] rounds to 18.5, not 18.4; the class is
    "NORMAL", not "BAJO PESO". *)
Lemma C5_weight_53_4_is_normal :
  exists m,
    measure 170 53.4 30 (answer (JSNum 0.2) (JSNum 0.22) (JSNum 0.25) (JSNum 0.2)
                                (JSNum 0.3) (JSNum 0.9)) = Returns m /\
    (53.4 / Math_pow2 (170 / 100) = 18.477508650519034)%float /\
    bmi m = 18.5%float /\ bmi m <> 18.4%float /\
    getBMIStatus (bmi m) = "NORMAL"%string /\
    getBMIStatus (bmi m) <> "BAJO PESO"%string.
Proof.
  eexists. split; [ reflexivity | ]. cbn [bmi].
  split; [ reflexivity | ].
  split; [ reflexivity | ].
  split.
  - intros E. apply (f_equal (fun x => PrimFloat.eqb x 18.5)) in E.
    vm_compute in E. discriminate E.
  - split; [ reflexivity | ]. vm_compute. discriminate.
Qed.

(** C5 (amended): at 170 cm, in both variants and whatever the ratios:
    53.5 kg gives a [bmi] of 18.5, classified "NORMAL" (the lower bound of
    the normal range is inclusive); 53.4 kg gives 18.5 as well, "NORMAL";
    53.3 kg is the first tenth of a kilogram below that gives 18.4,
    classified "BAJO PESO" (underweight). *)
Theorem C5_bmi_boundary :
  bmi_at_170 53.5 18.5 "NORMAL" /\
  bmi_at_170 53.4 18.5 "NORMAL" /\
  bmi_at_170 53.3 18.4 "BAJO PESO".
Proof.
  unfold bmi_at_170.
  repeat split; intros; eexists; eexists;
    (split; [ reflexivity | ]); (split; [ reflexivity | ]);
    cbn [bmi]; repeat split; reflexivity.
Qed.

(** ** 8.11 The head band at its two ends *)

Section HeadBand.

Open Scope float_scope.

(** At [headT = 0] and [headT = 1] the argument of the square root is
    exactly 0 in both variants. *)
Lemma head_radius_v1_ends (sf : float) :
  head_radius_v1 0 sf = 0 * sf /\ head_radius_v1 1 sf = 0 * sf.
Proof. split; reflexivity. Qed.

Lemma head_radius_v2_ends (sf : float) :
  head_radius_v2 0 sf
  = (if is_nan (0 * (0.08 * sf)) then 0.005 else 0 * (0.08 * sf)) /\
  head_radius_v2 1 sf
  = (if is_nan (0 * (0.08 * sf)) then 0.005 else 0 * (0.08 * sf)).
Proof. split; reflexivity. Qed.

(** The fallback makes the refined head radius a number whatever it is
    given. *)
Lemma head_radius_v2_not_NaN (headT sf : float) :
  is_nan (head_radius_v2 headT sf) = false.
Proof.
  unfold head_radius_v2. cbv zeta. cbn [isNaN F64.ops].
  match goal with
  | |- is_nan (if is_nan ?r then _ else _) = false => destruct (is_nan r) eqn:E
  end; [ reflexivity | exact E ].
Qed.

Lemma zero_mul_is_nan (y : float) : is_nan (0 * y) = negb (is_finite y).
Proof.
  rewrite is_nan_spec, is_finite_spec, zero_mul_spec.
  destruct (Prim2SF y); reflexivity.
Qed.

End HeadBand.

(** The three samples of the simple profile that lie in the head band
    (18, 19 and 20 of 20) have a radius that is not NaN, whatever the
    widths, when the scale factor is finite. *)
Lemma radius_v1_head_band_not_NaN (sf s c w h : float) (i : nat) :
  is_finite sf = true -> In i [18; 19; 20]%nat ->
  is_nan (radius_v1 sf s c w h (of_nat i / of_nat segments_v1)%js) = false.
Proof.
  intros Hfin Hin.
  destruct Hin as [<- | [<- | [<- | []]]];
    match goal with
    | |- is_nan (radius_v1 _ _ _ _ _ ?t) = false =>
        let k := eval vm_compute in
          (Math_sqrt (js_lit 1 0
             - Math_pow2 (((t - js_lit 9 1) / js_lit 1 1 - js_lit 5 1) * js_lit 2 0))
           * js_lit 1 1)%js in
        change (is_nan (k * sf)%float = false)
    end;
    (apply mul_not_nan; [ reflexivity | exact Hfin ]).
Qed.

(** The samples that fall on the ends of the head band: sample 18 of the
    simple profile is its start, sample 40 of the refined profile its end. *)
Lemma radius_v1_head_start (sf s c w h : float) :
  radius_v1 sf s c w h (of_nat 18 / of_nat segments_v1)%js = head_radius_v1 0%float sf.
Proof. reflexivity. Qed.

Lemma radius_v2_head_end (sf s c w h : float) :
  radius_v2 sf s c w h (of_nat 40 / of_nat density)%js = head_radius_v2 1%float sf.
Proof. reflexivity. Qed.

Section HeadBandEnds.

Open Scope float_scope.

(** C6 (refuted as stated): the simple variant has neither the clamp nor
    the fallback.  With an infinite scale factor its head radius at
    [headT = 0] and at [headT = 1] is [0 * Infinity], which is NaN; a
    record with that height is stored by the engine, and sample 18 of its
    simple profile -- the start of the head -- has a NaN radius. *)
Lemma C6_simple_head_is_NaN_at_infinite_scale :
  is_nan (head_radius_v1 0 infinity) = true /\
  is_nan (head_radius_v1 1 infinity) = true /\
  exists m,
    measure infinity 70 30 (answer (JSNum 0.2) (JSNum 0.22) (JSNum 0.25) (JSNum 0.2)
                                   (JSNum 0.3) (JSNum 0.9)) = Returns m /\
    radius_at (points_v1 m) 18 = head_radius_v1 0 (height m / 100) /\
    is_nan (radius_at (points_v1 m) 18) = true.
Proof.
  split; [ reflexivity | split; [ reflexivity | ] ].
  eexists. split; [ reflexivity | split; reflexivity ].
Qed.

(** C6 (amended): at [headT = 0] and at [headT = 1] the argument of the
    square root is exactly 0 in both variants, so the clamp has nothing to
    clamp there and the radius is [0] times a multiple of the scale
    factor.  In the refined variant that product is a zero, or NaN
    replaced by the fallback 0.005: the radius is never NaN, whatever the
    scale factor, at the two ends and at every other [headT].  The simple
    variant has no clamp and no fallback: its radius at the two ends is
    NaN exactly when the scale factor is not finite, and a zero otherwise.
    Of the four points the loops sample two: the head samples of the
    simple profile, 18 to 20 of 20, have [headT] 0, 0.4999... and 0.9999...
    (never 1), and those of the refined profile, 35 to 40 of 40, have
    [headT] 0.107... to 1 (never 0); with a finite scale factor none of
    the three samples of the simple profile is NaN. *)
Theorem C6_head_ends (scaleFactor : float) :
  (1 - Math_pow2 ((0 - 0.5) * 2) = 0 /\ 1 - Math_pow2 ((1 - 0.5) * 2) = 0 /\
   1 - Math_pow2 (0 * 2 - 1) = 0 /\ 1 - Math_pow2 (1 * 2 - 1) = 0) /\
  (well_defined_radius (head_radius_v2 0 scaleFactor) /\
   well_defined_radius (head_radius_v2 1 scaleFactor) /\
   forall headT, is_nan (head_radius_v2 headT scaleFactor) = false) /\
  (is_nan (head_radius_v1 0 scaleFactor) = negb (is_finite scaleFactor) /\
   is_nan (head_radius_v1 1 scaleFactor) = negb (is_finite scaleFactor)) /\
  (is_finite scaleFactor = true ->
   well_defined_radius (head_radius_v1 0 scaleFactor) /\
   well_defined_radius (head_radius_v1 1 scaleFactor) /\
   forall s c w h i, In i [18; 19; 20]%nat ->
     is_nan (radius_v1 scaleFactor s c w h (fraction segments_v1 i)) = false) /\
  ((fraction segments_v1 17 <? 0.9) = true /\
   map (fun i => (fraction segments_v1 i - 0.9) / 0.1) [18; 19; 20]%nat
   = [0; 0.49999999999999933; 0.99999999999999978] /\
   forall s c w h,
     radius_v1 scaleFactor s c w h (fraction segments_v1 18)
     = head_radius_v1 0 scaleFactor) /\
  ((0.86 <? fraction density 34) = false /\
   map (fun i => (fraction density i - 0.86) / (1 - 0.86)) [35; 36; 37; 38; 39; 40]%nat
   = [0.10714285714285723; 0.28571428571428592; 0.46428571428571463;
      0.64285714285714257; 0.82142857142857129; 1] /\
   forall s c w h,
     radius_v2 scaleFactor s c w h (fraction density 40)
     = head_radius_v2 1 scaleFactor).
Proof.
  destruct (head_radius_v1_ends scaleFactor) as [E0 E1].
  destruct (head_radius_v2_ends scaleFactor) as [F0 F1].
  assert (Hv2 : well_defined_radius
                  (if is_nan (0 * (0.08 * scaleFactor)) then 0.005
                   else 0 * (0.08 * scaleFactor))).
  { destruct (is_nan (0 * (0.08 * scaleFactor))) eqn:E.
    - split; [ reflexivity | right; reflexivity ].
    - split; [ exact E | left; apply zero_mul_not_nan; exact E ]. }
  split; [ repeat split; reflexivity | ].
  split.
  { rewrite F0, F1. split; [ exact Hv2 | split; [ exact Hv2 | ] ].
    intros headT. apply head_radius_v2_not_NaN. }
  split; [ rewrite E0, E1; split; apply zero_mul_is_nan | ].
  split.
  { intros Hfin. destruct (zero_mul_finite scaleFactor Hfin) as [Hn Hz].
    rewrite E0, E1.
    split; [ split; [ exact Hn | left; exact Hz ] | ].
    split; [ split; [ exact Hn | left; exact Hz ] | ].
    intros s c w h i Hi. apply radius_v1_head_band_not_NaN; assumption. }
  split.
  { split; [ reflexivity | ]. split; [ vm_compute; reflexivity | ].
    intros s c w h. reflexivity. }
  split; [ reflexivity | ]. split; [ vm_compute; reflexivity | ].
  intros s c w h. reflexivity.
Qed.

End HeadBandEnds.

(** ** 8.12 Heights of the profile *)

Lemma non_decreasing_map_seq {A : Type} (le : A -> A -> Prop) (g : nat -> A) :
  forall n a,
    (forall i, (a <= i)%nat -> (S i < a + n)%nat -> le (g i) (g (S i))) ->
    non_decreasing le (map g (seq a n)).
Proof.
  induction n as [| n IH]; intros a Hstep; [ exact I | ].
  destruct n as [| n]; [ exact I | ].
  change (le (g a) (g (S a)) /\ non_decreasing le (map g (seq (S a) (S n)))).
  split.
  - apply Hstep; lia.
  - apply IH. intros i Hi1 Hi2. apply Hstep; lia.
Qed.

(** The heights of the two profiles, as the loops compute them. *)
Lemma heights_v1 {num : Type} `{JSNumber num} (userHeight s c w h : num) :
  map vy (profile_v1 userHeight s c w h)
  = map (fun i => (of_nat i / of_nat segments_v1 * (userHeight / js_lit 100 0))%js)
        (seq 0 (S segments_v1)).
Proof. unfold profile_v1. rewrite map_map. reflexivity. Qed.

Lemma heights_v2 {num : Type} `{JSNumber num} (userHeight s c w h : num) :
  map vy (profile_v2 userHeight s c w h)
  = map (fun i => (of_nat i / of_nat density * (userHeight / js_lit 100 0))%js)
        (seq 0 (S density)).
Proof. unfold profile_v2. rewrite map_map. reflexivity. Qed.

Section HeightsBinary64.

Open Scope float_scope.

Lemma fractions_rise_20 : fractions_rise segments_v1 = true.
Proof. vm_compute. reflexivity. Qed.

Lemma fractions_rise_40 : fractions_rise density = true.
Proof. vm_compute. reflexivity. Qed.

Lemma height_step (n : nat) (sf : float) :
  fractions_rise n = true ->
  is_finite sf = true -> (0 <=? sf) = true ->
  forall i, (S i < 0 + S n)%nat ->
    (fraction n i * sf <=? fraction n (S i) * sf) = true.
Proof.
  intros Hrise Hfin Hpos i Hi.
  unfold fractions_rise in Hrise. rewrite forallb_forall in Hrise.
  assert (Hin : In i (seq 0 n)) by (apply in_seq; lia).
  specialize (Hrise i Hin).
  apply andb_prop in Hrise. destruct Hrise as [Hrise H3].
  apply andb_prop in Hrise. destruct Hrise as [H1 H2].
  apply mul_le_mono_nonneg_r; assumption.
Qed.

(** C7 (refuted as stated): the height of the form is stored unchecked.
    For a height of -170 the engine stores a record, and the heights of
    its profile fall from one point to the next: 0 (with a minus sign),
    -0.085, -0.17, ... down to -1.7. *)
Lemma C7_negative_height_falls :
  exists m,
    measure (-170) 70 30 (answer (JSNum 0.2) (JSNum 0.22) (JSNum 0.25) (JSNum 0.2)
                                 (JSNum 0.3) (JSNum 0.9)) = Returns m /\
    height m = (-170) /\
    map vy (firstn 3 (points_v1 m))
    = [neg_zero; -0.085000000000000006; -0.17000000000000001] /\
    map vy (firstn 3 (points_v2 m))
    = [neg_zero; -0.042500000000000003; -0.085000000000000006] /\
    last (map vy (points_v1 m)) 0 = (-1.7) /\
    last (map vy (points_v2 m)) 0 = (-1.7) /\
    ~ rises_to (height m / 100) (map vy (points_v1 m)) /\
    ~ rises_to (height m / 100) (map vy (points_v2 m)).
Proof.
  eexists. split; [ reflexivity | ].
  split; [ reflexivity | ].
  split; [ vm_compute; reflexivity | ].
  split; [ vm_compute; reflexivity | ].
  split; [ vm_compute; reflexivity | ].
  split; [ vm_compute; reflexivity | ].
  split; intros [[Hfall _] _]; vm_compute in Hfall; discriminate Hfall.
Qed.

(** C7 (amended): for every measurement record whose height is a finite
    number and not negative, the heights of the profile points, in either
    variant, never decrease from one point to the next, start at 0 and end
    at [height / 100] exactly; the simple profile has 21 points and the
    refined one 41. *)
Theorem C7_profile_heights (m : BodyMeasurements) :
  is_finite (height m) = true ->
  (0 <=? height m) = true ->
  rises_to (height m / 100) (map vy (points_v1 m)) /\
  rises_to (height m / 100) (map vy (points_v2 m)) /\
  List.length (points_v1 m) = 21%nat /\
  List.length (points_v2 m) = 41%nat.
Proof.
  intros HfinH HposH.
  destruct (div_100_finite (height m) HfinH) as [Hfin Hpos].
  specialize (Hpos HposH).
  set (sf := height m / 100) in *.
  destruct (zero_mul_finite sf Hfin) as [_ Hz].
  unfold points_v1, points_v2. rewrite heights_v1, heights_v2.
  change (height m / js_lit 100 0)%js with sf.
  split; [ | split; [ | split ] ].
  - split; [ | split ].
    + apply (non_decreasing_map_seq _ (fun i => fraction segments_v1 i * sf)).
      intros i _ Hi. apply height_step; try assumption. exact fractions_rise_20.
    + change ((0 * sf =? 0) = true). exact Hz.
    + change (1 * sf = sf). apply one_mul.
  - split; [ | split ].
    + apply (non_decreasing_map_seq _ (fun i => fraction density i * sf)).
      intros i _ Hi. apply height_step; try assumption. exact fractions_rise_40.
    + change ((0 * sf =? 0) = true). exact Hz.
    + change (1 * sf = sf). apply one_mul.
  - unfold profile_v1. rewrite length_map, length_seq. reflexivity.
  - unfold profile_v2. rewrite length_map, length_seq. reflexivity.
Qed.

Lemma C7_profile_heights_at_170cm :
  (is_finite (height sample_record) = true /\
   (0 <=? height sample_record) = true) /\
  rises_to (height sample_record / 100) (map vy (points_v1 sample_record)) /\
  rises_to (height sample_record / 100) (map vy (points_v2 sample_record)) /\
  List.length (points_v1 sample_record) = 21%nat /\
  List.length (points_v2 sample_record) = 41%nat.
Proof.
  split.
  - split; reflexivity.
  - apply (C7_profile_heights sample_record); reflexivity.
Defined.

End HeightsBinary64.
(** ** 8.13 The circle *)

Section Circle.

(** C8 (refuted as stated): at a width of 1e-200 the squares underflow to
    zero, [h] is 0/0 and the perimeter is NaN, not a multiple of the
    width. *)
Lemma C8_tiny_width_gives_NaN :
  is_finite 1e-200%float = true /\
  (0 <? 1e-200)%float = true /\
  Math_pow2 (1e-200 / 2 + 1e-200 * 1 / 2)%float = 0%float /\
  is_nan (h_approx 1%float 1e-200%float) = true /\
  is_nan (perimeter 1%float 1e-200%float) = true /\
  is_nan (calcCircumference 1%float 1e-200%float) = true.
Proof. repeat split; reflexivity. Qed.

(** Over the reals the formula is exact on the circle. *)
Lemma circle_exact (w : R) :
  (0 < w)%R ->
  h_approx 1%R w = 0%R /\ perimeter 1%R w = (2 * PI * (w / 2))%R.
Proof.
  intros Hw.
  assert (Hh : h_approx 1%R w = 0%R).
  { unfold h_approx. cbn.
    replace (w / (2 / 1) - w * 1 / (2 / 1))%R with 0%R by (field).
    unfold Rdiv. rewrite !Rmult_0_l. reflexivity. }
  split; [ exact Hh | ].
  rewrite perimeter_h_approx. rewrite Hh. cbn.
  replace (4 / 1 - 3 / 1 * 0)%R with 4%R by field.
  rewrite Rsqrt_4. field.
Qed.

(** C8 (amended): with depth factor 1.0, for every finite width whose
    squared sum [(a+b)^2] has not underflowed to zero, [b] is [a], [h] is 0
    and the perimeter before rounding is exactly [Math.PI * (a + a)], the
    correctly rounded product of pi and [2a]; over the reals, [h] is 0 and
    the perimeter is [2 pi a] for every width [w > 0]. *)
Theorem C8_circle_degeneracy (w : float) (x : R) :
  let a := (w / 2)%float in
  is_finite w = true ->
  (0 <? Math_pow2 (a + a))%float = true ->
  (0 < x)%R ->
  ((w * 1 / 2)%float = a /\
   h_approx 1%float w = 0%float /\
   perimeter 1%float w = (F64.PI * (a + a))%float) /\
  (h_approx 1%R x = 0%R /\
   perimeter 1%R x = (2 * PI * (x / 2))%R).
Proof.
  intros a Hfinw Hpos Hx.
  split; [ | apply circle_exact; exact Hx ].
  assert (Hfin : is_finite a = true) by (apply (div_2_finite w Hfinw)).
  assert (Hb : (w * 1 / 2)%float = a) by (rewrite mul_one; reflexivity).
  assert (Hh : h_approx 1%float w = 0%float).
  { unfold h_approx. cbv zeta. cbn [js_mul js_div js_sub js_add F64.ops].
    change (js_lit 2 0) with 2%float. rewrite Hb. fold a.
    unfold Math_pow2. cbn [js_mul F64.ops].
    rewrite (sub_self a Hfin).
    change (0 * 0)%float with 0%float.
    apply zero_div_pos. exact Hpos. }
  split; [ exact Hb | split; [ exact Hh | ] ].
  rewrite perimeter_h_approx. rewrite Hh.
  cbn [js_mul js_div js_sub js_add F64.ops Math_PI Math_sqrt].
  change (js_lit 2 0) with 2%float. rewrite Hb. fold a.
  match goal with
  | |- (_ * ?k)%float = _ => change k with 1%float
  end.
  apply mul_one.
Qed.

Lemma C8_circle_at_80cm :
  (is_finite 80%float = true /\
   (0 <? Math_pow2 (80 / 2 + 80 / 2))%float = true /\
   (0 < 80)%R) /\
  ((80 * 1 / 2)%float = (80 / 2)%float /\
   h_approx 1%float 80%float = 0%float /\
   perimeter 1%float 80%float = (F64.PI * (80 / 2 + 80 / 2))%float) /\
  (h_approx 1%R 80%R = 0%R /\
   perimeter 1%R 80%R = (2 * PI * (80 / 2))%R).
Proof.
  split.
  - split; [ reflexivity | split; [ reflexivity | lra ] ].
  - apply (C8_circle_degeneracy 80%float 80%R); [ reflexivity | reflexivity | lra ].
Defined.

End Circle.

(** ** 8.14 What the OBJ export contains *)

Lemma points_v2_length (m : BodyMeasurements) : List.length (points_v2 m) = 41.
Proof.
  unfold points_v2, profile_v2. rewrite length_map, length_seq. reflexivity.
Qed.

(** C9 (refuted as stated): it is not so that every block of the exported
    text is written from the body mesh: the export of the scene of a
    170 cm adult has five blocks, and the last four are written from the
    three tapes and the floor grid. *)
Lemma C9_export_is_not_mesh_only :
  ~ (forall m, exists d,
        exportToOBJ OBJExporter_parse (Some (build_model m)) = Some d /\
        forall b, In b (blob d) -> is_body_mesh (written_from b) = true).
Proof.
  intros Hall.
  destruct (Hall sample_record) as [d [Hd Hmesh]].
  injection Hd as <-.
  assert (Habs : is_body_mesh (GridHelper 6 30) = true).
  { apply (Hmesh {| written_from := GridHelper 6 30; v_lines := 124; f_lines := 0 |}).
    do 4 right. left. reflexivity. }
  discriminate Habs.
Qed.

(** C9 (amended): the export serialises the whole model group.  For every
    measurement record, whatever the exporter, the text offered as
    'Body3DMetric_Scan.obj' is the exporter's text of the group whose five
    children are, in order, the body mesh, the chest, waist and hip tapes
    and the floor grid; with the three.js exporter it holds five blocks:
    the body mesh with its 2009 vertices and 3840 faces, the three tapes
    with 65 vertices each, and the grid with 124 vertices.  Before the
    scene exists nothing is exported. *)
Theorem C9_export_contents :
  (forall (Text : Type) (parse : Group -> Text) m,
      exportToOBJ parse (Some (build_model m))
      = Some {| download := "Body3DMetric_Scan.obj";
                blob_type := "text/plain";
                blob := parse (build_model m) |}) /\
  (forall m,
      nth_error (children (build_model m)) 0 = Some (Mesh (points_v2 m) 48) /\
      map is_body_mesh (children (build_model m))
      = [ true; false; false; false; false ] /\
      map written_from (OBJExporter_parse (build_model m))
      = children (build_model m) /\
      map block_summary (OBJExporter_parse (build_model m))
      = [ (true, 2009, 3840); (false, 65, 0); (false, 65, 0); (false, 65, 0);
          (false, 124, 0) ]) /\
  (forall (Text : Type) (parse : Group -> Text), exportToOBJ parse None = None).
Proof.
  split; [ intros; reflexivity | ].
  split; [ | intros; reflexivity ].
  intros m.
  split; [ reflexivity | ].
  split; [ reflexivity | ].
  split; [ reflexivity | ].
  cbn [map build_model children OBJExporter_parse block_summary
       written_from v_lines f_lines is_body_mesh vertex_count face_count createTape].
  rewrite points_v2_length. reflexivity.
Qed.

(** ** 8.15 The confidence of the oracle *)

(** C10 (refuted as stated): no reading of the stored record returns the
    confidence of the answer it was computed from: two answers that differ
    in nothing but their confidence store the same record. *)
Lemma C10_confidence_is_not_in_the_record :
  ~ exists get : BodyMeasurements -> JSValue,
      forall st analysis m,
        st_measurements (processImage st (ReplyJSON analysis)) = Some m ->
        get m = confidence analysis.
Proof.
  intros [get Hget].
  pose (st := initial_state 170 70 30).
  pose (a1 := answer (JSNum 0.2) (JSNum 0.22) (JSNum 0.25) (JSNum 0.2) (JSNum 0.3)
                     (JSNum 0.9)).
  pose (a2 := answer (JSNum 0.2) (JSNum 0.22) (JSNum 0.25) (JSNum 0.2) (JSNum 0.3)
                     (JSNum 0.1)).
  pose proof (Hget st a1 _ eq_refl) as H1.
  pose proof (Hget st a2 _ eq_refl) as H2.
  assert (E : confidence a1 = confidence a2) by (rewrite <- H1; exact H2).
  apply (f_equal (fun v => match v with JSNum x => PrimFloat.eqb x 0.9 | _ => false end)) in E.
  vm_compute in E. discriminate E.
Qed.

(** C10 (amended): the confidence is read from nowhere.  The measurement
    record has no field for it, and for every state and every two answers
    with the same [measurements] the state after the analysis is the same,
    whatever the two confidence values are -- in both variants. *)
Theorem C10_confidence_is_dropped :
  forall st ms c1 c2,
    processImage st (ReplyJSON {| measurements := ms; confidence := c1 |})
    = processImage st (ReplyJSON {| measurements := ms; confidence := c2 |}) /\
    processImage_simple st (ReplyJSON {| measurements := ms; confidence := c1 |})
    = processImage_simple st (ReplyJSON {| measurements := ms; confidence := c2 |}).
Proof.
  intros st ms c1 c2. split; reflexivity.
Qed.

(* ================================================================== *)
(** * 9. Further properties of the code *)
(* ================================================================== *)

(** ** 9.1 The categories of the three indices *)

Section Classification.

Open Scope float_scope.

(** Comparisons with a literal, read on the keys. *)
Ltac literal_key c :=
  let n := eval vm_compute in (is_nan c) in
  change (is_nan c) with n;
  let k := eval vm_compute in (key c) in
  change (key c) with k.

Ltac split_iffs :=
  repeat match goal with
  | |- _ /\ _ => split
  | |- _ <-> _ => split
  end.

Ltac settle_side :=
  let Hx := fresh "Hx" in
  let Hy := fresh "Hy" in
  intros Hx;
  first [ discriminate Hx
        | reflexivity
        | match type of Hx with
          | _ \/ _ => destruct Hx as [Hx | Hx]; discriminate Hx
          | _ /\ _ => destruct Hx as [Hx Hy]; (discriminate Hx || discriminate Hy)
          end
        | split; reflexivity
        | left; reflexivity
        | right; reflexivity ].

Ltac split_order :=
  repeat match goal with
  | |- context [Z.ltb ?a ?b] => destruct (Z.ltb_spec a b)
  | |- context [Z.leb ?a ?b] => destruct (Z.leb_spec a b)
  end.

(** X1: [getBMIStatus] gives "BAJO PESO" exactly below 18.5, "NORMAL"
    exactly from 18.5 (included) to 25 (excluded), "SOBREPESO" exactly from
    25 (included) to 30 (excluded), and "OBESIDAD" exactly from 30 on and
    for NaN. *)
Theorem getBMIStatus_intervals (val : float) :
  (getBMIStatus val = "BAJO PESO"%string <-> (val <? 18.5) = true) /\
  (getBMIStatus val = "NORMAL"%string
   <-> (18.5 <=? val) = true /\ (val <? 25) = true) /\
  (getBMIStatus val = "SOBREPESO"%string
   <-> (25 <=? val) = true /\ (val <? 30) = true) /\
  (getBMIStatus val = "OBESIDAD"%string
   <-> (30 <=? val) = true \/ is_nan val = true).
Proof.
  unfold getBMIStatus. rewrite !ltb_key, !leb_key.
  literal_key 18.5. literal_key 25. literal_key 30.
  destruct (is_nan val); cbn [negb andb].
  - split_iffs; settle_side.
  - split_order; try lia; split_iffs; settle_side.
Qed.

(** X2: [getWHRStatus] gives "BAJO RIESGO" exactly up to 0.85 (included),
    "RIESGO MEDIO" exactly above 0.85 and up to 0.95 (included), and
    "RIESGO ALTO" exactly above 0.95 and for NaN; [getWHtRStatus] gives
    "SALUDABLE" exactly up to 0.5 (included) and "RIESGO ELEVADO" exactly
    above 0.5 and for NaN. *)
Theorem risk_status_intervals (val : float) :
  (getWHRStatus val = "BAJO RIESGO"%string <-> (val <=? 0.85) = true) /\
  (getWHRStatus val = "RIESGO MEDIO"%string
   <-> (0.85 <? val) = true /\ (val <=? 0.95) = true) /\
  (getWHRStatus val = "RIESGO ALTO"%string
   <-> (0.95 <? val) = true \/ is_nan val = true) /\
  (getWHtRStatus val = "SALUDABLE"%string <-> (val <=? 0.5) = true) /\
  (getWHtRStatus val = "RIESGO ELEVADO"%string
   <-> (0.5 <? val) = true \/ is_nan val = true).
Proof.
  unfold getWHRStatus, getWHtRStatus. rewrite !ltb_key, !leb_key.
  literal_key 0.85. literal_key 0.95. literal_key 0.5.
  destruct (is_nan val); cbn [negb andb].
  - split_iffs; settle_side.
  - split_order; try lia; split_iffs; settle_side.
Qed.

Lemma leb_keys (a b : float) :
  (a <=? b) = true -> is_nan a = false /\ is_nan b = false /\ (key a <= key b)%Z.
Proof.
  rewrite leb_key. intros Hab.
  apply andb_prop in Hab. destruct Hab as [Hn Hab].
  apply andb_prop in Hn. destruct Hn as [Na Nb].
  apply negb_true_iff in Na, Nb. apply Z.leb_le in Hab.
  split; [ exact Na | split; [ exact Nb | exact Hab ] ].
Qed.

Lemma getBMIStatus_monotone (a b : float) :
  (a <=? b) = true ->
  (BMI_rank (getBMIStatus a) <= BMI_rank (getBMIStatus b))%nat.
Proof.
  intros Hab. destruct (leb_keys a b Hab) as (Na & Nb & Hk).
  unfold getBMIStatus. rewrite !ltb_key, Na, Nb.
  literal_key 18.5. literal_key 25. literal_key 30.
  cbn [negb andb]. split_order; try lia; cbn; lia.
Qed.

Lemma getWHRStatus_monotone (a b : float) :
  (a <=? b) = true ->
  (WHR_rank (getWHRStatus a) <= WHR_rank (getWHRStatus b))%nat.
Proof.
  intros Hab. destruct (leb_keys a b Hab) as (Na & Nb & Hk).
  unfold getWHRStatus. rewrite !leb_key, Na, Nb.
  literal_key 0.85. literal_key 0.95.
  cbn [negb andb]. split_order; try lia; cbn; lia.
Qed.

Lemma getWHtRStatus_monotone (a b : float) :
  (a <=? b) = true ->
  (WHtR_rank (getWHtRStatus a) <= WHtR_rank (getWHtRStatus b))%nat.
Proof.
  intros Hab. destruct (leb_keys a b Hab) as (Na & Nb & Hk).
  unfold getWHtRStatus. rewrite !leb_key, Na, Nb.
  literal_key 0.5.
  cbn [negb andb]. split_order; try lia; cbn; lia.
Qed.

(** X3: a larger index never gets a lower category: if [a <= b] then the
    category of [a] is at most that of [b], for each of the three
    classifications. *)
Theorem classification_is_monotone (a b : float) :
  (a <=? b) = true ->
  (BMI_rank (getBMIStatus a) <= BMI_rank (getBMIStatus b))%nat /\
  (WHR_rank (getWHRStatus a) <= WHR_rank (getWHRStatus b))%nat /\
  (WHtR_rank (getWHtRStatus a) <= WHtR_rank (getWHtRStatus b))%nat.
Proof.
  intros Hab.
  split; [ apply getBMIStatus_monotone; exact Hab | ].
  split; [ apply getWHRStatus_monotone; exact Hab
         | apply getWHtRStatus_monotone; exact Hab ].
Qed.

Lemma classification_is_monotone_from_18_4_to_31 :
  (18.4 <=? 31) = true /\
  (BMI_rank (getBMIStatus 18.4) <= BMI_rank (getBMIStatus 31))%nat /\
  (WHR_rank (getWHRStatus 18.4) <= WHR_rank (getWHRStatus 31))%nat /\
  (WHtR_rank (getWHtRStatus 18.4) <= WHtR_rank (getWHtRStatus 31))%nat.
Proof.
  split; [ reflexivity | ].
  apply (classification_is_monotone 18.4 31). reflexivity.
Defined.

End Classification.

(** ** 9.2 Signs of sums and products *)

Section RoundingSign.

Open Scope Z_scope.

(** Shifting right keeps a mantissa non-negative. *)
Lemma shr_m_nonneg (mrs : shr_record) (e n : Z) :
  0 <= shr_m mrs -> 0 <= shr_m (fst (shr mrs e n)).
Proof.
  intros Hm. destruct n as [| p | p]; cbn [shr fst]; try exact Hm.
  rewrite iter_pos_nat, iter_shr_1_m by exact Hm.
  apply Z.div_pos; [ exact Hm | apply Z.pow_pos_nonneg; lia ].
Qed.

Lemma shr_record_of_loc_m (m : Z) (l : location) : shr_m (shr_record_of_loc m l) = m.
Proof. destruct l as [| [ | | ]]; reflexivity. Qed.

(** Rounding a non-negative mantissa gives a zero, a finite number or an
    infinity of the sign asked for: never NaN. *)
Lemma binary_round_aux_sign (s : bool) (M E : Z) (l : location) :
  0 <= M ->
  match binary_round_aux prec emax s M E l with
  | S754_zero s' | S754_infinity s' | S754_finite s' _ _ => s' = s
  | S754_nan => False
  end.
Proof.
  intros HM. unfold binary_round_aux, shr_fexp.
  pose proof (shr_m_nonneg (shr_record_of_loc M l) E
                (fexp prec emax (Zdigits2 M + E) - E)) as H1.
  rewrite shr_record_of_loc_m in H1. specialize (H1 HM).
  destruct (shr (shr_record_of_loc M l) E (fexp prec emax (Zdigits2 M + E) - E))
    as [mrs' e'].
  cbn [fst] in H1.
  pose proof (round_nearest_even_bounds (shr_m mrs') (loc_of_shr_record mrs')) as [H2 _].
  set (r := round_nearest_even (shr_m mrs') (loc_of_shr_record mrs')) in *.
  pose proof (shr_m_nonneg (shr_record_of_loc r loc_Exact) e'
                (fexp prec emax (Zdigits2 r + e') - e')) as H3.
  rewrite shr_record_of_loc_m in H3. specialize (H3 ltac:(lia)).
  destruct (shr (shr_record_of_loc r loc_Exact) e' (fexp prec emax (Zdigits2 r + e') - e'))
    as [mrs'' e''].
  cbn [fst] in H3.
  destruct (shr_m mrs'') as [| m | m]; [ reflexivity | | lia ].
  destruct (e'' <=? emax - prec); reflexivity.
Qed.

End RoundingSign.

Section Binary64Sign.

Open Scope float_scope.

(** The sum of two numbers that are not negative is not negative, and so
    not NaN. *)
Lemma add_nonneg (x y : float) :
  (0 <=? x) = true -> (0 <=? y) = true -> (0 <=? x + y) = true.
Proof.
  rewrite !FloatAxioms.leb_spec, add_spec.
  change (Prim2SF 0) with (S754_zero false).
  destruct (Prim2SF x) as [[|] | [|] | | [|] mx ex];
    destruct (Prim2SF y) as [[|] | [|] | | [|] my ey];
    intros Hx Hy; try discriminate Hx; try discriminate Hy; try reflexivity.
  unfold SF64add, SFadd. cbn [cond_Zopp Z.add].
  unfold binary_normalize, binary_round.
  destruct (shl_align _ _ _) as [mz ez].
  pose proof (binary_round_aux_sign false (Z.pos mz) ez loc_Exact ltac:(lia)) as Hs.
  destruct (binary_round_aux prec emax false (Z.pos mz) ez loc_Exact) as [s | s | | s m e];
    try contradiction; subst s; reflexivity.
Qed.

(** The product of two finite numbers that are not negative is not
    negative, and so not NaN. *)
Lemma mul_nonneg (x y : float) :
  (0 <=? x) = true -> is_finite x = true ->
  (0 <=? y) = true -> is_finite y = true ->
  (0 <=? x * y) = true.
Proof.
  rewrite !FloatAxioms.leb_spec, !is_finite_spec, mul_spec.
  change (Prim2SF 0) with (S754_zero false).
  pose proof (Prim2SF_valid x) as Vx.
  pose proof (Prim2SF_valid y) as Vy.
  destruct (Prim2SF x) as [[|] | [|] | | [|] mx ex];
    destruct (Prim2SF y) as [[|] | [|] | | [|] my ey];
    intros Hx Fx Hy Fy; try discriminate Hx; try discriminate Hy;
    try discriminate Fx; try discriminate Fy; try reflexivity.
  apply (SFmul_nonneg mx my ex ey Vx Vy false).
Qed.

(** A number between zero and a finite number is finite. *)
Lemma le_finite (a b : float) :
  (0 <=? a) = true -> (a <=? b) = true -> is_finite b = true -> is_finite a = true.
Proof.
  rewrite !FloatAxioms.leb_spec, !is_finite_spec.
  change (Prim2SF 0) with (S754_zero false).
  destruct (Prim2SF a) as [[|] | [|] | | [|] ma ea];
    destruct (Prim2SF b) as [[|] | [|] | | [|] mb eb];
    intros H0 Hab Hb; try discriminate H0; try discriminate Hab;
    try discriminate Hb; reflexivity.
Qed.

(** Scaling a drawable length by a factor between 0 and 1 gives a drawable
    length: there is no overflow. *)
Lemma scale_down (c v : float) :
  (0 <=? c) = true -> (c <=? 1) = true ->
  (0 <=? v) = true -> is_finite v = true ->
  is_finite (c * v) = true /\ (0 <=? c * v) = true.
Proof.
  intros H0c Hc1 H0v Fv.
  assert (Fc : is_finite c = true) by (apply (le_finite c 1 H0c Hc1); reflexivity).
  assert (Hpos : (0 <=? c * v) = true) by (apply mul_nonneg; assumption).
  split; [ | exact Hpos ].
  apply (le_finite (c * v) v Hpos); [ | exact Fv ].
  rewrite <- (one_mul v) at 2.
  apply mul_le_mono_nonneg_r; try assumption; reflexivity.
Qed.

Lemma scale_down_r (c v : float) :
  (0 <=? c) = true -> (c <=? 1) = true ->
  (0 <=? v) = true -> is_finite v = true ->
  is_finite (v * c) = true /\ (0 <=? v * c) = true.
Proof. rewrite (mul_comm v c). apply scale_down. Qed.

End Binary64Sign.

(** ** 9.3 NaN, zeros and quotients *)

Section Binary64Special.

Open Scope float_scope.

Lemma nan_unique (x : float) : is_nan x = true -> x = nan.
Proof.
  rewrite is_nan_spec. intros H. apply Prim2SF_inj.
  destruct (Prim2SF x); try discriminate H. reflexivity.
Qed.

Lemma zero_cases (x : float) : (x =? 0) = true -> x = 0 \/ x = neg_zero.
Proof.
  rewrite is_zero_spec. intros H.
  destruct (Prim2SF x) as [[|] | | |] eqn:E; try discriminate H.
  - right. apply Prim2SF_inj. rewrite E. reflexivity.
  - left. apply Prim2SF_inj. rewrite E. reflexivity.
Qed.

Lemma nan_mul (y : float) : nan * y = nan.
Proof. apply Prim2SF_inj. rewrite mul_spec. reflexivity. Qed.

Lemma nan_div (y : float) : nan / y = nan.
Proof. apply Prim2SF_inj. rewrite div_spec. reflexivity. Qed.

(** A zero times a finite number is a zero. *)
Lemma mul_zero_finite (x y : float) :
  (x =? 0) = true -> is_finite y = true -> (x * y =? 0) = true.
Proof.
  rewrite !is_zero_spec, is_finite_spec, mul_spec.
  destruct (Prim2SF x) as [sx | | |]; intros Hx; try discriminate Hx.
  destruct (Prim2SF y) as [sy | sy | | sy my ey]; intros Hy; try discriminate Hy;
    reflexivity.
Qed.

(** NaN times anything is NaN. *)
Lemma mul_nan_l (x y : float) : is_nan x = true -> is_nan (x * y) = true.
Proof. intros H. rewrite (nan_unique x H), nan_mul. reflexivity. Qed.

(** Adding a zero changes no number. *)
Lemma add_zero_l (z y : float) :
  (z =? 0) = true -> is_nan y = false -> (z + y =? y) = true.
Proof.
  rewrite is_zero_spec, is_nan_spec, FloatAxioms.eqb_spec, add_spec.
  destruct (Prim2SF z) as [sz | | |]; intros Hz; try discriminate Hz.
  destruct (Prim2SF y) as [[|] | [|] | | [|] m e]; intros Hy; try discriminate Hy;
    destruct sz; unfold SF64add, SFadd, SFeqb; try reflexivity;
    rewrite SFcompare_refl_finite; reflexivity.
Qed.

Lemma add_zero_r (x z : float) :
  (z =? 0) = true -> is_nan x = false -> (x + z =? x) = true.
Proof.
  rewrite is_zero_spec, is_nan_spec, FloatAxioms.eqb_spec, add_spec.
  destruct (Prim2SF z) as [sz | | |]; intros Hz; try discriminate Hz.
  destruct (Prim2SF x) as [[|] | [|] | | [|] m e]; intros Hx; try discriminate Hx;
    destruct sz; unfold SF64add, SFadd, SFeqb; try reflexivity;
    rewrite SFcompare_refl_finite; reflexivity.
Qed.

(** The quotient of a number by itself: the dividend is shifted by 53
    bits, the quotient is [2^53] with no remainder, and rounds to 1. *)
Lemma SFdiv_core_self (m : positive) (e : Z) :
  SFdiv_core_binary prec emax (Z.pos m) e (Z.pos m) e
  = (9007199254740992%Z, (-53)%Z, loc_Exact).
Proof.
  unfold SFdiv_core_binary.
  replace (Zdigits2 (Z.pos m) + e - (Zdigits2 (Z.pos m) + e))%Z with 0%Z by lia.
  rewrite Z.sub_diag.
  change (Z.min (fexp prec emax 0) 0) with (-53)%Z.
  change (0 - -53)%Z with 53%Z. cbv zeta. cbv iota.
  rewrite Z.shiftl_mul_pow2 by lia.
  pose proof (Z_div_mod (Z.pos m * 2 ^ 53) (Z.pos m) ltac:(lia)) as Hdm.
  destruct (Z.div_eucl (Z.pos m * 2 ^ 53) (Z.pos m)) as [q r].
  destruct Hdm as [Heq Hr].
  assert (Hq : q = (2 ^ 53)%Z) by nia.
  assert (Hr0 : r = 0%Z) by nia.
  subst q r. unfold new_location.
  destruct (Z.even (Z.pos m)); reflexivity.
Qed.

(** A finite number that is not zero, divided by itself, is exactly 1. *)
Lemma div_self (x : float) :
  is_finite x = true -> (x =? 0) = false -> x / x = 1.
Proof.
  rewrite is_finite_spec, is_zero_spec. intros Hf Hz.
  apply Prim2SF_inj. rewrite div_spec.
  destruct (Prim2SF x) as [s | s | | s m e]; try discriminate Hf; try discriminate Hz.
  unfold SF64div, SFdiv. rewrite SFdiv_core_self.
  destruct s; reflexivity.
Qed.

End Binary64Special.

(** ** 9.4 Degenerate widths and equal ratios *)

Section DegenerateWidths.

Open Scope float_scope.

Lemma Returns_inj {A : Type} (a b : A) : Returns a = Returns b -> a = b.
Proof. intros H. congruence. Qed.

(** X4: [calcCircumference] of a width that is a zero or NaN is NaN, for
    every finite depth factor: [h_approx] is [0 / 0]. *)
Theorem calcCircumference_of_no_width (depthFactor width : float) :
  is_finite depthFactor = true ->
  (width =? 0) = true \/ is_nan width = true ->
  is_nan (calcCircumference depthFactor width) = true.
Proof.
  intros Fd [Hz | Hn].
  - pose proof (mul_zero_finite width depthFactor Hz Fd) as Hp.
    unfold calcCircumference. cbv zeta.
    cbn [js_mul js_div js_sub js_add F64.ops].
    generalize dependent (width * depthFactor). intros p Hp.
    destruct (zero_cases width Hz) as [-> | ->];
      destruct (zero_cases p Hp) as [-> | ->]; reflexivity.
  - rewrite (nan_unique width Hn).
    unfold calcCircumference. cbv zeta.
    cbn [js_mul js_div js_sub js_add F64.ops].
    rewrite nan_mul. reflexivity.
Qed.

Lemma calcCircumference_of_width_0 :
  (is_finite 0.75 = true /\ ((0 =? 0) = true \/ is_nan 0 = true)) /\
  is_nan (calcCircumference 0.75 0) = true.
Proof.
  assert (F : is_finite 0.75 = true) by reflexivity.
  assert (Z0 : (0 =? 0) = true \/ is_nan 0 = true) by (left; reflexivity).
  split; [ split; [ exact F | exact Z0 ] | ].
  exact (calcCircumference_of_no_width 0.75 0 F Z0).
Defined.

Lemma depthFactor_finite (age : float) : is_finite (depthFactor age) = true.
Proof.
  unfold depthFactor. cbn [js_lt js_lit F64.ops].
  destruct (F64.lit 50 0 <? age); reflexivity.
Qed.

Lemma width_of_no_width (v : JSValue) (scale : float) :
  is_finite scale = true -> no_width v ->
  (ToNumber v * scale =? 0) = true \/ is_nan (ToNumber v * scale) = true.
Proof.
  intros Fs [Hz | Hn].
  - left. apply mul_zero_finite; assumption.
  - right. apply mul_nan_l. exact Hn.
Qed.

Lemma NaN_circumference (depthFactor : float) (v : JSValue) (scale : float) :
  is_finite depthFactor = true -> is_finite scale = true -> no_width v ->
  is_nan (calcCircumference depthFactor (ToNumber v * scale)) = true.
Proof.
  intros Fd Fs Hv.
  destruct (width_of_no_width v scale Fs Hv) as [Hz | Hn].
  - pose proof (mul_zero_finite (ToNumber v * scale) depthFactor Hz Fd) as Hp.
    unfold calcCircumference. cbv zeta.
    cbn [js_mul js_div js_sub js_add F64.ops].
    generalize dependent (ToNumber v * scale * depthFactor). intros p Hp.
    destruct (zero_cases _ Hz) as [-> | ->];
      destruct (zero_cases p Hp) as [-> | ->]; reflexivity.
  - rewrite (nan_unique _ Hn).
    unfold calcCircumference. cbv zeta.
    cbn [js_mul js_div js_sub js_add F64.ops].
    rewrite nan_mul. reflexivity.
Qed.

Lemma indices_of_NaN_waist (waistCircum hipCircum height : float) :
  is_nan waistCircum = true ->
  let whr := F64.Number (F64.toFixed (waistCircum / hipCircum) 2) in
  let whtr := F64.Number (F64.toFixed (waistCircum / height) 2) in
  is_nan whr = true /\ is_nan whtr = true /\
  getWHRStatus whr = "RIESGO ALTO"%string /\
  getWHtRStatus whtr = "RIESGO ELEVADO"%string.
Proof.
  intros Hn. rewrite (nan_unique _ Hn). cbv zeta. rewrite !nan_div.
  repeat split; reflexivity.
Qed.

(** X5: a waist ratio that is absent, [null], a zero or NaN is not
    rejected: for every finite height, both variants store a record whose
    waist circumference, [whr] and [whtr] are NaN, and these are shown as
    "RIESGO ALTO" and "RIESGO ELEVADO". *)
Theorem ratio_without_width_is_stored_as_NaN (st : AppState) (ratios : Ratios)
    (conf : JSValue) :
  is_finite (st_height st) = true ->
  no_width (waistRatio ratios) ->
  let reply := ReplyJSON {| measurements := Some ratios; confidence := conf |} in
  stores_NaN_waist (processImage st reply) /\
  stores_NaN_waist (processImage_simple st reply).
Proof.
  intros Fh Hw reply.
  split.
  - pose proof (NaN_circumference (depthFactor (st_age st)) _ _
                  (depthFactor_finite (st_age st)) Fh Hw) as Hc.
    split; [ reflexivity | split; [ reflexivity | ] ].
    eexists. split; [ reflexivity | ].
    cbn [waistCircumference whr whtr].
    split; [ exact Hc | ].
    apply indices_of_NaN_waist. exact Hc.
  - pose proof (NaN_circumference 0.7 _ _ eq_refl Fh Hw) as Hc.
    split; [ reflexivity | split; [ reflexivity | ] ].
    eexists. split; [ reflexivity | ].
    cbn [waistCircumference whr whtr].
    split; [ exact Hc | ].
    apply indices_of_NaN_waist. exact Hc.
Qed.

Lemma null_waist_ratio_is_stored_as_NaN :
  (is_finite (st_height (initial_state 170 70 30)) = true /\
   no_width (waistRatio {| waistRatio := JSNull; hipRatio := JSNum 0.22;
                           shoulderRatio := JSNum 0.25; chestRatio := JSNum 0.2;
                           torsoHeightRatio := JSNum 0.3 |})) /\
  stores_NaN_waist
    (processImage (initial_state 170 70 30)
       (ReplyJSON (answer JSNull (JSNum 0.22) (JSNum 0.25) (JSNum 0.2) (JSNum 0.3)
                          (JSNum 0.9)))) /\
  stores_NaN_waist
    (processImage_simple (initial_state 170 70 30)
       (ReplyJSON (answer JSNull (JSNum 0.22) (JSNum 0.25) (JSNum 0.2) (JSNum 0.3)
                          (JSNum 0.9)))).
Proof.
  assert (F : is_finite (st_height (initial_state 170 70 30)) = true) by reflexivity.
  assert (N : no_width (waistRatio {| waistRatio := JSNull; hipRatio := JSNum 0.22;
                                      shoulderRatio := JSNum 0.25;
                                      chestRatio := JSNum 0.2;
                                      torsoHeightRatio := JSNum 0.3 |}))
    by (left; reflexivity).
  split; [ split; [ exact F | exact N ] | ].
  exact (ratio_without_width_is_stored_as_NaN (initial_state 170 70 30)
           {| waistRatio := JSNull; hipRatio := JSNum 0.22;
              shoulderRatio := JSNum 0.25; chestRatio := JSNum 0.2;
              torsoHeightRatio := JSNum 0.3 |} (JSNum 0.9) F N).
Defined.

(** X6: when the answer's hip ratio is its waist ratio, the two
    circumferences are equal and, if they are finite and not zero, [whr] is
    exactly 1, which [getWHRStatus] shows as "RIESGO ALTO" -- in both
    variants. *)
Theorem equal_ratios_give_whr_1 (h w a : float) (ratios : Ratios) (conf : JSValue)
    (m : BodyMeasurements) :
  let analysis := {| measurements := Some ratios; confidence := conf |} in
  ToNumber (hipRatio ratios) = ToNumber (waistRatio ratios) ->
  measure h w a analysis = Returns m \/ measure_simple h w analysis = Returns m ->
  is_finite (waistCircumference m) = true ->
  (waistCircumference m =? 0) = false ->
  waist_equals_hip m.
Proof.
  intros analysis Heq [Hm | Hm]; apply Returns_inj in Hm; subst m;
    unfold waist_equals_hip; cbn [waistCircumference hipCircumference whr];
    rewrite Heq; intros Hf Hz; rewrite (div_self _ Hf Hz);
    (split; [ reflexivity | split; vm_compute; reflexivity ]).
Qed.

Lemma equal_ratios_at_170cm :
  exists m,
    (ToNumber (JSNum 0.2) = ToNumber (JSNum 0.2) /\
     measure 170 70 30
       (answer (JSNum 0.2) (JSNum 0.2) (JSNum 0.25) (JSNum 0.2) (JSNum 0.3)
               (JSNum 0.9)) = Returns m /\
     is_finite (waistCircumference m) = true /\
     (waistCircumference m =? 0) = false) /\
    waist_equals_hip m.
Proof.
  eexists.
  split; [ split; [ reflexivity | split; [ reflexivity | split; reflexivity ] ] | ].
  apply (equal_ratios_give_whr_1 170 70 30
           {| waistRatio := JSNum 0.2; hipRatio := JSNum 0.2;
              shoulderRatio := JSNum 0.25; chestRatio := JSNum 0.2;
              torsoHeightRatio := JSNum 0.3 |} (JSNum 0.9));
    [ reflexivity | left; reflexivity | reflexivity | reflexivity ].
Defined.

End DegenerateWidths.

(** ** 9.5 The radii of the two profiles *)

Section ProfileSign.

Open Scope float_scope.

Lemma drawable_scale (h : float) : drawable h -> drawable (h / 100).
Proof.
  intros [F P]. destruct (div_100_finite h F) as [F' P'].
  split; [ exact F' | exact (P' P) ].
Qed.

Lemma width_is_drawable (v : JSValue) (scale : float) :
  unit_ratio v -> drawable scale -> drawable (ToNumber v * scale / 100).
Proof.
  intros (r & -> & H0 & H1) [Fs Ps]. cbn [ToNumber].
  destruct (scale_down r scale H0 H1 Ps Fs) as [F P].
  destruct (div_100_finite (r * scale) F) as [F' P'].
  split; [ exact F' | exact (P' P) ].
Qed.

(** X7: for a finite height that is not negative and four width ratios
    between 0 and 1, the record either variant stores is drawable: its
    height and its four widths are finite and not negative. *)
Theorem measured_record_is_drawable (h w a : float) (ratios : Ratios) (conf : JSValue)
    (m : BodyMeasurements) :
  let analysis := {| measurements := Some ratios; confidence := conf |} in
  drawable h -> unit_ratios ratios ->
  measure h w a analysis = Returns m \/ measure_simple h w analysis = Returns m ->
  drawable_record m.
Proof.
  intros analysis Hh (Hw & Hhip & Hs & Hc) [Hm | Hm];
    apply Returns_inj in Hm; subst m; unfold drawable_record;
    cbn [height shoulderWidth chestWidth waistWidth hipWidth];
    (split; [ exact Hh | ]);
    repeat split; try (apply width_is_drawable; assumption);
    apply (width_is_drawable _ h); assumption.
Qed.

Lemma measured_record_is_drawable_at_170cm :
  exists m,
    (drawable 170 /\
     unit_ratios {| waistRatio := JSNum 0.2; hipRatio := JSNum 0.22;
                    shoulderRatio := JSNum 0.25; chestRatio := JSNum 0.2;
                    torsoHeightRatio := JSNum 0.3 |} /\
     measure 170 70 30
       (answer (JSNum 0.2) (JSNum 0.22) (JSNum 0.25) (JSNum 0.2) (JSNum 0.3)
               (JSNum 0.9)) = Returns m) /\
    drawable_record m.
Proof.
  assert (Hh : drawable 170) by (split; reflexivity).
  assert (Hr : unit_ratios {| waistRatio := JSNum 0.2; hipRatio := JSNum 0.22;
                              shoulderRatio := JSNum 0.25; chestRatio := JSNum 0.2;
                              torsoHeightRatio := JSNum 0.3 |}).
  { repeat split; eexists; (split; [ reflexivity | split; reflexivity ]). }
  eexists.
  split; [ split; [ exact Hh | split; [ exact Hr | reflexivity ] ] | ].
  apply (measured_record_is_drawable 170 70 30 _ (JSNum 0.9) _ Hh Hr).
  left. reflexivity.
Defined.

(** The radius of a sample is a sum of products of constants and drawable
    lengths. *)
Ltac not_negative :=
  lazymatch goal with
  | |- (0 <=? (if (if ?X =? ?X then false else true) then _ else _)) = true =>
      destruct (X =? X); cbv iota; [ not_negative | reflexivity ]
  | |- (0 <=? ?a + ?b) = true => apply add_nonneg; not_negative
  | |- (0 <=? ?a / 2) = true => apply div_2_finite; assumption
  | |- (0 <=? ?a * ?b) = true =>
      first [ assumption
            | apply scale_down; [ reflexivity | reflexivity | not_negative | finite_goal ]
            | apply scale_down_r; [ reflexivity | reflexivity | not_negative | finite_goal ] ]
  | |- _ => first [ assumption | reflexivity ]
  end
with finite_goal :=
  lazymatch goal with
  | |- is_finite (?a / 2) = true => apply div_2_finite; assumption
  | |- is_finite (?a * ?b) = true =>
      first [ assumption
            | apply scale_down; [ reflexivity | reflexivity | not_negative | finite_goal ]
            | apply scale_down_r; [ reflexivity | reflexivity | not_negative | finite_goal ] ]
  | |- _ => first [ assumption | reflexivity ]
  end.

Lemma radius_v1_not_negative (sf s c w h : float) (i : nat) :
  drawable sf -> drawable s -> drawable c -> drawable w -> drawable h ->
  (i <= segments_v1)%nat ->
  (0 <=? radius_v1 sf s c w h (of_nat i / of_nat segments_v1)%js) = true.
Proof.
  intros [Fsf Psf] [Fs Ps] [Fc Pc] [Fw Pw] [Fh Ph] Hi.
  do 21 (destruct i as [| i]; [ vm_compute; not_negative | ]).
  unfold segments_v1 in Hi. lia.
Qed.

Lemma radius_v2_not_negative (sf s c w h : float) (i : nat) :
  drawable sf -> drawable s -> drawable c -> drawable w -> drawable h ->
  (i <= density)%nat ->
  (0 <=? radius_v2 sf s c w h (of_nat i / of_nat density)%js) = true.
Proof.
  intros [Fsf Psf] [Fs Ps] [Fc Pc] [Fw Pw] [Fh Ph] Hi.
  do 41 (destruct i as [| i]; [ vm_compute; not_negative | ]).
  unfold density in Hi. lia.
Qed.

(** X8: for every drawable record, every point of the simple profile has
    a radius that is not NaN and not negative. *)
Theorem simple_profile_is_turnable (m : BodyMeasurements) :
  drawable_record m -> Forall turnable (points_v1 m).
Proof.
  intros (Hh & Hs & Hc & Hw & Hhip).
  apply Forall_forall. intros p Hp.
  unfold points_v1, profile_v1 in Hp. apply in_map_iff in Hp.
  destruct Hp as [i [<- Hi]]. apply in_seq in Hi.
  assert (Hr : (0 <=? radius_v1 (height m / 100) (shoulderWidth m) (chestWidth m)
                         (waistWidth m) (hipWidth m)
                         (of_nat i / of_nat segments_v1)%js) = true).
  { apply radius_v1_not_negative; try assumption.
    - apply drawable_scale. exact Hh.
    - unfold segments_v1 in *. lia. }
  split; [ exact (leb_not_nan _ _ Hr) | exact Hr ].
Qed.

Lemma simple_profile_is_turnable_at_170cm :
  drawable_record sample_record /\ Forall turnable (points_v1 sample_record).
Proof.
  assert (H : drawable_record sample_record).
  { unfold drawable_record, drawable. repeat split; reflexivity. }
  split; [ exact H | exact (simple_profile_is_turnable sample_record H) ].
Defined.

(** X9: for every drawable record, every point of the refined profile has
    a radius that is not NaN and not negative. *)
Theorem refined_profile_is_turnable (m : BodyMeasurements) :
  drawable_record m -> Forall turnable (points_v2 m).
Proof.
  intros (Hh & Hs & Hc & Hw & Hhip).
  apply Forall_forall. intros p Hp.
  unfold points_v2, profile_v2 in Hp. apply in_map_iff in Hp.
  destruct Hp as [i [<- Hi]]. apply in_seq in Hi.
  assert (Hr : (0 <=? radius_v2 (height m / 100) (shoulderWidth m) (chestWidth m)
                         (waistWidth m) (hipWidth m)
                         (of_nat i / of_nat density)%js) = true).
  { apply radius_v2_not_negative; try assumption.
    - apply drawable_scale. exact Hh.
    - unfold density in *. lia. }
  split; [ exact (leb_not_nan _ _ Hr) | exact Hr ].
Qed.

Lemma refined_profile_is_turnable_at_170cm :
  drawable_record sample_record /\ Forall turnable (points_v2 sample_record).
Proof.
  assert (H : drawable_record sample_record).
  { unfold drawable_record, drawable. repeat split; reflexivity. }
  split; [ exact H | exact (refined_profile_is_turnable sample_record H) ].
Defined.

(** [lerp(x, y, 1)] as the code computes it: [0 * x + 1 * y]. *)
Lemma lerp_end (x y : float) :
  is_finite x = true -> is_nan y = false -> (0 * x + 1 * y =? y) = true.
Proof.
  intros Fx Ny. rewrite one_mul.
  apply add_zero_l; [ apply zero_mul_finite; exact Fx | exact Ny ].
Qed.

(** [lerp(x, y, 0)] as the code computes it: [1 * x + 0 * y]. *)
Lemma lerp_start (x y : float) :
  is_nan x = false -> is_finite y = true -> (1 * x + 0 * y =? x) = true.
Proof.
  intros Nx Fy. rewrite one_mul.
  apply add_zero_r; [ apply zero_mul_finite; exact Fy | exact Nx ].
Qed.

(** X10: for every drawable record the simple profile has, at the samples
    where its bands begin, the radius the band starts from: 0.08 at sample
    2 (whatever the scale), half the hip width at sample 9, half the waist
    width at sample 11, half the shoulder width at sample 15, and 0 at
    sample 18, where the head begins. *)
Theorem simple_profile_meets_its_bands (m : BodyMeasurements) :
  drawable_record m ->
  (radius_at (points_v1 m) 2 =? 0.08) = true /\
  (radius_at (points_v1 m) 9 =? hipWidth m / 2) = true /\
  (radius_at (points_v1 m) 11 =? waistWidth m / 2) = true /\
  (radius_at (points_v1 m) 15 =? shoulderWidth m / 2) = true /\
  (radius_at (points_v1 m) 18 =? 0) = true.
Proof.
  destruct m as [ht wt ag ww hw sw cw wc hc b r1 r2].
  unfold drawable_record.
  cbn [height shoulderWidth chestWidth waistWidth hipWidth].
  intros (Hh & [Fs Ps] & [Fc Pc] & [Fw Pw] & [Fhip Phip]).
  destruct (drawable_scale ht Hh) as [Fsf Psf].
  destruct (div_2_finite hw Fhip) as [H2 _].
  destruct (div_2_finite ww Fw) as [W2 _].
  destruct (div_2_finite cw Fc) as [C2 _].
  destruct (div_2_finite sw Fs) as [S2 _].
  assert (N6 : is_finite (0.06 * (ht / 100)) = true)
    by (apply scale_down; try assumption; reflexivity).
  split; [ | split; [ | split; [ | split ] ] ]; vm_compute.
  - apply add_zero_r; [ apply zero_mul_finite; exact H2 | reflexivity ].
  - apply lerp_start; [ apply finite_not_nan; exact H2 | exact W2 ].
  - apply lerp_start; [ apply finite_not_nan; exact W2 | exact C2 ].
  - apply lerp_start; [ apply finite_not_nan; exact S2 | exact N6 ].
  - apply zero_mul_finite. exact Fsf.
Qed.

Lemma simple_profile_meets_its_bands_at_170cm :
  drawable_record sample_record /\
  (radius_at (points_v1 sample_record) 2 =? 0.08) = true /\
  (radius_at (points_v1 sample_record) 9 =? hipWidth sample_record / 2) = true /\
  (radius_at (points_v1 sample_record) 11 =? waistWidth sample_record / 2) = true /\
  (radius_at (points_v1 sample_record) 15 =? shoulderWidth sample_record / 2) = true /\
  (radius_at (points_v1 sample_record) 18 =? 0) = true.
Proof.
  assert (H : drawable_record sample_record).
  { unfold drawable_record, drawable. repeat split; reflexivity. }
  split; [ exact H | exact (simple_profile_meets_its_bands sample_record H) ].
Defined.

(** X11: for every drawable record the refined profile starts at radius 0
    and passes through the landmarks that fall on a sample: 0.4 of the hip
    width at sample 4, 0.45 of it at sample 14, half the hip width at
    sample 18 and half the shoulder width at sample 32. *)
Theorem refined_profile_meets_its_landmarks (m : BodyMeasurements) :
  drawable_record m ->
  (radius_at (points_v2 m) 0 =? 0) = true /\
  (radius_at (points_v2 m) 4 =? hipWidth m * 0.4) = true /\
  (radius_at (points_v2 m) 14 =? hipWidth m * 0.45) = true /\
  (radius_at (points_v2 m) 18 =? hipWidth m * 0.5) = true /\
  (radius_at (points_v2 m) 32 =? shoulderWidth m * 0.5) = true.
Proof.
  destruct m as [ht wt ag ww hw sw cw wc hc b r1 r2].
  unfold drawable_record.
  cbn [height shoulderWidth chestWidth waistWidth hipWidth].
  intros ([Fh Ph] & [Fs Ps] & [Fc Pc] & [Fw Pw] & [Fhip Phip]).
  assert (S40 : is_finite (hw * 0.4) = true /\ (0 <=? hw * 0.4) = true)
    by (apply scale_down_r; try assumption; reflexivity).
  assert (S45 : is_finite (hw * 0.45) = true /\ (0 <=? hw * 0.45) = true)
    by (apply scale_down_r; try assumption; reflexivity).
  assert (S50 : is_finite (hw * 0.5) = true /\ (0 <=? hw * 0.5) = true)
    by (apply scale_down_r; try assumption; reflexivity).
  assert (C50 : is_finite (cw * 0.5) = true /\ (0 <=? cw * 0.5) = true)
    by (apply scale_down_r; try assumption; reflexivity).
  assert (W50 : is_finite (sw * 0.5) = true /\ (0 <=? sw * 0.5) = true)
    by (apply scale_down_r; try assumption; reflexivity).
  destruct S40 as [S40 _], S45 as [S45 _], S50 as [S50 _], C50 as [C50 _],
           W50 as [W50 _].
  split; [ | split; [ | split; [ | split ] ] ]; vm_compute.
  - apply add_zero_r; [ apply zero_mul_finite; exact S40 | reflexivity ].
  - rewrite one_mul.
    apply add_zero_l; [ reflexivity | apply finite_not_nan; exact S40 ].
  - apply lerp_end; [ exact S40 | apply finite_not_nan; exact S45 ].
  - apply lerp_end; [ exact S45 | apply finite_not_nan; exact S50 ].
  - apply lerp_end; [ exact C50 | apply finite_not_nan; exact W50 ].
Qed.

Lemma refined_profile_meets_its_landmarks_at_170cm :
  drawable_record sample_record /\
  (radius_at (points_v2 sample_record) 0 =? 0) = true /\
  (radius_at (points_v2 sample_record) 4 =? hipWidth sample_record * 0.4) = true /\
  (radius_at (points_v2 sample_record) 14 =? hipWidth sample_record * 0.45) = true /\
  (radius_at (points_v2 sample_record) 18 =? hipWidth sample_record * 0.5) = true /\
  (radius_at (points_v2 sample_record) 32 =? shoulderWidth sample_record * 0.5) = true.
Proof.
  assert (H : drawable_record sample_record).
  { unfold drawable_record, drawable. repeat split; reflexivity. }
  split; [ exact H | exact (refined_profile_meets_its_landmarks sample_record H) ].
Defined.

End ProfileSign.

(** ** 9.6 The head clamp and the tapes *)

Section HeadClamp.

Open Scope float_scope.

(** The square root of a number that is not negative is not negative. *)
Lemma sqrt_nonneg (x : float) : (0 <=? x) = true -> (0 <=? PrimFloat.sqrt x) = true.
Proof.
  rewrite !FloatAxioms.leb_spec, sqrt_spec.
  change (Prim2SF 0) with (S754_zero false).
  destruct (Prim2SF x) as [[|] | [|] | | [|] m e]; intros Hx;
    try discriminate Hx; try reflexivity.
  unfold SF64sqrt, SFsqrt, SFsqrt_core_binary.
  set (e' := Z.min _ _).
  set (m' := match (e - 2 * e')%Z with
             | Z0 => Z.pos m
             | Zpos p => Z.shiftl (Z.pos m) (e - 2 * e')
             | Zneg _ => 0%Z
             end).
  assert (Hm' : (0 <= m')%Z).
  { unfold m'. destruct (e - 2 * e')%Z; try lia. apply Z.shiftl_nonneg. lia. }
  pose proof (Z.sqrtrem_spec m' Hm') as Hs.
  destruct (Z.sqrtrem m') as [q r].
  assert (Hq : (0 <= q)%Z) by lia.
  match goal with
  | |- context [binary_round_aux prec emax false q e' ?l] =>
      pose proof (binary_round_aux_sign false q e' l Hq) as Hsign;
      destruct (binary_round_aux prec emax false q e' l) as [s | s | | s m0 e0]
  end; try contradiction; subst s; reflexivity.
Qed.

(** The product of two numbers that are not negative is not negative,
    unless it is NaN (zero times infinity). *)
Lemma mul_nonneg_or_nan (a b : float) :
  (0 <=? a) = true -> (0 <=? b) = true ->
  is_nan (a * b) = true \/ (0 <=? a * b) = true.
Proof.
  rewrite !FloatAxioms.leb_spec, is_nan_spec, mul_spec.
  change (Prim2SF 0) with (S754_zero false).
  pose proof (Prim2SF_valid a) as Va.
  pose proof (Prim2SF_valid b) as Vb.
  destruct (Prim2SF a) as [[|] | [|] | | [|] ma ea];
    destruct (Prim2SF b) as [[|] | [|] | | [|] mb eb];
    intros Ha Hb; try discriminate Ha; try discriminate Hb;
    try (left; reflexivity); try (right; reflexivity).
  right. apply (SFmul_nonneg ma mb ea eb Va Vb false).
Qed.

Lemma mul_nan_r (x y : float) : is_nan y = true -> is_nan (x * y) = true.
Proof. intros H. rewrite mul_comm. apply mul_nan_l. exact H. Qed.

(** [Math.max(0, y)] is NaN or not negative. *)
Lemma max_0_nonneg (y : float) :
  is_nan (F64.max 0 y) = true \/ (0 <=? F64.max 0 y) = true.
Proof.
  unfold F64.max. change (is_nan 0) with false. cbn [orb].
  destruct (is_nan y) eqn:Ny; [ left; reflexivity | ].
  right.
  destruct (0 <? y) eqn:E1.
  - rewrite ltb_key in E1. rewrite leb_key.
    apply andb_prop in E1. destruct E1 as [E1 E2]. rewrite E1.
    apply Z.ltb_lt in E2. cbn [andb]. apply Z.leb_le. lia.
  - destruct (y <? 0); reflexivity.
Qed.

(** X18: the clamp and the fallback of the refined head make its radius
    safe for every argument: whatever [headT] and the scale factor are,
    the radius is not NaN; and if the scale factor is not negative, the
    radius is not negative. *)
Theorem refined_head_radius_is_safe (headT scaleFactor : float) :
  is_nan (head_radius_v2 headT scaleFactor) = false /\
  ((0 <=? scaleFactor) = true ->
   (0 <=? head_radius_v2 headT scaleFactor) = true).
Proof.
  unfold head_radius_v2. cbv zeta.
  cbn [js_mul js_sub js_lit Math_sqrt Math_max isNaN F64.ops].
  change (F64.lit 0 0) with 0. change (F64.lit 5 3) with 0.005.
  set (y := F64.lit 1 0 - Math_pow2 (headT * F64.lit 2 0 - F64.lit 1 0)).
  set (hr := F64.lit 8 2 * scaleFactor).
  destruct (is_nan (PrimFloat.sqrt (F64.max 0 y) * hr)) eqn:Nr.
  - split; [ reflexivity | intros _; reflexivity ].
  - split; [ exact Nr | intros Hsf ].
    assert (Hhr : is_nan hr = true \/ (0 <=? hr) = true)
      by (apply mul_nonneg_or_nan; [ reflexivity | exact Hsf ]).
    destruct Hhr as [Hhr | Hhr].
    { rewrite (mul_nan_r _ _ Hhr) in Nr. discriminate Nr. }
    destruct (max_0_nonneg y) as [Hm | Hm].
    { rewrite (nan_unique _ Hm) in Nr.
      change (PrimFloat.sqrt nan) with nan in Nr. rewrite nan_mul in Nr. discriminate Nr. }
    destruct (mul_nonneg_or_nan _ _ (sqrt_nonneg _ Hm) Hhr) as [H | H].
    + rewrite H in Nr. discriminate Nr.
    + exact H.
Qed.

End HeadClamp.

Section Tapes.

Open Scope float_scope.

Lemma tape_radii (w c : float) :
  drawable w -> (0 <=? c) = true ->
  (0 <=? w / 2 + c) = true /\ (0 <=? w / 2 * 0.7 + c) = true.
Proof.
  intros [Fw Pw] Hc.
  destruct (div_2_finite w Fw) as [F2 P2]. specialize (P2 Pw).
  split.
  - apply add_nonneg; assumption.
  - apply add_nonneg; [ | exact Hc ].
    apply scale_down_r; try assumption; reflexivity.
Qed.

Lemma tape_height (c sf : float) :
  (0 <=? c) = true -> (c <=? 1) = true -> drawable sf -> (0 <=? c * sf) = true.
Proof.
  intros H0 H1 [F P]. apply scale_down; assumption.
Qed.

(** X19: for every drawable record, every measuring tape of the scene,
    in either variant, is placed at a height that is not negative and has
    two radii that are not negative; none of them is NaN. *)
Theorem tapes_are_drawn (m : BodyMeasurements) :
  drawable_record m ->
  Forall tape_is_drawn (children (build_model_v1 m)) /\
  Forall tape_is_drawn (children (build_model m)).
Proof.
  intros (Hh & Hs & Hc & Hw & Hhip).
  pose proof (drawable_scale _ Hh) as Hsf.
  unfold build_model_v1, build_model, createTape_v1, createTape. cbn [children].
  split; repeat apply Forall_cons; try apply Forall_nil; cbn [tape_is_drawn];
    try exact I;
    (split; [ apply tape_height; [ reflexivity | reflexivity | exact Hsf ]
            | apply tape_radii; [ assumption | reflexivity ] ]).
Qed.

Lemma tapes_are_drawn_at_170cm :
  drawable_record sample_record /\
  Forall tape_is_drawn (children (build_model_v1 sample_record)) /\
  Forall tape_is_drawn (children (build_model sample_record)).
Proof.
  assert (H : drawable_record sample_record).
  { unfold drawable_record, drawable. repeat split; reflexivity. }
  split; [ exact H | exact (tapes_are_drawn sample_record H) ].
Defined.

End Tapes.

(** ** 9.7 The application and its handlers *)

Section DataURL.

Lemma split_comma_free (s : string) : comma_free s = true -> split_comma s = [s].
Proof.
  induction s as [| c rest IH]; cbn [comma_free split_comma]; [ reflexivity | ].
  intros H. apply andb_prop in H. destruct H as [Hc Hrest].
  apply negb_true_iff in Hc. rewrite Hc, (IH Hrest). reflexivity.
Qed.

Lemma split_comma_app (a b : string) :
  comma_free a = true ->
  split_comma (a ++ String ","%char b) = a :: split_comma b.
Proof.
  induction a as [| c rest IH]; cbn [comma_free append split_comma].
  - intros _. reflexivity.
  - intros H. apply andb_prop in H. destruct H as [Hc Hrest].
    apply negb_true_iff in Hc. rewrite Hc, (IH Hrest). reflexivity.
Qed.

Lemma comma_free_app (a b : string) :
  comma_free a = true -> comma_free b = true -> comma_free (a ++ b) = true.
Proof.
  induction a as [| c rest IH]; cbn [append comma_free]; intros Ha Hb.
  - exact Hb.
  - apply andb_prop in Ha. destruct Ha as [Hc Hr].
    rewrite Hc, (IH Hr Hb). reflexivity.
Qed.

Lemma append_assoc (a b c : string) : ((a ++ b) ++ c = a ++ (b ++ c))%string.
Proof.
  induction a as [| x rest IH]; cbn [append]; [ reflexivity | ].
  f_equal. exact IH.
Qed.

(** X14: the image data sent to the oracle is the second field of the
    text between commas: for a data URL [data:<mediatype>;base64,<payload>]
    without further commas it is the payload; what follows a second comma
    is dropped; and a text without a comma has none ([undefined]). *)
Theorem imageData_of_data_URL (mediatype payload rest text : string) :
  comma_free mediatype = true -> comma_free payload = true ->
  comma_free text = true ->
  imageData ("data:" ++ mediatype ++ ";base64," ++ payload) = Some payload /\
  imageData ("data:" ++ mediatype ++ ";base64," ++ payload ++ "," ++ rest)
  = Some payload /\
  imageData text = None.
Proof.
  intros Hm Hp Ht. unfold imageData.
  assert (Hpre : forall tail,
             split_comma ("data:" ++ mediatype ++ ";base64," ++ tail)
             = ("data:" ++ mediatype ++ ";base64")%string :: split_comma tail).
  { intros tail.
    replace ("data:" ++ mediatype ++ ";base64," ++ tail)%string
      with (("data:" ++ mediatype ++ ";base64") ++ String ","%char tail)%string.
    - apply split_comma_app.
      apply (comma_free_app "data:"); [ reflexivity | ].
      apply comma_free_app; [ exact Hm | reflexivity ].
    - rewrite !append_assoc. reflexivity. }
  split; [ | split ].
  - rewrite Hpre, (split_comma_free payload Hp). reflexivity.
  - rewrite Hpre.
    change (payload ++ "," ++ rest)%string with (payload ++ String ","%char rest)%string.
    rewrite (split_comma_app payload rest Hp). reflexivity.
  - rewrite (split_comma_free text Ht). reflexivity.
Qed.

Lemma imageData_of_a_PNG :
  (comma_free "image/png" = true /\ comma_free "iVBORw0KGgo=" = true /\
   comma_free "no comma here" = true) /\
  imageData ("data:" ++ "image/png" ++ ";base64," ++ "iVBORw0KGgo=")
  = Some "iVBORw0KGgo="%string /\
  imageData ("data:" ++ "image/png" ++ ";base64," ++ "iVBORw0KGgo=" ++ "," ++ "x")
  = Some "iVBORw0KGgo="%string /\
  imageData "no comma here" = None.
Proof.
  split; [ repeat split; reflexivity | ].
  apply (imageData_of_data_URL "image/png" "iVBORw0KGgo=" "x" "no comma here");
    reflexivity.
Defined.

End DataURL.

Section HandlerFacts.

Variable engine : Closure -> AnalysisResponse -> Result BodyMeasurements.

Lemma Step_eqb_eq (a b : Step) : Step_eqb a b = true <-> a = b.
Proof. destruct a, b; cbn; split; intros H; congruence. Qed.

Lemma snoc_not_nil {A : Type} (l : list A) (x : A) : l ++ [x] <> [].
Proof. destruct l; discriminate. Qed.

(** Every handler keeps the application consistent. *)
Lemma handle_consistent (rt rt' : Runtime) (ev : Event) :
  consistent rt -> handle engine rt ev = Some rt' -> consistent rt'.
Proof.
  intros (Hres & Hproc & Hbusy) Hev.
  destruct rt as [v ph busy rds rqs]. cbn [view requests isProcessing] in *.
  destruct ev as [ | x | x | x | | file | k base64 | k reply | | ];
    cbn [handle view photo isProcessing readers requests] in Hev.
  - destruct (Step_eqb (st_step v) welcome) eqn:E; [ | discriminate Hev ].
    injection Hev as <-. unfold consistent. cbn.
    repeat split; try discriminate. exact Hbusy.
  - destruct (Step_eqb (st_step v) input) eqn:E; [ | discriminate Hev ].
    injection Hev as <-. unfold consistent. cbn. repeat split; assumption.
  - destruct (Step_eqb (st_step v) input) eqn:E; [ | discriminate Hev ].
    injection Hev as <-. unfold consistent. cbn. repeat split; assumption.
  - destruct (Step_eqb (st_step v) input) eqn:E; [ | discriminate Hev ].
    injection Hev as <-. unfold consistent. cbn. repeat split; assumption.
  - destruct (Step_eqb (st_step v) input) eqn:E; [ | discriminate Hev ].
    injection Hev as <-. unfold consistent. cbn.
    repeat split; try discriminate. exact Hbusy.
  - destruct (Step_eqb (st_step v) camera) eqn:E; [ | discriminate Hev ].
    destruct file; injection Hev as <-; unfold consistent; cbn;
      repeat split; assumption.
  - destruct (nth_error rds k) as [c |]; [ | discriminate Hev ].
    injection Hev as <-. unfold consistent, processImage_begins.
    destruct base64 as [text |]; cbn.
    + repeat split; try discriminate; intros _; apply snoc_not_nil.
    + repeat split; try discriminate.
  - destruct (nth_error rqs k) as [rq |]; [ | discriminate Hev ].
    injection Hev as <-. unfold consistent, processImage_ends.
    destruct (bind (analyzeBodyImage reply) (engine (req_closure rq))); cbn;
      repeat split; try discriminate.
  - destruct (Step_eqb (st_step v) welcome) eqn:E; [ discriminate Hev | ].
    injection Hev as <-. unfold consistent. cbn.
    repeat split; try discriminate. exact Hbusy.
  - destruct (st_step v) eqn:E; try discriminate Hev.
    destruct (st_measurements v); [ | discriminate Hev ].
    injection Hev as <-. unfold consistent. cbn.
    repeat split; try discriminate. exact Hbusy.
Qed.

Lemma run_consistent (events : list Event) :
  forall rt rt', consistent rt -> run engine rt events = Some rt' -> consistent rt'.
Proof.
  induction events as [| ev rest IH]; intros rt rt' Hc Hrun; cbn [run] in Hrun.
  - injection Hrun as <-. exact Hc.
  - destruct (handle engine rt ev) as [rt1 |] eqn:E; [ | discriminate Hrun ].
    apply (IH rt1 rt'); [ | exact Hrun ].
    apply (handle_consistent rt rt1 ev Hc E).
Qed.

(** Both variants store the height and weight their closure holds. *)
Lemma engine_stores_closure (c : Closure) (reply : OracleReply) (m : BodyMeasurements) :
  engine = engine_age \/ engine = engine_simple ->
  bind (analyzeBodyImage reply) (engine c) = Returns m ->
  height m = c_height c /\ weight m = c_weight c.
Proof.
  intros He Hm.
  destruct reply as [msg | | data]; cbn [analyzeBodyImage bind] in Hm;
    try discriminate Hm.
  destruct data as [[ratios |] conf];
    destruct He as [-> | ->];
    unfold engine_age, engine_simple, measure, measure_simple in Hm;
    cbn [measurements] in Hm; try discriminate Hm;
    apply Returns_inj in Hm; subst m; split; reflexivity.
Qed.

End HandlerFacts.

Section AppFacts.

Open Scope float_scope.

(** X15: whatever events the mounted application has handled, in either
    variant and in any interleaving of user actions, file reads and oracle
    answers: when the step is 'result' there is a record to show; when the
    step is 'processing' an analysis is awaited; and when [isProcessing] is
    set an analysis is awaited. *)
Theorem app_stays_consistent
    (engine : Closure -> AnalysisResponse -> Result BodyMeasurements)
    (events : list Event) (rt : Runtime) :
  run engine mounted events = Some rt -> consistent rt.
Proof.
  apply run_consistent.
  unfold consistent, mounted. cbn. repeat split; discriminate.
Qed.

Lemma app_stays_consistent_after_a_scan :
  exists rt,
    run engine_age mounted
        (a_scan (Some "data:image/png;base64,iVBORw0KGgo="%string)
                (ReplyJSON (answer (JSNum 0.2) (JSNum 0.22) (JSNum 0.25) (JSNum 0.2)
                                   (JSNum 0.3) (JSNum 0.9))))
    = Some rt /\
    consistent rt /\ st_step (view rt) = result.
Proof.
  eexists. split; [ reflexivity | ].
  split; [ | reflexivity ].
  apply (app_stays_consistent engine_age
           (a_scan (Some "data:image/png;base64,iVBORw0KGgo="%string)
                   (ReplyJSON (answer (JSNum 0.2) (JSNum 0.22) (JSNum 0.25)
                                      (JSNum 0.2) (JSNum 0.3) (JSNum 0.9))))).
  reflexivity.
Defined.

(** X16: from the camera view with nothing in flight, an upload whose file
    is read and whose analysis is answered, with no other event in
    between, leaves the application at rest in the state [processImage]
    gives (of the variant at hand), the photo being the text read.  When
    the reader ends without a result, no analysis is started: the camera
    view shows the [TypeError] of [null.split], the photo is [null] and the
    record held before is kept. *)
Theorem upload_is_processImage (v : AppState) (ph : option string)
    (url : string) (reply : OracleReply) :
  st_step v = camera ->
  run engine_age (at_rest v ph) (upload (Some url) reply)
  = Some (at_rest (processImage v reply) (Some url)) /\
  run engine_simple (at_rest v ph) (upload (Some url) reply)
  = Some (at_rest (processImage_simple v reply) (Some url)) /\
  run engine_age (at_rest v ph) [ Change_file true; Reader_loadend 0 None ]
  = Some (at_rest (setStep camera (setError (Some TypeError_split) v)) None).
Proof.
  intros Hc. destruct v as [s h w a m e]. cbn [st_step] in Hc. subst s.
  unfold upload, at_rest, processImage, processImage_simple, engine_age, engine_simple.
  cbn [run handle view photo isProcessing readers requests Step_eqb st_step
       st_height st_weight st_age app nth_error remove_nth processImage_begins
       req_closure c_height c_weight c_age].
  unfold processImage_ends.
  cbn [req_closure c_height c_weight c_age view photo readers requests].
  split; [ | split ].
  - destruct (bind (analyzeBodyImage reply) (measure h w a)); reflexivity.
  - destruct (bind (analyzeBodyImage reply) (measure_simple h w)); reflexivity.
  - reflexivity.
Qed.

Lemma upload_is_processImage_at_the_camera :
  st_step (setStep camera (view mounted)) = camera /\
  run engine_age (at_rest (setStep camera (view mounted)) None)
      (upload (Some "data:image/png;base64,iVBORw0KGgo="%string) ReplyNotJSON)
  = Some (at_rest (processImage (setStep camera (view mounted)) ReplyNotJSON)
                  (Some "data:image/png;base64,iVBORw0KGgo="%string)).
Proof.
  assert (H : st_step (setStep camera (view mounted)) = camera) by reflexivity.
  split; [ exact H | ].
  exact (proj1 (upload_is_processImage (setStep camera (view mounted)) None
                  "data:image/png;base64,iVBORw0KGgo=" ReplyNotJSON H)).
Defined.

(** X17: "Reiniciar" does not cancel an analysis in flight.  If the user
    resets, starts again and types another height while the oracle has not
    answered, the answer still lands: the application jumps to the result
    view with the record of the abandoned scan, computed from the height
    entered when its file was chosen and not from the one now in the form,
    and with no photo. *)
Theorem reset_does_not_cancel
    (engine : Closure -> AnalysisResponse -> Result BodyMeasurements)
    (rt : Runtime) (x : float) (k : nat) (rq : Request) (reply : OracleReply)
    (m : BodyMeasurements) :
  engine = engine_age \/ engine = engine_simple ->
  st_step (view rt) <> welcome ->
  nth_error (requests rt) k = Some rq ->
  bind (analyzeBodyImage reply) (engine (req_closure rq)) = Returns m ->
  exists rt',
    run engine rt (abandon_then_answer x k reply) = Some rt' /\
    st_step (view rt') = result /\
    st_measurements (view rt') = Some m /\
    height m = c_height (req_closure rq) /\
    st_height (view rt') = x /\
    photo rt' = None /\
    requests rt' = remove_nth k (requests rt).
Proof.
  intros He Hstep Hk Hm.
  destruct (engine_stores_closure engine _ _ _ He Hm) as [Hheight _].
  destruct rt as [v ph busy rds rqs]. cbn [view requests] in *.
  unfold abandon_then_answer. cbn [run handle view].
  destruct (Step_eqb (st_step v) welcome) eqn:E.
  { apply Step_eqb_eq in E. contradiction. }
  cbn [run handle view photo isProcessing readers requests setStep setError
       setMeasurements setHeight st_step Step_eqb].
  rewrite Hk. unfold processImage_ends. rewrite Hm.
  eexists. split; [ reflexivity | ].
  cbn [view photo requests st_step st_measurements st_height setStep setMeasurements].
  repeat split; try reflexivity. exact Hheight.
Qed.

Lemma reset_does_not_cancel_at_170cm :
  exists m rt',
    (st_step (view (awaiting 170 70 30 (Some "AAAA"%string))) <> welcome /\
     nth_error (requests (awaiting 170 70 30 (Some "AAAA"%string))) 0
     = Some {| req_closure := {| c_height := 170; c_weight := 70; c_age := 30 |};
               req_image := Some "AAAA"%string |} /\
     bind (analyzeBodyImage
             (ReplyJSON (answer (JSNum 0.2) (JSNum 0.22) (JSNum 0.25) (JSNum 0.2)
                                (JSNum 0.3) (JSNum 0.9))))
          (engine_age {| c_height := 170; c_weight := 70; c_age := 30 |})
     = Returns m) /\
    run engine_age (awaiting 170 70 30 (Some "AAAA"%string))
        (abandon_then_answer 180 0
           (ReplyJSON (answer (JSNum 0.2) (JSNum 0.22) (JSNum 0.25) (JSNum 0.2)
                              (JSNum 0.3) (JSNum 0.9))))
    = Some rt' /\
    st_step (view rt') = result /\
    st_measurements (view rt') = Some m /\
    height m = 170 /\ st_height (view rt') = 180.
Proof.
  assert (H1 : st_step (view (awaiting 170 70 30 (Some "AAAA"%string))) <> welcome)
    by discriminate.
  destruct (reset_does_not_cancel engine_age (awaiting 170 70 30 (Some "AAAA"%string))
              180 0 _ (ReplyJSON (answer (JSNum 0.2) (JSNum 0.22) (JSNum 0.25)
                                         (JSNum 0.2) (JSNum 0.3) (JSNum 0.9)))
              _ (or_introl eq_refl) H1 eq_refl eq_refl)
    as (rt' & Hrun & Hs & Hm & Hhm & Hh & _).
  eexists. exists rt'.
  split; [ split; [ exact H1 | split; reflexivity ] | ].
  split; [ exact Hrun | ].
  split; [ exact Hs | ].
  split; [ exact Hm | split; [ exact Hhm | exact Hh ] ].
Defined.

End AppFacts.

(** ** 9.8 The perimeter in binary64 *)

Section PerimeterBounds.

Open Scope R_scope.

Lemma scaled_weaken (c : R) (x : float) (k : nat) (l h l' h' : R) :
  1 <= c -> scaled c x k l h -> l' <= l -> h <= h' -> scaled c x k l' h'.
Proof.
  intros Hc (v & Rv & V1 & V2) Hl Hh.
  pose proof (pow_R1_Rle c k Hc) as Hp.
  exists v. split; [ exact Rv | ]. split; nra.
Qed.

Lemma represents_PI :
  exists pi, represents F64.PI pi /\
             3.141592653589793 <= pi <= 3.141592653589794.
Proof.
  exists (IZR 7074237752028440 * pow2 (-51)). split.
  - exists 7074237752028440%positive, (-51)%Z. split; reflexivity.
  - constant_bounds.
Qed.

(** X12: in binary64, for every width from 1 to 10^6 and each of the
    three depth factors of the code, the perimeter before rounding lies
    between that of the circle whose diameter is the mean of the two axes
    and that of the circle whose diameter is the width, both taken with
    the number [Math.PI]. *)
Theorem perimeter_between_circles (w : float) :
  (1 <=? w)%float = true -> (w <=? 1000000)%float = true ->
  exists c pi p70 p75 p78,
    represents w c /\ represents F64.PI pi /\
    represents (perimeter 0.7%float w) p70 /\
    represents (perimeter 0.75%float w) p75 /\
    represents (perimeter 0.78%float w) p78 /\
    pi * c * ((1 + 7 / 10) / 2) <= p70 <= pi * c /\
    pi * c * ((1 + 75 / 100) / 2) <= p75 <= pi * c /\
    pi * c * ((1 + 78 / 100) / 2) <= p78 <= pi * c.
Proof.
  intros H1 H2.
  destruct (width_represents w H1 H2) as (c & Rw & Hc & Hw).
  destruct represents_PI as (pi & Rpi & Hpi).
  destruct (perimeter_scaled_simple c Hc w Hw) as [_ (p70 & R70 & L70 & U70)].
  destruct (perimeter_scaled_at_40 c Hc w Hw) as [_ (p75 & R75 & L75 & U75)].
  destruct (perimeter_scaled_at_60 c Hc w Hw) as [_ (p78 & R78 & L78 & U78)].
  simpl in L70, U70, L75, U75, L78, U78.
  rewrite Rmult_1_r in L70, U70, L75, U75, L78, U78.
  exists c, pi, p70, p75, p78.
  assert (P1 : 3.141592653589793 * c <= pi * c) by nra.
  assert (P2 : pi * c <= 3.141592653589794 * c) by nra.
  set (pc := pi * c) in *.
  repeat split; try assumption; lra.
Qed.

Lemma perimeter_between_circles_at_80cm :
  ((1 <=? 80)%float = true /\ (80 <=? 1000000)%float = true) /\
  exists c pi p70 p75 p78,
    represents 80%float c /\ represents F64.PI pi /\
    represents (perimeter 0.7%float 80%float) p70 /\
    represents (perimeter 0.75%float 80%float) p75 /\
    represents (perimeter 0.78%float 80%float) p78 /\
    pi * c * ((1 + 7 / 10) / 2) <= p70 <= pi * c /\
    pi * c * ((1 + 75 / 100) / 2) <= p75 <= pi * c /\
    pi * c * ((1 + 78 / 100) / 2) <= p78 <= pi * c.
Proof.
  split; [ split; reflexivity | ].
  apply (perimeter_between_circles 80%float); reflexivity.
Defined.

(** X13: in binary64, for every width from 1 to 10^6 and each of the
    three depth factors of the code, the shape term [h_approx] hardly
    depends on the width and the perimeter before rounding is
    proportional to it, up to the last digits: at the depth factor 0.7,
    [h_approx] lies between 0.0311418685121 and 0.0311418685122 and the
    perimeter between 2.6911844907340 and 2.6911844907341 times the
    width; at 0.75, between 0.0204081632653 and 0.0204081632654, and
    2.7629365200884 and 2.7629365200885 times the width; at 0.78, between
    0.0152758490089 and 0.0152758490090, and 2.8067055806146 and
    2.8067055806147 times the width. *)
Theorem perimeter_scales_with_width (w : float) :
  (1 <=? w)%float = true -> (w <=? 1000000)%float = true ->
  exists c,
    represents w c /\
    scaled c (h_approx 0.7%float w) 0 0.0311418685121 0.0311418685122 /\
    scaled c (perimeter 0.7%float w) 1 2.6911844907340 2.6911844907341 /\
    scaled c (h_approx 0.75%float w) 0 0.0204081632653 0.0204081632654 /\
    scaled c (perimeter 0.75%float w) 1 2.7629365200884 2.7629365200885 /\
    scaled c (h_approx 0.78%float w) 0 0.0152758490089 0.0152758490090 /\
    scaled c (perimeter 0.78%float w) 1 2.8067055806146 2.8067055806147.
Proof.
  intros H1 H2.
  destruct (width_represents w H1 H2) as (c & Rw & Hc & Hw).
  destruct (perimeter_scaled_simple c Hc w Hw) as [A70 B70].
  destruct (perimeter_scaled_at_40 c Hc w Hw) as [A75 B75].
  destruct (perimeter_scaled_at_60 c Hc w Hw) as [A78 B78].
  destruct Hc as [Hc1 Hc2].
  exists c. split; [ exact Rw | ].
  repeat split;
    match goal with
    | H : scaled c ?x ?k _ _ |- scaled c ?x ?k _ _ =>
        apply (scaled_weaken c x k _ _ _ _ Hc1 H); lra
    end.
Qed.

Lemma perimeter_scales_with_width_at_80cm :
  ((1 <=? 80)%float = true /\ (80 <=? 1000000)%float = true) /\
  exists c,
    represents 80%float c /\
    scaled c (h_approx 0.7%float 80%float) 0 0.0311418685121 0.0311418685122 /\
    scaled c (perimeter 0.7%float 80%float) 1 2.6911844907340 2.6911844907341 /\
    scaled c (h_approx 0.75%float 80%float) 0 0.0204081632653 0.0204081632654 /\
    scaled c (perimeter 0.75%float 80%float) 1 2.7629365200884 2.7629365200885 /\
    scaled c (h_approx 0.78%float 80%float) 0 0.0152758490089 0.0152758490090 /\
    scaled c (perimeter 0.78%float 80%float) 1 2.8067055806146 2.8067055806147.
Proof.
  split; [ split; reflexivity | ].
  apply (perimeter_scales_with_width 80%float); reflexivity.
Defined.

End PerimeterBounds.

(** *** Without a sum of the semi-axes *)

Section PerimeterUnderflow.

Open Scope float_scope.

(** A square is not negative. *)
Lemma square_sign (x : float) :
  match Prim2SF (x * x) with
  | S754_zero s | S754_infinity s | S754_finite s _ _ => s = false
  | S754_nan => True
  end.
Proof.
  rewrite mul_spec.
  destruct (Prim2SF x) as [s | s | | s m e]; cbn [SF64mul SFmul];
    try (destruct s; reflexivity); try exact I.
  rewrite xorb_nilpotent.
  pose proof (binary_round_aux_sign false (Z.pos (m * m)) (e + e) loc_Exact
                ltac:(lia)) as Hs.
  destruct (binary_round_aux prec emax false (Z.pos (m * m)) (e + e) loc_Exact);
    try exact Hs; exact I.
Qed.

(** A square divided by a square that is zero is NaN or Infinity. *)
Lemma square_over_no_square (t s : float) :
  (s * s =? 0) = true ->
  t * t / (s * s) = nan \/ t * t / (s * s) = infinity.
Proof.
  rewrite is_zero_spec. intros Hz.
  pose proof (square_sign s) as Hs. pose proof (square_sign t) as Ht.
  destruct (Prim2SF (s * s)) as [ss | ss | | ss ms es] eqn:Es; try discriminate Hz.
  subst ss.
  destruct (Prim2SF (t * t)) as [st | st | | st mt et] eqn:Et; try subst st.
  - left. apply Prim2SF_inj. rewrite div_spec, Es, Et. reflexivity.
  - right. apply Prim2SF_inj. rewrite div_spec, Es, Et. reflexivity.
  - left. apply Prim2SF_inj. rewrite div_spec, Es, Et. reflexivity.
  - right. apply Prim2SF_inj. rewrite div_spec, Es, Et. reflexivity.
Qed.

(** X20: for every width and depth factor, when [Math.pow(a + b, 2)] is
    zero -- the sum of the two semi-axes is zero, or so small that its
    square underflows -- [h_approx] is NaN or Infinity, the perimeter is
    NaN and [calcCircumference] returns NaN. *)
Theorem perimeter_without_square_is_NaN (depthFactor width : float) :
  (Math_pow2 (width / 2 + width * depthFactor / 2) =? 0) = true ->
  (h_approx depthFactor width = nan \/ h_approx depthFactor width = infinity) /\
  is_nan (perimeter depthFactor width) = true /\
  is_nan (calcCircumference depthFactor width) = true.
Proof.
  intros Hz.
  assert (Hh : h_approx depthFactor width = nan \/ h_approx depthFactor width = infinity).
  { apply (square_over_no_square (width / 2 - width * depthFactor / 2)
                                 (width / 2 + width * depthFactor / 2)).
    exact Hz. }
  assert (Hp : is_nan (perimeter depthFactor width) = true).
  { rewrite perimeter_h_approx.
    apply mul_nan_r.
    destruct Hh as [-> | ->]; reflexivity. }
  split; [ exact Hh | split; [ exact Hp | ] ].
  rewrite calcCircumference_rounds_perimeter.
  rewrite (nan_unique _ Hp). reflexivity.
Qed.

Lemma perimeter_without_square_is_NaN_at_1e_200 :
  (Math_pow2 (1e-200 / 2 + 1e-200 * 0.75 / 2) =? 0) = true /\
  is_nan (perimeter 0.75 1e-200) = true /\
  is_nan (calcCircumference 0.75 1e-200) = true.
Proof.
  split; [ reflexivity | ].
  apply (perimeter_without_square_is_NaN 0.75 1e-200). reflexivity.
Defined.

End PerimeterUnderflow.
